(** * patient_stories: the persistence layer and the ingestion command line

    A shallow embedding of [lib/database.ts] and [bin/youtube-fetcher.ts].

    The two files are sequential asynchronous code over three pieces of
    state: the module variable [pool], the relational store behind it and
    the outside world (log, standard output, files, the fetch service).
    They are rendered here as a state-and-exception monad over a [World];
    everything the program cannot decide itself (whether a connection
    attempt is answered, whether a statement is lost on the wire, what the
    fetch service returns) is read from an [Env] record of oracles.

    The SQL text of the module is rendered by the function
    that the statement denotes on the three tables, with the constraints
    that the [CREATE TABLE] statements declare. *)

From Stdlib Require Import String Ascii List ZArith Lia Bool Arith.
Import ListNotations.
Open Scope string_scope.

(* ------------------------------------------------------------------ *)
(** ** JavaScript values *)

(** A JavaScript [number], restricted to what the two files produce and
    consume: integral values, [NaN] (the result of a failed [parseInt])
    and the two infinities (the result of [parseInt] on digits beyond the
    range of a double). *)
Inductive number : Type :=
| NaN
| Num (z : Z)
| Infinity (negative : bool).

(** Truthiness, as used by [||], [!], [if] and [?:]. *)
Definition truthy_number (n : number) : bool :=
  match n with
  | NaN => false
  | Num z => negb (z =? 0)%Z
  | Infinity _ => true
  end.

Definition truthy_string (s : string) : bool := negb (s =? "").

(** *** Strings

    A string is held as its UTF-8 encoding, the form in which the driver
    sends it to the database: a character is a byte that is not a
    continuation byte, together with the continuation bytes after it. *)
Definition continuation (c : ascii) : bool :=
  (128 <=? nat_of_ascii c)%nat && (nat_of_ascii c <? 192)%nat.

(** The number of characters. *)
Fixpoint char_length (s : string) : nat :=
  match s with
  | EmptyString => O
  | String c rest =>
      if continuation c then char_length rest else S (char_length rest)
  end.

(** The first [n] characters, and what comes after them. *)
Fixpoint first_chars (n : nat) (s : string) : string :=
  match s with
  | EmptyString => EmptyString
  | String c rest =>
      if continuation c then String c (first_chars n rest)
      else
        match n with
        | O => EmptyString
        | S n' => String c (first_chars n' rest)
        end
  end.

Fixpoint after_chars (n : nat) (s : string) : string :=
  match s with
  | EmptyString => EmptyString
  | String c rest =>
      if continuation c then after_chars n rest
      else
        match n with
        | O => s
        | S n' => after_chars n' rest
        end
  end.

Fixpoint all_spaces (s : string) : bool :=
  match s with
  | EmptyString => true
  | String c rest => (nat_of_ascii c =? 32)%nat && all_spaces rest
  end.

(** The string holds the character U+0000. *)
Fixpoint has_nul (s : string) : bool :=
  match s with
  | EmptyString => false
  | String c rest => (nat_of_ascii c =? 0)%nat || has_nul rest
  end.

(** A JSON value, the run-time shape of the structured fields of an
    analysis result. *)
#[local] Unset Elimination Schemes.
Inductive Json : Type :=
| JNull
| JBool (b : bool)
| JNum (z : Z)
| JStr (s : string)
| JArr (items : list Json)
| JObj (members : list (string * Json)).
#[local] Set Elimination Schemes.

Definition truthy_json (j : Json) : bool :=
  match j with
  | JNull => false
  | JBool b => b
  | JNum z => negb (z =? 0)%Z
  | JStr s => truthy_string s
  | JArr _ => true
  | JObj _ => true
  end.

(** A string of the value, or the name of a member, holds U+0000. *)
Fixpoint json_has_nul (j : Json) : bool :=
  match j with
  | JStr s => has_nul s
  | JArr items => existsb json_has_nul items
  | JObj members =>
      existsb (fun member => has_nul (fst member) || json_has_nul (snd member))
        members
  | _ => false
  end.

(** A property of an object that may be missing: [None] is [undefined]
    (or [null]).  TypeScript interfaces are erased at run time, and the
    code itself guards against missing fields ([x || null], [x ? .. : null])
    and hands back a possibly-null [description]. *)
Definition truthy_opt {A : Type} (truthy : A -> bool) (o : option A) : bool :=
  match o with
  | Some a => truthy a
  | None => false
  end.

(** [x || d] *)
Definition or_else {A : Type} (truthy : A -> bool) (o : option A) (d : A) : A :=
  match o with
  | Some a => if truthy a then a else d
  | None => d
  end.

(** [x || null] *)
Definition or_null {A : Type} (truthy : A -> bool) (o : option A) : option A :=
  match o with
  | Some a => if truthy a then Some a else None
  | None => None
  end.

(** [x ? JSON.stringify(x) : null]; a [jsonb] column holds the value the
    text denotes, so the serialised text is represented by the value. *)
Definition stringify_or_null (o : option Json) : option Json :=
  or_null truthy_json o.

(** [interface VideoMetadata] *)
Module VideoMetadata.
Record t : Type := mk {
  id : string;
  title : option string;
  description : option string;
  publishedDate : option string;
  durationInSeconds : option number;
  viewCount : option number;
  url : option string
}.
End VideoMetadata.
Abbreviation VideoMetadata := VideoMetadata.t.

(** The value of [row.publishedDate || ""] in [getVideoMetadata].  The
    driver hands a [TIMESTAMP] column to the program as a [Date], not as
    the text that was stored: [DateOf s] is the [Date] that it builds from
    the timestamp that the engine read from [s].  A [Date] is an object
    and so truthy; a null column gives the empty string. *)
Inductive DateOrText : Type :=
| DateOf (literal : string)
| TextOf (s : string).

(** The object that [getVideoMetadata] builds from a row.  It is declared
    as a [VideoMetadata]; at run time its fields hold what the driver
    delivers for the columns. *)
Module ReadMetadata.
Record t : Type := mk {
  id : string;
  title : string;
  description : option string;
  publishedDate : DateOrText;
  durationInSeconds : number;
  viewCount : number;
  url : string
}.
End ReadMetadata.
Abbreviation ReadMetadata := ReadMetadata.t.

(** Modelled from the spec: the [AnalysisResult] interface of [lib/ollama],
    which is imported by [lib/database.ts] but is not part of the sources.
    The fields are those that [storeAnalysis] reads.  The spec describes the
    four list-valued ones as "arbitrary nested JSON", each "either absent
    (null) or a fully-formed JSON value"; the other six go to nullable text
    columns. *)
Module AnalysisResult.
Record t : Type := mk {
  video_type : option string;
  name : option string;
  age : option string;
  sex : option string;
  location : option string;
  symptoms : option Json;
  medicalHistoryOfPatient : option Json;
  familyMedicalHistory : option Json;
  challengesFacedDuringDiagnosis : option Json;
  key_opinion : option string
}.
End AnalysisResult.
Abbreviation AnalysisResult := AnalysisResult.t.

(* ------------------------------------------------------------------ *)
(** ** The relational store *)

(** Errors that reach the program: those raised by the database engine
    (named after their SQLSTATE condition), by the driver, and by the
    program itself. *)
Inductive Error : Type :=
| ConnectionError (msg : string)
| UndefinedTable (table : string)
| CharacterNotInRepertoire
| UntranslatableCharacter
| NotNullViolation (column : string)
| StringDataRightTruncation
| InvalidDatetimeFormat
| InvalidTextRepresentation
| NumericValueOutOfRange
| UniqueViolation
| ForeignKeyViolation
| TypeError (msg : string)
| JsError (msg : string)
| FetchError (msg : string)
| IoError (code : string) (msg : string).

(** [CREATE TABLE videos] *)
Module Videos.
Record row : Type := mk {
  video_id : string;            (* VARCHAR(255) PRIMARY KEY *)
  title : string;               (* TEXT NOT NULL *)
  description : option string;  (* TEXT *)
  published_date : option string; (* TIMESTAMP NULL, held as the text it was read from *)
  duration_seconds : option Z;  (* INTEGER *)
  url : string                  (* TEXT NOT NULL *)
}.
End Videos.

(** [CREATE TABLE transcripts] *)
Module Transcripts.
Record row : Type := mk {
  transcript_id : Z;            (* SERIAL PRIMARY KEY *)
  video_id : string;            (* VARCHAR(255) UNIQUE NOT NULL, REFERENCES videos *)
  full_transcript : string;     (* TEXT NOT NULL *)
  language : string             (* VARCHAR(10) NOT NULL *)
}.
End Transcripts.

(** [CREATE TABLE analysis] *)
Module Analysis.
Record row : Type := mk {
  video_id : string;            (* VARCHAR(255) PRIMARY KEY, REFERENCES videos *)
  video_type : option string;
  name : option string;
  age : option string;
  sex : option string;
  location : option string;
  symptoms : option Json;       (* JSONB *)
  medical_history_of_patient : option Json;
  family_medical_history : option Json;
  challenges_faced_during_diagnosis : option Json;
  key_opinion : option string
}.
End Analysis.

(** The database: a table is [None] until its [CREATE TABLE] has run, and
    then the list of its rows.  [transcripts_seq] is the sequence behind
    the [SERIAL] column. *)
Record Db : Type := mkDb {
  videos : option (list Videos.row);
  transcripts : option (list Transcripts.row);
  analysis : option (list Analysis.row);
  transcripts_seq : Z
}.

Definition empty_db : Db := mkDb None None None 0.

Definition rows {A : Type} (t : option (list A)) : list A :=
  match t with
  | Some l => l
  | None => []
  end.

Definition has_video (vid : string) (d : Db) : bool :=
  existsb (fun r => Videos.video_id r =? vid) (rows (videos d)).

(** *** Parameters and column types

    A statement goes through the engine in three steps, and is refused at
    the first check that fails.  When the parameters are bound, each one
    is read, in order, at the type the statement gives it.  When the
    statement is planned, the values bound for [VARCHAR(n)] columns are
    fitted to the length.  When it is executed, defaults are drawn and the
    constraints of the table are checked. *)

(** A parameter of a character type, as it is bound: U+0000 is not a
    character of the database's encoding. *)
Definition text (s : string) : Error + string :=
  if has_nul s then inl CharacterNotInRepertoire else inr s.

(** A parameter for an [INTEGER] column, as it is bound.  The driver sends
    the number as the text [String(n)], which is not an integer literal
    for [NaN] and the infinities, nor for the values from 10^21 on, which
    JavaScript writes with an exponent. *)
Definition int4 (n : number) : Error + Z :=
  match n with
  | NaN => inl InvalidTextRepresentation
  | Infinity _ => inl InvalidTextRepresentation
  | Num z =>
      if ((-2147483648 <=? z) && (z <=? 2147483647))%Z then inr z
      else if (Z.abs z <? 10 ^ 21)%Z then inl NumericValueOutOfRange
      else inl InvalidTextRepresentation
  end.

(** A parameter for a [JSONB] column, as it is bound: the escape that
    [JSON.stringify] writes for U+0000 is refused. *)
Definition jsonb (j : Json) : Error + Json :=
  if json_has_nul j then inl UntranslatableCharacter else inr j.

(** The assignment to a [VARCHAR(n)] column: the length is counted in
    characters, and a value that is too long is cut to [n] characters when
    what is cut consists of spaces, and refused otherwise. *)
Definition varchar (n : nat) (s : string) : Error + string :=
  if all_spaces (after_chars n s) then inr (first_chars n s)
  else inl StringDataRightTruncation.

(** A nullable column of some type. *)
Definition nullable {A B : Type} (conv : A -> Error + B) (p : option A)
  : Error + option B :=
  match p with
  | None => inr None
  | Some a =>
      match conv a with
      | inl e => inl e
      | inr b => inr (Some b)
      end
  end.

(** [NOT NULL] *)
Definition not_null {A : Type} (column : string) (p : option A) : Error + A :=
  match p with
  | None => inl (NotNullViolation column)
  | Some a => inr a
  end.

(** Sequencing of checks that may refuse. *)
Definition andThen {A B : Type} (r : Error + A) (k : A -> Error + B) : Error + B :=
  match r with
  | inl e => inl e
  | inr a => k a
  end.

Notation "'check' x <- r ; k" := (andThen r (fun x => k))
  (at level 10, x name, r at level 100, k at level 200).

(* ------------------------------------------------------------------ *)
(** ** The outside world *)

(** The text of each [safeLog] call, with the values it interpolates. *)
Inductive LogMsg : Type :=
| LConnecting (attempt retries : nat)
| LConnected
| LConnectFailed (attempt retries : nat) (msg : string)
| LDbInitialized
| LDbInitError (e : Error)
| LVideoStored (vid : string)
| LVideoStoreError (vid : string) (e : Error)
| LTranscriptStored (vid : string)
| LTranscriptStoreError (vid : string) (e : Error)
| LTranscriptFetchError (vid : string) (e : Error)
| LMetadataFetchError (vid : string) (e : Error)
| LAnalysisStored (vid : string)
| LAnalysisStoreError (vid : string) (e : Error)
| LVideoIdsFetchError (e : Error)
| LUsageDisease
| LUsageVideoId
| LNoMetadata (vid : string)
| LFound (n : nat) (disease : option string)
| LProcessed (vid : string)
| LProcessError (vid : string) (e : Error)
| LNoVideos
| LStoredInDatabase (vid : string)
| LStoreInDatabaseError (vid : string) (e : Error)
| LWroteMetadata (path : string)
| LWroteIds (n : nat) (path : string)
| LWroteStdout (vid : string) (title : option string)
| LStdoutError (msg : string)
| LBrokenPipe
| LFatal (e : Error)
| LUnhandled (e : Error).

(** The statements that [lib/database.ts] sends over the module's pool. *)
Inductive Sql : Type :=
| CreateVideos
| CreateTranscripts
| CreateAnalysis
| InsertVideo
| InsertTranscript
| SelectTranscript
| SelectVideo
| InsertAnalysis
| SelectVideoIds.

(** What [fs.writeFile] is given: [JSON.stringify] of the records, or of
    their identifiers. *)
Inductive FileContent : Type :=
| MetadataArray (records : list VideoMetadata)
| IdArray (ids : list string).

(** Everything the program does to its surroundings, in order. *)
Inductive Event : Type :=
| EvLog (m : LogMsg)
| EvConnect (n : nat)
| EvSleep (ms : Z)
| EvQuery (q : Sql)
| EvGetVideoDetails (vid : string)
| EvSearch (disease : option string) (maxResults : number)
| EvWriteFile (path : string) (content : FileContent)
| EvStdout (record : VideoMetadata).

(** What the surroundings answer.  [connect_error n] is the outcome of the
    [n]-th connection attempt of the process ([new Pool] followed by
    [SELECT 1]) and [query_error n] says whether the [n]-th later statement
    is lost before the engine sees it; [None] is success.  [timestamp_ok]
    is the engine's reading of a [TIMESTAMP] literal and [parseInt10] the
    run time's [parseInt(_, 10)].  [youtubeService_error] is what the
    dynamic import of [../lib/youtube-service] or the constructor of
    [YouTubeService] throws, if they do.  [stdout_error n] is the error
    that the stream reports for the [n]-th write to standard output, if
    that write fails. *)
Record Env : Type := mkEnv {
  connect_error : nat -> option string;
  query_error : nat -> option string;
  timestamp_ok : string -> bool;
  parseInt10 : string -> number;
  youtubeService_error : option Error;
  getVideoDetails : string -> Error + option VideoMetadata;
  searchDiseaseVideos : option string -> number -> Error + list VideoMetadata;
  writeFile_error : string -> option Error;
  stdout_error : nat -> option Error
}.

(** The state the program runs in: the module variable [pool] (a pool is
    named by the attempt that created it), the database, how many
    connection attempts, statements and output lines there have been, and
    the events so far. *)
Record World : Type := mkWorld {
  pool : option nat;
  db : Db;
  attempts : nat;
  queries : nat;
  written : nat;
  trace : list Event
}.

Definition initial_world : World := mkWorld None empty_db 0 0 0 [].

(** *** The monad *)

(** A computation returns, throws, or ends the process ([process.exit]). *)
Inductive Outcome (A : Type) : Type :=
| Ok (a : A)
| Throw (e : Error)
| Exit (code : Z).
Arguments Ok {A} a.
Arguments Throw {A} e.
Arguments Exit {A} code.

Definition M (A : Type) : Type := World -> Outcome A * World.

Definition ret {A : Type} (a : A) : M A := fun w => (Ok a, w).

Definition bind {A B : Type} (m : M A) (k : A -> M B) : M B :=
  fun w =>
    match m w with
    | (Ok a, w') => k a w'
    | (Throw e, w') => (Throw e, w')
    | (Exit c, w') => (Exit c, w')
    end.

Definition throw {A : Type} (e : Error) : M A := fun w => (Throw e, w).

(** [process.exit(code)]: nothing after it runs, no handler sees it. *)
Definition exit {A : Type} (code : Z) : M A := fun w => (Exit code, w).

(** [try { m } catch (error) { h error }] *)
Definition try_catch {A : Type} (m : M A) (h : Error -> M A) : M A :=
  fun w =>
    match m w with
    | (Throw e, w') => h e w'
    | r => r
    end.

Declare Scope m_scope.
Delimit Scope m_scope with M.
Notation "x <- m ;; k" := (bind m (fun x => k))
  (at level 61, m at next level, right associativity) : m_scope.
Notation "m ;; k" := (bind m (fun _ => k))
  (at level 61, right associativity) : m_scope.
Open Scope m_scope.

Definition emit (e : Event) : M unit :=
  fun w => (Ok tt, mkWorld (pool w) (db w) (attempts w) (queries w) (written w)
                           (trace w ++ [e])).

Definition safeLog (m : LogMsg) : M unit := emit (EvLog m).

(** [when c m]: [if (c) { m }] *)
Definition when (c : bool) (m : M unit) : M unit := if c then m else ret tt.

(** [for (const x of xs) { body x }] *)
Fixpoint for_of {A : Type} (xs : list A) (body : A -> M unit) : M unit :=
  match xs with
  | [] => ret tt
  | x :: rest => body x ;; for_of rest body
  end.

(* ------------------------------------------------------------------ *)
(** ** The statements *)

(** Each statement is the function it denotes on the database; a refused
    statement leaves every table as it was. *)
Definition Statement (A : Type) : Type := Db -> (Error + A) * Db.

Definition set_videos (t : list Videos.row) (d : Db) : Db :=
  mkDb (Some t) (transcripts d) (analysis d) (transcripts_seq d).
Definition set_transcripts (t : list Transcripts.row) (d : Db) : Db :=
  mkDb (videos d) (Some t) (analysis d) (transcripts_seq d).
Definition set_analysis (t : list Analysis.row) (d : Db) : Db :=
  mkDb (videos d) (transcripts d) (Some t) (transcripts_seq d).
Definition set_transcripts_seq (n : Z) (d : Db) : Db :=
  mkDb (videos d) (transcripts d) (analysis d) n.

(** [CREATE TABLE IF NOT EXISTS videos (...)] *)
Definition create_videos : Statement unit :=
  fun d =>
    match videos d with
    | Some _ => (inr tt, d)
    | None => (inr tt, set_videos [] d)
    end.

(** [CREATE TABLE IF NOT EXISTS transcripts (...)]; the table it refers to
    has to be there. *)
Definition create_transcripts : Statement unit :=
  fun d =>
    match transcripts d with
    | Some _ => (inr tt, d)
    | None =>
        match videos d with
        | Some _ => (inr tt, set_transcripts [] d)
        | None => (inl (UndefinedTable "videos"), d)
        end
    end.

(** [CREATE TABLE IF NOT EXISTS analysis (...)] *)
Definition create_analysis : Statement unit :=
  fun d =>
    match analysis d with
    | Some _ => (inr tt, d)
    | None =>
        match videos d with
        | Some _ => (inr tt, set_analysis [] d)
        | None => (inl (UndefinedTable "videos"), d)
        end
    end.

Section Program.

Variable E : Env.

(** A parameter for a [TIMESTAMP] column, as it is bound. *)
Definition timestamp (s : string) : Error + string :=
  if has_nul s then inl CharacterNotInRepertoire
  else if timestamp_ok E s then inr s
  else inl InvalidDatetimeFormat.

(** [ON CONFLICT (video_id) DO UPDATE SET title = $2, description = $3,
    published_date = $4, duration_seconds = $5, url = $6]: the row that has
    the key keeps it and takes the five other columns; without such a row
    the new one is added. *)
Definition upsert_video (r : Videos.row) (t : list Videos.row) : list Videos.row :=
  if existsb (fun x => Videos.video_id x =? Videos.video_id r) t then
    map (fun x =>
           if Videos.video_id x =? Videos.video_id r then
             Videos.mk (Videos.video_id x) (Videos.title r) (Videos.description r)
                       (Videos.published_date r) (Videos.duration_seconds r)
                       (Videos.url r)
           else x) t
  else t ++ [r].

(** The row that [VALUES ($1, $2, $3, $4, $5, $6)] proposes for [videos]:
    the six parameters are bound, the identifier is fitted to its column,
    and the columns that are [NOT NULL] are checked. *)
Definition videos_row (p1 p2 p3 p4 : option string) (p5 : option number)
    (p6 : option string) : Error + Videos.row :=
  check id <- nullable text p1;
  check title <- nullable text p2;
  check description <- nullable text p3;
  check published_date <- nullable timestamp p4;
  check duration_seconds <- nullable int4 p5;
  check url <- nullable text p6;
  check id <- nullable (varchar 255) id;
  check video_id <- not_null "video_id" id;
  check title <- not_null "title" title;
  check url <- not_null "url" url;
  inr (Videos.mk video_id title description published_date duration_seconds url).

(** [INSERT INTO videos (video_id, title, description, published_date,
    duration_seconds, url) VALUES ($1, $2, $3, $4, $5, $6) ON CONFLICT ...] *)
Definition insert_video (p1 p2 p3 p4 : option string) (p5 : option number)
    (p6 : option string) : Statement unit :=
  fun d =>
    match videos d with
    | None => (inl (UndefinedTable "videos"), d)
    | Some t =>
        match videos_row p1 p2 p3 p4 p5 p6 with
        | inl e => (inl e, d)
        | inr r => (inr tt, set_videos (upsert_video r t) d)
        end
    end.

(** [ON CONFLICT (video_id) DO UPDATE SET full_transcript = $2,
    language = $3] *)
Definition update_transcript (r : Transcripts.row) (t : list Transcripts.row)
  : list Transcripts.row :=
  map (fun x =>
         if Transcripts.video_id x =? Transcripts.video_id r then
           Transcripts.mk (Transcripts.transcript_id x) (Transcripts.video_id x)
                          (Transcripts.full_transcript r) (Transcripts.language r)
         else x) t.

(** The values of [VALUES ($1, $2, $3)], as they are bound and fitted to
    the two [VARCHAR] columns. *)
Definition transcripts_values (p1 p2 p3 : option string)
  : Error + (option string * option string * option string) :=
  check id <- nullable text p1;
  check full_transcript <- nullable text p2;
  check lang <- nullable text p3;
  check video_id <- nullable (varchar 255) id;
  check language <- nullable (varchar 10) lang;
  inr (video_id, full_transcript, language).

(** The row that they propose for [transcripts], under [transcript_id]. *)
Definition transcripts_row (transcript_id : Z)
    (video_id full_transcript language : option string)
  : Error + Transcripts.row :=
  check video_id <- not_null "video_id" video_id;
  check full_transcript <- not_null "full_transcript" full_transcript;
  check language <- not_null "language" language;
  inr (Transcripts.mk transcript_id video_id full_transcript language).

(** [INSERT INTO transcripts (video_id, full_transcript, language) VALUES
    ($1, $2, $3) ON CONFLICT ...].  A statement whose values are refused
    is not executed.  One that is executed draws the default of
    [transcript_id] from the sequence, and a sequence does not go back when
    the row is refused afterwards.  A row that is new has to pass the
    primary key and the reference to [videos]. *)
Definition insert_transcript (p1 p2 p3 : option string) : Statement unit :=
  fun d =>
    match transcripts d with
    | None => (inl (UndefinedTable "transcripts"), d)
    | Some t =>
        match transcripts_values p1 p2 p3 with
        | inl e => (inl e, d)
        | inr (video_id, full_transcript, language) =>
            let transcript_id := (transcripts_seq d + 1)%Z in
            let d := set_transcripts_seq transcript_id d in
            match transcripts_row transcript_id video_id full_transcript
                    language with
            | inl e => (inl e, d)
            | inr r =>
                if existsb (fun x => Transcripts.video_id x
                                     =? Transcripts.video_id r) t
                then (inr tt, set_transcripts (update_transcript r t) d)
                else if existsb (fun x => (Transcripts.transcript_id x
                                           =? transcript_id)%Z) t
                then (inl UniqueViolation, d)
                else if has_video (Transcripts.video_id r) d
                then (inr tt, set_transcripts (t ++ [r]) d)
                else (inl ForeignKeyViolation, d)
            end
        end
    end.

(** [ON CONFLICT (video_id) DO UPDATE SET video_type = EXCLUDED.video_type,
    ...]: every column but the key is taken from the proposed row. *)
Definition update_analysis (r : Analysis.row) (t : list Analysis.row)
  : list Analysis.row :=
  map (fun x =>
         if Analysis.video_id x =? Analysis.video_id r then
           Analysis.mk (Analysis.video_id x) (Analysis.video_type r) (Analysis.name r)
                       (Analysis.age r) (Analysis.sex r) (Analysis.location r)
                       (Analysis.symptoms r) (Analysis.medical_history_of_patient r)
                       (Analysis.family_medical_history r)
                       (Analysis.challenges_faced_during_diagnosis r)
                       (Analysis.key_opinion r)
         else x) t.

(** The row that [VALUES ($1, ..., $11)] proposes for [analysis]. *)
Definition analysis_row (p1 p2 p3 p4 p5 p6 : option string)
    (p7 p8 p9 p10 : option Json) (p11 : option string) : Error + Analysis.row :=
  check id <- nullable text p1;
  check video_type <- nullable text p2;
  check name <- nullable text p3;
  check age <- nullable text p4;
  check sex <- nullable text p5;
  check location <- nullable text p6;
  check symptoms <- nullable jsonb p7;
  check medical_history_of_patient <- nullable jsonb p8;
  check family_medical_history <- nullable jsonb p9;
  check challenges_faced_during_diagnosis <- nullable jsonb p10;
  check key_opinion <- nullable text p11;
  check id <- nullable (varchar 255) id;
  check video_id <- not_null "video_id" id;
  inr (Analysis.mk video_id video_type name age sex location symptoms
                   medical_history_of_patient family_medical_history
                   challenges_faced_during_diagnosis key_opinion).

(** [INSERT INTO analysis (...) VALUES ($1, ..., $11) ON CONFLICT ...] *)
Definition insert_analysis (p1 p2 p3 p4 p5 p6 : option string)
    (p7 p8 p9 p10 : option Json) (p11 : option string) : Statement unit :=
  fun d =>
    match analysis d with
    | None => (inl (UndefinedTable "analysis"), d)
    | Some t =>
        match analysis_row p1 p2 p3 p4 p5 p6 p7 p8 p9 p10 p11 with
        | inl e => (inl e, d)
        | inr r =>
            if existsb (fun x => Analysis.video_id x =? Analysis.video_id r) t
            then (inr tt, set_analysis (update_analysis r t) d)
            else if has_video (Analysis.video_id r) d
            then (inr tt, set_analysis (t ++ [r]) d)
            else (inl ForeignKeyViolation, d)
        end
    end.

(** [SELECT full_transcript, language FROM transcripts WHERE video_id = $1] *)
Definition select_transcript (p1 : string) : Statement (list Transcripts.row) :=
  fun d =>
    match transcripts d with
    | None => (inl (UndefinedTable "transcripts"), d)
    | Some t =>
        match text p1 with
        | inl e => (inl e, d)
        | inr video_id =>
            (inr (filter (fun x => Transcripts.video_id x =? video_id) t), d)
        end
    end.

(** [SELECT video_id AS id, title, description, published_date AS
    "publishedDate", duration_seconds AS "durationInSeconds", url FROM videos
    WHERE video_id = $1] *)
Definition select_video (p1 : string) : Statement (list Videos.row) :=
  fun d =>
    match videos d with
    | None => (inl (UndefinedTable "videos"), d)
    | Some t =>
        match text p1 with
        | inl e => (inl e, d)
        | inr video_id =>
            (inr (filter (fun x => Videos.video_id x =? video_id) t), d)
        end
    end.

(** [SELECT video_id FROM videos] *)
Definition select_video_ids : Statement (list Videos.row) :=
  fun d =>
    match videos d with
    | None => (inl (UndefinedTable "videos"), d)
    | Some t => (inr t, d)
    end.

(* ------------------------------------------------------------------ *)
(** ** lib/database.ts *)

Definition get_pool : M (option nat) := fun w => (Ok (pool w), w).

Definition set_pool (p : nat) : M unit :=
  fun w => (Ok tt, mkWorld (Some p) (db w) (attempts w) (queries w) (written w)
                           (trace w)).

(** [error.message] *)
Definition message (e : Error) : string :=
  match e with
  | ConnectionError msg => msg
  | UndefinedTable table => "relation does not exist"
  | CharacterNotInRepertoire => "invalid byte sequence for encoding UTF8: 0x00"
  | UntranslatableCharacter => "unsupported Unicode escape sequence"
  | NotNullViolation column => "null value violates not-null constraint"
  | StringDataRightTruncation => "value too long for type character varying"
  | InvalidDatetimeFormat => "invalid input syntax for type timestamp"
  | InvalidTextRepresentation => "invalid input syntax for type integer"
  | NumericValueOutOfRange => "value out of range for type integer"
  | UniqueViolation => "duplicate key value violates unique constraint"
  | ForeignKeyViolation => "insert violates foreign key constraint"
  | TypeError msg => msg
  | JsError msg => msg
  | FetchError msg => msg
  | IoError _ msg => msg
  end.

(** [error.code] *)
Definition code (e : Error) : option string :=
  match e with
  | IoError c _ => Some c
  | _ => None
  end.

(** [error.code !== c] *)
Definition code_differs (e : Error) (c : string) : bool :=
  match code e with
  | Some c' => negb (c' =? c)
  | None => true
  end.

(** [new Pool({ connectionString })] followed by
    [await newPool.query('SELECT 1')]: one connection attempt. *)
Definition connect : M nat :=
  fun w =>
    let n := attempts w in
    let w' := mkWorld (pool w) (db w) (S n) (queries w) (written w)
                      (trace w ++ [EvConnect n]) in
    match connect_error E n with
    | Some msg => (Throw (ConnectionError msg), w')
    | None => (Ok n, w')
    end.

(** [await new Promise(resolve => setTimeout(resolve, ms))] *)
Definition sleep (ms : Z) : M unit := emit (EvSleep ms).

(** [await pool.query(text, values)] on the module's pool. *)
Definition pool_query {A : Type} (q : Sql) (stmt : Statement A) : M A :=
  fun w =>
    match pool w with
    | None => (Throw (TypeError "Cannot read properties of null"), w)
    | Some p =>
        let n := queries w in
        let sent d := mkWorld (Some p) d (attempts w) (S n) (written w)
                              (trace w ++ [EvQuery q]) in
        match query_error E n with
        | Some msg => (Throw (ConnectionError msg), sent (db w))
        | None =>
            match stmt (db w) with
            | (inl e, d) => (Throw e, sent d)
            | (inr a, d) => (Ok a, sent d)
            end
        end
    end.

(** The [while (attempt < retries)] loop of [connectWithRetry].  Every
    iteration either returns or raises [attempt] by one, so [fuel], which
    starts at [retries], is [retries - attempt] throughout and runs out
    exactly when the loop test fails. *)
Fixpoint connectLoop (fuel retries : nat) (retryInterval : Z) (attempt : nat)
  : M nat :=
  match fuel with
  | O => throw (JsError "Failed to connect to database after multiple attempts")
  | S fuel =>
      if (attempt <? retries)%nat then
        try_catch
          (safeLog (LConnecting (attempt + 1) retries) ;;
           newPool <- connect ;;
           safeLog LConnected ;;
           ret newPool)
          (fun error =>
             let attempt := S attempt in
             safeLog (LConnectFailed attempt retries (message error)) ;;
             if (retries <=? attempt)%nat then throw error
             else
               sleep retryInterval ;;
               connectLoop fuel retries retryInterval attempt)
      else throw (JsError "Failed to connect to database after multiple attempts")
  end.

Definition connectWithRetry (retries : nat) (retryInterval : Z) : M nat :=
  connectLoop retries retries retryInterval 0.

Definition initializeDatabase : M unit :=
  try_catch
    (p <- get_pool ;;
     match p with
     | None => newPool <- connectWithRetry 5 2000 ;; set_pool newPool
     | Some _ => ret tt
     end ;;
     pool_query CreateVideos create_videos ;;
     pool_query CreateTranscripts create_transcripts ;;
     pool_query CreateAnalysis create_analysis ;;
     safeLog LDbInitialized)
    (fun error => safeLog (LDbInitError error) ;; throw error).

(** [if (!pool) await initializeDatabase();] *)
Definition ensure_pool : M unit :=
  p <- get_pool ;;
  match p with
  | None => initializeDatabase
  | Some _ => ret tt
  end.

Definition watch_url (id : string) : string :=
  "https://youtube.com/watch?v=" ++ id.

Definition storeVideo (metadata : VideoMetadata) : M unit :=
  try_catch
    (ensure_pool ;;
     pool_query InsertVideo
       (insert_video
          (Some (VideoMetadata.id metadata))
          (VideoMetadata.title metadata)
          (VideoMetadata.description metadata)
          (or_null truthy_string (VideoMetadata.publishedDate metadata))
          (or_null truthy_number (VideoMetadata.durationInSeconds metadata))
          (Some (watch_url (VideoMetadata.id metadata)))) ;;
     safeLog (LVideoStored (VideoMetadata.id metadata)))
    (fun error =>
       safeLog (LVideoStoreError (VideoMetadata.id metadata) error) ;;
       throw error).

(** [language] is [None] when the caller leaves the argument out. *)
Definition storeTranscript (videoId : string) (transcript : option string)
    (language : option string) : M unit :=
  let language := match language with Some l => l | None => "en" end in
  try_catch
    (ensure_pool ;;
     pool_query InsertTranscript
       (insert_transcript (Some videoId) transcript (Some language)) ;;
     safeLog (LTranscriptStored videoId))
    (fun error =>
       safeLog (LTranscriptStoreError videoId error) ;;
       throw error).

Definition getTranscript (videoId : string) : M (option (string * string)) :=
  try_catch
    (ensure_pool ;;
     result <- pool_query SelectTranscript (select_transcript videoId) ;;
     match result with
     | row :: _ =>
         ret (Some (Transcripts.full_transcript row, Transcripts.language row))
     | [] => ret None
     end)
    (fun error =>
       safeLog (LTranscriptFetchError videoId error) ;;
       throw error).

(** [row.publishedDate || ""], where [row.publishedDate] is the [Date]
    that the driver builds, or [null]. *)
Definition date_or_empty (published_date : option string) : DateOrText :=
  match published_date with
  | Some s => DateOf s
  | None => TextOf ""
  end.

Definition getVideoMetadata (videoId : string) : M (option ReadMetadata) :=
  try_catch
    (ensure_pool ;;
     result <- pool_query SelectVideo (select_video videoId) ;;
     match result with
     | [] => ret None
     | row :: _ =>
         ret (Some (ReadMetadata.mk
                      (Videos.video_id row)
                      (Videos.title row)
                      (Videos.description row)
                      (date_or_empty (Videos.published_date row))
                      (or_else truthy_number
                         (option_map Num (Videos.duration_seconds row))
                         (Num 0))
                      (Num 0)
                      (Videos.url row)))
     end)
    (fun error =>
       safeLog (LMetadataFetchError videoId error) ;;
       throw error).

Definition storeAnalysis (videoId : string) (analysis : AnalysisResult) : M unit :=
  try_catch
    (ensure_pool ;;
     pool_query InsertAnalysis
       (insert_analysis
          (Some videoId)
          (AnalysisResult.video_type analysis)
          (AnalysisResult.name analysis)
          (AnalysisResult.age analysis)
          (AnalysisResult.sex analysis)
          (AnalysisResult.location analysis)
          (stringify_or_null (AnalysisResult.symptoms analysis))
          (stringify_or_null (AnalysisResult.medicalHistoryOfPatient analysis))
          (stringify_or_null (AnalysisResult.familyMedicalHistory analysis))
          (stringify_or_null (AnalysisResult.challengesFacedDuringDiagnosis analysis))
          (AnalysisResult.key_opinion analysis)) ;;
     safeLog (LAnalysisStored videoId))
    (fun error =>
       safeLog (LAnalysisStoreError videoId error) ;;
       throw error).

Definition getAllVideoIds : M (list string) :=
  try_catch
    (ensure_pool ;;
     result <- pool_query SelectVideoIds select_video_ids ;;
     ret (map Videos.video_id result))
    (fun error =>
       safeLog (LVideoIdsFetchError error) ;;
       throw error).

(* ------------------------------------------------------------------ *)
(** ** bin/youtube-fetcher.ts *)

Record Options : Type := mkOptions {
  disease : option string;
  maxResults : option number;
  outputFile : option string;
  videoIdsFile : option string;
  videoId : option string
}.

(** The [for (let i = 0; i < args.length; i++)] loop over the arguments: a
    flag takes effect only when an argument follows it ([i + 1 <
    args.length]), and then that argument is skipped. *)
Fixpoint parseArgs (args : list string) (options : Options) : Options :=
  match args with
  | [] => options
  | arg :: rest =>
      match rest with
      | [] => options
      | value :: rest' =>
          if arg =? "--disease" then
            parseArgs rest' (mkOptions (Some value) (maxResults options)
                               (outputFile options) (videoIdsFile options)
                               (videoId options))
          else if arg =? "--max-results" then
            parseArgs rest' (mkOptions (disease options)
                               (Some (parseInt10 E value))
                               (outputFile options) (videoIdsFile options)
                               (videoId options))
          else if arg =? "--output-file" then
            parseArgs rest' (mkOptions (disease options) (maxResults options)
                               (Some value) (videoIdsFile options)
                               (videoId options))
          else if arg =? "--video-ids-file" then
            parseArgs rest' (mkOptions (disease options) (maxResults options)
                               (outputFile options) (Some value)
                               (videoId options))
          else if arg =? "--video-id" then
            parseArgs rest' (mkOptions (disease options) (maxResults options)
                               (outputFile options) (videoIdsFile options)
                               (Some value))
          else parseArgs rest options
      end
  end.

(** [new (await import("../lib/youtube-service")).YouTubeService(...)] *)
Definition newYouTubeService : M unit :=
  match youtubeService_error E with
  | Some e => throw e
  | None => ret tt
  end.

(** [youtubeService.getVideoDetails(videoId)] *)
Definition fetchVideoDetails (vid : string) : M (option VideoMetadata) :=
  emit (EvGetVideoDetails vid) ;;
  match getVideoDetails E vid with
  | inl e => throw e
  | inr video => ret video
  end.

(** [searchDiseaseVideos(disease, { maxResults })] *)
Definition fetchDiseaseVideos (d : option string) (n : number)
  : M (list VideoMetadata) :=
  emit (EvSearch d n) ;;
  match searchDiseaseVideos E d n with
  | inl e => throw e
  | inr videos => ret videos
  end.

(** [await fs.writeFile(path, content)] *)
Definition writeFile (path : string) (content : FileContent) : M unit :=
  emit (EvWriteFile path content) ;;
  match writeFile_error E path with
  | Some e => throw e
  | None => ret tt
  end.

(** [process.stdout.write(JSON.stringify(data) + "\n")].  The call itself
    does not throw: a write that fails is reported by the stream
    afterwards, as an ['error'] event. *)
Definition stdout_write (data : VideoMetadata) : M unit :=
  fun w =>
    (Ok tt, mkWorld (pool w) (db w) (attempts w) (queries w) (S (written w))
                    (trace w ++ [EvStdout data])).

(** One of the writes to standard output numbered from [n] up to, and not
    including, [n'] fails. *)
Definition stream_error (n n' : nat) : bool :=
  existsb (fun i => match stdout_error E i with
                    | Some _ => true
                    | None => false
                    end)
          (seq n (n' - n)).

(** [if (o) { body o }] for a string that may be missing. *)
Definition if_given (o : option string) (body : string -> M unit) : M unit :=
  match o with
  | Some s => if truthy_string s then body s else ret tt
  | None => ret tt
  end.

Definition given (o : option string) : bool := truthy_opt truthy_string o.

(** The first loop over the fetched records: [outputData.push(video)], then
    the log line. *)
Fixpoint collect (videos outputData : list VideoMetadata)
  : M (list VideoMetadata) :=
  match videos with
  | [] => ret outputData
  | video :: rest =>
      let outputData := (outputData ++ [video])%list in
      try_catch
        (safeLog (LProcessed (VideoMetadata.id video)))
        (fun error => safeLog (LProcessError (VideoMetadata.id video) error)) ;;
      collect rest outputData
  end.

(** The fetch phase. *)
Definition fetch (options : Options) : M (list VideoMetadata) :=
  let search :=
    videos <- fetchDiseaseVideos (disease options)
                (or_else truthy_number (maxResults options) (Num 1000)) ;;
    safeLog (LFound (length videos) (disease options)) ;;
    ret videos in
  match videoId options with
  | Some vid =>
      if truthy_string vid then
        newYouTubeService ;;
        video <- fetchVideoDetails vid ;;
        match video with
        | Some video => ret [video]
        | None => safeLog (LNoMetadata vid) ;; exit 1
        end
      else search
  | None => search
  end.

(** The store phase. *)
Definition store (outputData : list VideoMetadata) : M unit :=
  for_of outputData (fun video =>
    try_catch
      (storeVideo video ;;
       safeLog (LStoredInDatabase (VideoMetadata.id video)))
      (fun error =>
         safeLog (LStoreInDatabaseError (VideoMetadata.id video) error))).

(** The output phase. *)
Definition output (options : Options) (outputData : list VideoMetadata) : M unit :=
  if_given (outputFile options) (fun path =>
    writeFile path (MetadataArray outputData) ;;
    safeLog (LWroteMetadata path)) ;;
  if_given (videoIdsFile options) (fun path =>
    let videoIds := map VideoMetadata.id outputData in
    writeFile path (IdArray videoIds) ;;
    safeLog (LWroteIds (length videoIds) path)) ;;
  when (negb (given (outputFile options)) && negb (given (videoIdsFile options)))
    (for_of outputData (fun data =>
       try_catch
         (stdout_write data ;;
          safeLog (LWroteStdout (VideoMetadata.id data) (VideoMetadata.title data)))
         (fun error =>
            if code_differs error "EPIPE" then
              safeLog (LStdoutError (message error))
            else safeLog LBrokenPipe))).

Definition main (args : list string) : M unit :=
  let options := parseArgs args (mkOptions None None None None None) in
  when (negb (given (disease options)) && negb (given (videoId options)))
    (safeLog LUsageDisease ;;
     safeLog LUsageVideoId ;;
     exit 1) ;;
  try_catch
    (initializeDatabase ;;
     videos <- fetch options ;;
     outputData <- collect videos [] ;;
     when (length outputData =? 0)%nat
       (safeLog LNoVideos ;;
        exit 1) ;;
     store outputData ;;
     output options outputData)
    (fun error =>
       safeLog (LFatal error) ;;
       exit 1).

(** [main().catch(...)], and the status the process ends with: the one
    given to [process.exit]; or, when [main] runs to its end, 1 if a write
    to standard output has failed, since nothing listens to the ['error']
    event of the stream and the process ends on the uncaught error, and 0
    otherwise. *)
Definition youtube_fetcher (args : list string) (w : World) : Z * World :=
  match try_catch (main args)
          (fun error => safeLog (LUnhandled error) ;; exit 1) w with
  | (Ok _, w') =>
      (if stream_error (written w) (written w') then 1%Z else 0%Z, w')
  | (Exit c, w') => (c, w')
  | (Throw _, w') => (1%Z, w')
  end.

End Program.


(* ------------------------------------------------------------------ *)
(** ** Properties of worlds and computations *)

(** What a computation may do to the world, whatever its outcome: [R]
    relates the world before to the world after. *)
Definition steps (R : World -> World -> Prop) {A : Type} (m : M A) : Prop :=
  forall w, R w (snd (m w)).

(** A computation that never ends the process. *)
Definition returns_or_throws {A : Type} (m : M A) : Prop :=
  forall w c, fst (m w) <> Exit c.

(** The two databases hold the same rows. *)
Definition same_rows (d d' : Db) : Prop :=
  rows (videos d) = rows (videos d') /\
  rows (transcripts d) = rows (transcripts d') /\
  rows (analysis d) = rows (analysis d').

Definition video_ids (d : Db) : list string :=
  map Videos.video_id (rows (videos d)).

(** The key under which the tables hold an identifier that they accept:
    its first 255 characters, which is the identifier itself unless it is
    longer. *)
Definition video_key (id : string) : string := first_chars 255 id.

(** What the schema promises of the rows: the primary key of [videos], and
    the two references to it. *)
Definition wf_db (d : Db) : Prop :=
  NoDup (video_ids d) /\
  (forall r, In r (rows (transcripts d)) ->
             has_video (Transcripts.video_id r) d = true) /\
  (forall r, In r (rows (analysis d)) ->
             has_video (Analysis.video_id r) d = true).

(** The row that [storeVideo] proposes for a record. *)
Definition metadata_row (E : Env) (m : VideoMetadata) : Error + Videos.row :=
  videos_row E
    (Some (VideoMetadata.id m))
    (VideoMetadata.title m)
    (VideoMetadata.description m)
    (or_null truthy_string (VideoMetadata.publishedDate m))
    (or_null truthy_number (VideoMetadata.durationInSeconds m))
    (Some (watch_url (VideoMetadata.id m))).

(** A valid record, one that the [videos] table takes as it is: the
    identifier has at most 255 characters, there is a title, no text holds
    the character U+0000, a date that is given and not empty reads as a
    timestamp, and a duration that is given and neither zero nor [NaN] is
    an integer of four bytes. *)
Definition valid_metadata (E : Env) (m : VideoMetadata) : bool :=
  (char_length (VideoMetadata.id m) <=? 255)%nat
  && negb (has_nul (VideoMetadata.id m))
  && match VideoMetadata.title m with
     | Some title => negb (has_nul title)
     | None => false
     end
  && match VideoMetadata.description m with
     | Some description => negb (has_nul description)
     | None => true
     end
  && match VideoMetadata.publishedDate m with
     | Some s =>
         negb (truthy_string s) || (negb (has_nul s) && timestamp_ok E s)
     | None => true
     end
  && match VideoMetadata.durationInSeconds m with
     | Some (Num z) =>
         (z =? 0)%Z || ((-2147483648 <=? z) && (z <=? 2147483647))%Z
     | Some NaN => true
     | Some (Infinity _) => false
     | None => true
     end.

(** An environment in which the database always answers. *)
Definition reliable (E : Env) : Prop :=
  (forall n, connect_error E n = None) /\ (forall n, query_error E n = None).

(** The three tables are there. *)
Definition has_tables (d : Db) : Prop :=
  videos d <> None /\ transcripts d <> None /\ analysis d <> None.

(** Once there is a pool, the tables are there. *)
Definition ready (w : World) : Prop :=
  pool w <> None -> has_tables (db w).

(** There is a pool and the tables are there. *)
Definition established (w : World) : Prop :=
  pool w <> None /\ has_tables (db w).

Definition stays_established (w w' : World) : Prop :=
  established w -> established w'.

(** A statement that drops no table. *)
Definition keeps_tables {A : Type} (stmt : Statement A) : Prop :=
  forall d, has_tables d -> has_tables (snd (stmt d)).

(** The sequence is ahead of every [transcript_id] handed out. *)
Definition seq_bound (d : Db) : Prop :=
  forall r, In r (rows (transcripts d)) ->
            (Transcripts.transcript_id r <= transcripts_seq d)%Z.

Definition keeps_seq_bound (w w' : World) : Prop :=
  seq_bound (db w) -> seq_bound (db w').

Definition keeps_seq {A : Type} (stmt : Statement A) : Prop :=
  forall d, seq_bound d -> seq_bound (snd (stmt d)).

(** The calls a client of [lib/database.ts] can make, and the world they
    leave behind whatever their outcome. *)
Inductive Call : Type :=
| CallInitializeDatabase
| CallStoreVideo (metadata : VideoMetadata)
| CallStoreTranscript (videoId : string) (transcript language : option string)
| CallGetTranscript (videoId : string)
| CallGetVideoMetadata (videoId : string)
| CallStoreAnalysis (videoId : string) (analysis : AnalysisResult)
| CallGetAllVideoIds.

Definition call (E : Env) (c : Call) (w : World) : World :=
  match c with
  | CallInitializeDatabase => snd (initializeDatabase E w)
  | CallStoreVideo metadata => snd (storeVideo E metadata w)
  | CallStoreTranscript videoId transcript language =>
      snd (storeTranscript E videoId transcript language w)
  | CallGetTranscript videoId => snd (getTranscript E videoId w)
  | CallGetVideoMetadata videoId => snd (getVideoMetadata E videoId w)
  | CallStoreAnalysis videoId analysis => snd (storeAnalysis E videoId analysis w)
  | CallGetAllVideoIds => snd (getAllVideoIds E w)
  end.

Definition history (E : Env) (cs : list Call) (w : World) : World :=
  fold_left (fun w c => call E c w) cs w.

(** The events of the fetch service. *)
Definition is_search (e : Event) : bool :=
  match e with
  | EvSearch _ _ => true
  | _ => false
  end.

Definition is_details (e : Event) : bool :=
  match e with
  | EvGetVideoDetails _ => true
  | _ => false
  end.

Definition no_fetch (e : Event) : bool :=
  negb (is_search e) && negb (is_details e).

Definition is_log (e : Event) : bool :=
  match e with
  | EvLog _ => true
  | _ => false
  end.

(** The events of making a connection: the attempts and the waits between
    them. *)
Definition is_connecting (e : Event) : bool :=
  match e with
  | EvConnect _ => true
  | EvSleep _ => true
  | _ => false
  end.

Definition not_connecting (e : Event) : bool := negb (is_connecting e).

(** [k] connection attempts numbered from [n], with [ms] milliseconds of
    sleep between one and the next. *)
Fixpoint attempts_apart (ms : Z) (k n : nat) : list Event :=
  match k with
  | O => []
  | S O => [EvConnect n]
  | S k' => EvConnect n :: EvSleep ms :: attempts_apart ms k' (S n)
  end.

(** The relations used with [steps]. *)

(** Only events that satisfy [P] are added. *)
Definition adds (P : Event -> bool) (w w' : World) : Prop :=
  exists evs, trace w' = (trace w ++ evs)%list /\ forallb P evs = true.

(** No row is added, changed or removed. *)
Definition keeps_rows (w w' : World) : Prop := same_rows (db w) (db w').

(** A statement that leaves the rows alone. *)
Definition quiet {A : Type} (stmt : Statement A) : Prop :=
  forall d, same_rows d (snd (stmt d)).

(** A computation that returns, leaves the database alone and only adds to
    the trace. *)
Definition completes (m : M unit) : Prop :=
  forall w, exists w' evs,
    m w = (Ok tt, w') /\ db w' = db w /\ trace w' = (trace w ++ evs)%list.

(** The module variable [pool] is what it was. *)
Definition pool_kept (w w' : World) : Prop := pool w' = pool w.

(* ------------------------------------------------------------------ *)
(** ** Sample surroundings and records *)

(** [parseInt(_, 10)].  White space at the front is passed over, then a
    sign is read if there is one, then the decimal digits up to the first
    byte that is none; without a digit the result is [NaN].  The result is
    the double nearest to the integer read, which is that integer below
    2^53 and an infinity from 2^1024 on. *)
Definition white_space_1 (b : nat) : bool :=
  ((9 <=? b) && (b <=? 13) || (b =? 32))%nat.

Definition white_space_2 (b1 b2 : nat) : bool :=
  ((b1 =? 194) && (b2 =? 160))%nat.

Definition white_space_3 (b1 b2 b3 : nat) : bool :=
  ((b1 =? 225) && (b2 =? 154) && (b3 =? 128)
   || (b1 =? 226) && (b2 =? 128)
      && ((128 <=? b3) && (b3 <=? 138) || (b3 =? 168) || (b3 =? 169)
          || (b3 =? 175))
   || (b1 =? 226) && (b2 =? 129) && (b3 =? 159)
   || (b1 =? 227) && (b2 =? 128) && (b3 =? 128)
   || (b1 =? 239) && (b2 =? 187) && (b3 =? 191))%nat.

Fixpoint skip_white_space (s : string) : string :=
  match s with
  | EmptyString => s
  | String c1 rest1 =>
      if white_space_1 (nat_of_ascii c1) then skip_white_space rest1
      else
        match rest1 with
        | EmptyString => s
        | String c2 rest2 =>
            if white_space_2 (nat_of_ascii c1) (nat_of_ascii c2)
            then skip_white_space rest2
            else
              match rest2 with
              | EmptyString => s
              | String c3 rest3 =>
                  if white_space_3 (nat_of_ascii c1) (nat_of_ascii c2)
                       (nat_of_ascii c3)
                  then skip_white_space rest3
                  else s
              end
        end
  end.

(** The decimal digits a string starts with, as an integer. *)
Fixpoint leading_digits (s : string) (acc : option Z) : option Z :=
  match s with
  | EmptyString => acc
  | String c rest =>
      let n := Z.of_nat (nat_of_ascii c) in
      if ((48 <=? n) && (n <=? 57))%Z then
        leading_digits rest
          (Some (10 * match acc with Some a => a | None => 0 end + (n - 48))%Z)
      else acc
  end.

(** The double nearest to plus or minus [n], for [n] not negative: 53
    bits are kept, and a tie goes to the even one. *)
Definition nearest_double (negative : bool) (n : Z) : number :=
  let signed z := if negative then (- z)%Z else z in
  if (n <? 2 ^ 53)%Z then Num (signed n)
  else
    let shift := (Z.log2 n - 52)%Z in
    let q := Z.shiftr n shift in
    let r := (n - Z.shiftl q shift)%Z in
    let half := Z.shiftl 1 (shift - 1) in
    let q' := if (half <? r)%Z || ((r =? half)%Z && Z.odd q)
              then (q + 1)%Z else q in
    let m := Z.shiftl q' shift in
    if (2 ^ 1024 <=? m)%Z then Infinity negative else Num (signed m).

Definition parse_int (s : string) : number :=
  let s := skip_white_space s in
  let (negative, digits) :=
    match s with
    | String c rest =>
        if (nat_of_ascii c =? 45)%nat then (true, rest)
        else if (nat_of_ascii c =? 43)%nat then (false, rest)
        else (false, s)
    | EmptyString => (false, s)
    end in
  match leading_digits digits None with
  | Some n => nearest_double negative n
  | None => NaN
  end.

Definition clip (vid title : string) : VideoMetadata :=
  VideoMetadata.mk vid (Some title) (Some "A patient tells her story.")
    (Some "2024-01-15T10:00:00Z") (Some (Num 754)) (Some (Num 1200))
    (Some ("https://www.youtube.com/watch?v=" ++ vid)).

(** A record for the same video with an empty published date, a duration
    of 0 and a URL of its own. *)
Definition bare : VideoMetadata :=
  VideoMetadata.mk "a1" (Some "Second take") None (Some "") (Some (Num 0))
    (Some (Num 1200)) (Some "https://example.org/a1").

(** A text that a VARCHAR(n) column takes: it holds no character U+0000
    and nothing but spaces after its first [n] characters. *)
Definition fits (n : nat) (s : string) : bool :=
  negb (has_nul s) && all_spaces (after_chars n s).

(** A value that a TEXT column takes, and one that a JSONB column takes
    once it is serialised. *)
Definition text_fits (p : option string) : bool :=
  match p with
  | Some s => negb (has_nul s)
  | None => true
  end.

Definition json_fits (p : option Json) : bool :=
  match stringify_or_null p with
  | Some j => negb (json_has_nul j)
  | None => true
  end.

(** An analysis whose ten values fit their columns. *)
Definition analysis_fits (a : AnalysisResult) : bool :=
  text_fits (AnalysisResult.video_type a)
  && text_fits (AnalysisResult.name a)
  && text_fits (AnalysisResult.age a)
  && text_fits (AnalysisResult.sex a)
  && text_fits (AnalysisResult.location a)
  && json_fits (AnalysisResult.symptoms a)
  && json_fits (AnalysisResult.medicalHistoryOfPatient a)
  && json_fits (AnalysisResult.familyMedicalHistory a)
  && json_fits (AnalysisResult.challengesFacedDuringDiagnosis a)
  && text_fits (AnalysisResult.key_opinion a).

(** An identifier of 255 characters. *)
Definition long_id : string :=
  string_of_list_ascii (repeat "a"%char 255).

(** A record whose duration does not fit the INTEGER column. *)
Definition endless : VideoMetadata :=
  VideoMetadata.mk "c3" (Some "Third") None None (Some (Num 3000000000))
    None None.

Definition told : AnalysisResult :=
  AnalysisResult.mk (Some "patient story") (Some "Maya") (Some "34") None None
    (Some (JArr [JStr "fatigue"; JStr "joint pain"])) (Some (JArr []))
    None (Some (JStr "")) (Some "Ask for a second opinion.").

(** Everything answers; the service knows three videos about any disease
    and every single video it is asked for. *)
Definition calm : Env :=
  mkEnv (fun _ => None) (fun _ => None) (fun _ => true) parse_int None
        (fun vid => inr (Some (clip vid "One video")))
        (fun _ _ => inr [clip "a1" "First"; clip "b2" "Second"; clip "c3" "Third"])
        (fun _ => None) (fun _ => None).

(** As [calm], but the fifth statement sent over the pool is lost. *)
Definition fifth_statement_lost : Env :=
  mkEnv (fun _ => None)
        (fun n => if (n =? 4)%nat then Some "Connection terminated unexpectedly"
                  else None)
        (fun _ => true) parse_int None
        (fun vid => inr (Some (clip vid "One video")))
        (fun _ _ => inr [clip "a1" "First"; clip "b2" "Second"; clip "c3" "Third"])
        (fun _ => None) (fun _ => None).

(** The database refuses the first four connection attempts. *)
Definition slow_start : Env :=
  mkEnv (fun n => if (n <? 4)%nat then Some "ECONNREFUSED" else None)
        (fun _ => None) (fun _ => true) parse_int None
        (fun vid => inr (Some (clip vid "One video")))
        (fun _ _ => inr [])
        (fun _ => None) (fun _ => None).

(** What [getVideoMetadata] makes of a row: the date as the driver
    delivers it, the empty text for a date that is NULL, 0 for a length
    that is NULL or 0, and 0 views. *)
Definition read_row (row : Videos.row) : ReadMetadata :=
  ReadMetadata.mk
    (Videos.video_id row) (Videos.title row) (Videos.description row)
    match Videos.published_date row with
    | Some literal => DateOf literal
    | None => TextOf ""
    end
    match Videos.duration_seconds row with
    | Some z => Num z
    | None => Num 0
    end
    (Num 0) (Videos.url row).


(* ------------------------------------------------------------------ *)
(** ** Further properties of worlds and computations *)

(** The last event of the trace is the log line [l]. *)
Definition logged_last (l : LogMsg) (w : World) : Prop :=
  exists tr, trace w = (tr ++ [EvLog l])%list.

Definition transcript_video_ids (d : Db) : list string :=
  map Transcripts.video_id (rows (transcripts d)).

Definition transcript_ids (d : Db) : list Z :=
  map Transcripts.transcript_id (rows (transcripts d)).

Definition analysis_video_ids (d : Db) : list string :=
  map Analysis.video_id (rows (analysis d)).

(** The keys of the two dependent tables: [transcript_id SERIAL PRIMARY
    KEY], [video_id ... UNIQUE] and the primary key of [analysis]. *)
Definition keys_unique (d : Db) : Prop :=
  NoDup (transcript_video_ids d) /\
  NoDup (transcript_ids d) /\
  NoDup (analysis_video_ids d).

Definition keeps_keys_unique (w w' : World) : Prop :=
  keys_unique (db w) -> keys_unique (db w').

Definition keeps_unique {A : Type} (stmt : Statement A) : Prop :=
  forall d, keys_unique d -> keys_unique (snd (stmt d)).

(** [language: string = 'en'], the default of the third parameter of
    [storeTranscript]. *)
Definition language_given (language : option string) : string :=
  match language with
  | Some l => l
  | None => "en"
  end.

(** The row was written by one of the calls [cs]: it holds the text of
    the call, and the identifier and the language of the call as their
    columns keep them. *)
Definition transcript_stored_by (cs : list Call) (r : Transcripts.row) : Prop :=
  exists v l,
    In (CallStoreTranscript v (Some (Transcripts.full_transcript r)) l) cs /\
    Transcripts.video_id r = video_key v /\
    Transcripts.language r = first_chars 10 (language_given l).

(** A record whose values the columns of [videos] take: an identifier
    that fits VARCHAR(255), a title, no text with the character U+0000, a
    published date that is missing, empty or reads as a timestamp, and a
    duration that is missing, NaN or fits INTEGER. *)
Definition video_fits (E : Env) (m : VideoMetadata) : bool :=
  fits 255 (VideoMetadata.id m)
  && match VideoMetadata.title m with
     | Some title => negb (has_nul title)
     | None => false
     end
  && text_fits (VideoMetadata.description m)
  && match VideoMetadata.publishedDate m with
     | Some s => (s =? "") || (negb (has_nul s) && timestamp_ok E s)
     | None => true
     end
  && match VideoMetadata.durationInSeconds m with
     | Some (Num z) => ((-2147483648 <=? z) && (z <=? 2147483647))%Z
     | Some NaN => true
     | Some (Infinity _) => false
     | None => true
     end.

(** The module's pool and the count of connection attempts are what they
    were. *)
Definition connection_kept (w w' : World) : Prop :=
  pool w' = pool w /\ attempts w' = attempts w.

(** The count of the writes to standard output is what it was. *)
Definition keeps_written (w w' : World) : Prop := written w' = written w.

(** As [calm], but standard output is closed: every write to it fails. *)
Definition stdout_closed : Env :=
  mkEnv (fun _ => None) (fun _ => None) (fun _ => true) parse_int None
        (fun vid => inr (Some (clip vid "One video")))
        (fun _ _ => inr [clip "a1" "First"; clip "b2" "Second"; clip "c3" "Third"])
        (fun _ => None) (fun _ => Some (IoError "EPIPE" "write EPIPE")).

(** As [calm], but the first statement sent over the pool, the one that
    creates [videos], is lost. *)
Definition first_statement_lost : Env :=
  mkEnv (fun _ => None)
        (fun n => if (n =? 0)%nat then Some "Connection terminated unexpectedly"
                  else None)
        (fun _ => true) parse_int None
        (fun vid => inr (Some (clip vid "One video")))
        (fun _ _ => inr [clip "a1" "First"; clip "b2" "Second"; clip "c3" "Third"])
        (fun _ => None) (fun _ => None).

(* ------------------------------------------------------------------ *)
(** ** The command line, read as flags and values *)

(** The five flags that [main] knows. *)
Inductive Flag : Type :=
| FlagDisease
| FlagMaxResults
| FlagOutputFile
| FlagVideoIdsFile
| FlagVideoId.

Definition flag_name (f : Flag) : string :=
  match f with
  | FlagDisease => "--disease"
  | FlagMaxResults => "--max-results"
  | FlagOutputFile => "--output-file"
  | FlagVideoIdsFile => "--video-ids-file"
  | FlagVideoId => "--video-id"
  end.

(** The assignment that a flag makes with the argument after it. *)
Definition set_option (E : Env) (options : Options) (fv : Flag * string)
  : Options :=
  match fst fv with
  | FlagDisease =>
      mkOptions (Some (snd fv)) (maxResults options) (outputFile options)
        (videoIdsFile options) (videoId options)
  | FlagMaxResults =>
      mkOptions (disease options) (Some (parseInt10 E (snd fv)))
        (outputFile options) (videoIdsFile options) (videoId options)
  | FlagOutputFile =>
      mkOptions (disease options) (maxResults options) (Some (snd fv))
        (videoIdsFile options) (videoId options)
  | FlagVideoIdsFile =>
      mkOptions (disease options) (maxResults options) (outputFile options)
        (Some (snd fv)) (videoId options)
  | FlagVideoId =>
      mkOptions (disease options) (maxResults options) (outputFile options)
        (videoIdsFile options) (Some (snd fv))
  end.

(** The arguments that spell a list of flags, each with its value. *)
Definition command_line (pairs : list (Flag * string)) : list string :=
  flat_map (fun fv => [flag_name (fst fv); snd fv]) pairs.

(** [const options: Options = {}] *)
Definition no_options : Options := mkOptions None None None None None.

(* ------------------------------------------------------------------ *)
(** ** What a run depends on *)

(** The records that the fetch phase obtains from the service: the one
    video asked for (none when the service knows no such video), once the
    service is made, or else what the search finds. *)
Definition fetched (E : Env) (options : Options) : Error + list VideoMetadata :=
  let found :=
    searchDiseaseVideos E (disease options)
      (or_else truthy_number (maxResults options) (Num 1000)) in
  match videoId options with
  | Some vid =>
      if truthy_string vid then
        match youtubeService_error E with
        | Some e => inl e
        | None =>
            match getVideoDetails E vid with
            | inl e => inl e
            | inr (Some video) => inr [video]
            | inr None => inr []
            end
        end
      else found
  | None => found
  end.

(** The file named by an option can be written, or none is named. *)
Definition file_written (E : Env) (o : option string) : bool :=
  match o with
  | Some path =>
      if truthy_string path then
        match writeFile_error E path with
        | None => true
        | Some _ => false
        end
      else true
  | None => true
  end.

(** Two worlds that the database layer cannot tell apart: the same pool,
    the same database and the same counts of connection attempts and of
    statements; the trace and the count of output lines are free. *)
Definition same_connection (w w' : World) : Prop :=
  pool w = pool w' /\ db w = db w' /\
  attempts w = attempts w' /\ queries w = queries w'.

(** A computation that takes the same course in worlds that the database
    layer cannot tell apart, and leaves such worlds. *)
Definition blind {A : Type} (m : M A) : Prop :=
  forall w w',
    same_connection w w' ->
    fst (m w) = fst (m w') /\ same_connection (snd (m w)) (snd (m w')).

(** What a run asks of [lib/database.ts]: nothing when the arguments are
    refused, and otherwise [initializeDatabase] and then, when that
    returned and the fetch returned records, [storeVideo] for each of them
    in order. *)
Definition database_calls (E : Env) (args : list string) (w : World)
  : list Call :=
  let options := parseArgs E args no_options in
  if negb (given (disease options)) && negb (given (videoId options)) then []
  else
    CallInitializeDatabase ::
    match fst (initializeDatabase E w), fetched E options with
    | Ok _, inr videos => map CallStoreVideo videos
    | _, _ => []
    end.

(** The events of the output phase. *)
Definition is_write (e : Event) : bool :=
  match e with
  | EvWriteFile _ _ => true
  | _ => false
  end.

Definition is_stdout (e : Event) : bool :=
  match e with
  | EvStdout _ => true
  | _ => false
  end.

(** The write that an option asks for. *)
Definition file_events (o : option string) (content : FileContent) : list Event :=
  match o with
  | Some path => if truthy_string path then [EvWriteFile path content] else []
  | None => []
  end.
(* ------------------------------------------------------------------ *)
(** ** Reasoning about computations *)

(** The rules of [steps], for a relation that is closed under doing
    nothing and under sequencing. *)
Section Steps.

Variable R : World -> World -> Prop.
Hypothesis R_refl : forall w, R w w.
Hypothesis R_trans : forall w1 w2 w3, R w1 w2 -> R w2 w3 -> R w1 w3.

Lemma steps_ret {A : Type} (a : A) : steps R (ret a).
Proof. intros w. apply R_refl. Qed.

Lemma steps_throw {A : Type} (e : Error) : steps R (@throw A e).
Proof. intros w. apply R_refl. Qed.

Lemma steps_exit {A : Type} (c : Z) : steps R (@exit A c).
Proof. intros w. apply R_refl. Qed.

Lemma steps_get_pool : steps R get_pool.
Proof. intros w. apply R_refl. Qed.

Lemma steps_bind {A B : Type} (m : M A) (k : A -> M B) :
  steps R m -> (forall a, steps R (k a)) -> steps R (bind m k).
Proof.
  intros Hm Hk w. unfold bind.
  specialize (Hm w). destruct (m w) as [[a | e | c] w1]; simpl in *; auto.
  eapply R_trans; [exact Hm | apply Hk].
Qed.

Lemma steps_try_catch {A : Type} (m : M A) (h : Error -> M A) :
  steps R m -> (forall e, steps R (h e)) -> steps R (try_catch m h).
Proof.
  intros Hm Hh w. unfold try_catch.
  specialize (Hm w). destruct (m w) as [[a | e | c] w1]; simpl in *; auto.
  eapply R_trans; [exact Hm | apply Hh].
Qed.

Lemma steps_when (c : bool) (m : M unit) : steps R m -> steps R (when c m).
Proof. intros Hm. destruct c; simpl; [exact Hm | apply steps_ret]. Qed.

Lemma steps_for_of {A : Type} (xs : list A) (body : A -> M unit) :
  (forall x, steps R (body x)) -> steps R (for_of xs body).
Proof.
  intros Hb. induction xs as [| x xs IH]; simpl.
  - apply steps_ret.
  - apply steps_bind; auto.
Qed.

Lemma steps_if_given (o : option string) (body : string -> M unit) :
  (forall s, steps R (body s)) -> steps R (if_given o body).
Proof.
  intros Hb. destruct o as [s |]; simpl; [| apply steps_ret].
  destruct (truthy_string s); [apply Hb | apply steps_ret].
Qed.

End Steps.

Lemma returns_or_throws_bind {A B : Type} (m : M A) (k : A -> M B) :
  returns_or_throws m -> (forall a, returns_or_throws (k a)) ->
  returns_or_throws (bind m k).
Proof.
  intros Hm Hk w c. unfold bind.
  specialize (Hm w). destruct (m w) as [[a | e | c'] w1]; simpl in *.
  - apply Hk.
  - discriminate.
  - exfalso. apply (Hm c'). reflexivity.
Qed.

Lemma returns_or_throws_try_catch {A : Type} (m : M A) (h : Error -> M A) :
  returns_or_throws m -> (forall e, returns_or_throws (h e)) ->
  returns_or_throws (try_catch m h).
Proof.
  intros Hm Hh w c. unfold try_catch.
  specialize (Hm w). destruct (m w) as [[a | e | c'] w1]; simpl in *.
  - discriminate.
  - apply Hh.
  - exfalso. apply (Hm c'). reflexivity.
Qed.

(* ------------------------------------------------------------------ *)
(** ** The [videos] table *)

Lemma existsb_video_id (k : string) (t : list Videos.row) :
  existsb (fun x => Videos.video_id x =? k) t = true <->
  In k (map Videos.video_id t).
Proof.
  rewrite existsb_exists, in_map_iff. split.
  - intros [x [Hin Heq]]. apply String.eqb_eq in Heq. eauto.
  - intros [x [Heq Hin]]. exists x. split; [exact Hin |].
    apply String.eqb_eq. exact Heq.
Qed.

Lemma has_video_spec (k : string) (d : Db) :
  has_video k d = true <-> In k (video_ids d).
Proof. unfold has_video, video_ids. apply existsb_video_id. Qed.

Lemma has_video_false (k : string) (d : Db) :
  has_video k d = false <-> ~ In k (video_ids d).
Proof.
  rewrite <- has_video_spec. destruct (has_video k d); split; intros H;
    try discriminate; try reflexivity; try (intros H'; discriminate).
  exfalso. apply H. reflexivity.
Qed.

(** An update in place keeps the keys where they are. *)
Lemma update_keeps_video_ids (r : Videos.row) (t : list Videos.row) :
  map Videos.video_id
      (map (fun x =>
              if Videos.video_id x =? Videos.video_id r then
                Videos.mk (Videos.video_id x) (Videos.title r)
                          (Videos.description r) (Videos.published_date r)
                          (Videos.duration_seconds r) (Videos.url r)
              else x) t)
  = map Videos.video_id t.
Proof.
  induction t as [| x t IH]; simpl; [reflexivity |].
  rewrite IH. destruct (Videos.video_id x =? Videos.video_id r); reflexivity.
Qed.

Lemma upsert_video_ids (r : Videos.row) (t : list Videos.row) :
  map Videos.video_id (upsert_video r t) =
  if existsb (fun x => Videos.video_id x =? Videos.video_id r) t
  then map Videos.video_id t
  else (map Videos.video_id t ++ [Videos.video_id r])%list.
Proof.
  unfold upsert_video.
  destruct (existsb _ t).
  - apply update_keeps_video_ids.
  - rewrite map_app. reflexivity.
Qed.

Lemma in_upsert_video_ids (k : string) (r : Videos.row) (t : list Videos.row) :
  In k (map Videos.video_id (upsert_video r t)) <->
  In k (map Videos.video_id t) \/ k = Videos.video_id r.
Proof.
  rewrite upsert_video_ids.
  destruct (existsb _ t) eqn:Hex.
  - apply existsb_video_id in Hex. split; [auto |].
    intros [H | H]; [exact H | subst; exact Hex].
  - rewrite in_app_iff. simpl. intuition.
Qed.

Lemma NoDup_upsert_video (r : Videos.row) (t : list Videos.row) :
  NoDup (map Videos.video_id t) ->
  NoDup (map Videos.video_id (upsert_video r t)).
Proof.
  intros Hnd. rewrite upsert_video_ids.
  destruct (existsb _ t) eqn:Hex; [exact Hnd |].
  apply NoDup_app; repeat split.
  - exact Hnd.
  - constructor; [intros [] | constructor].
  - intros k Hin [Hk | []]. subst k.
    apply existsb_video_id in Hin. congruence.
Qed.

Lemma filter_video_id_absent (k : string) (t : list Videos.row) :
  ~ In k (map Videos.video_id t) ->
  filter (fun x => Videos.video_id x =? k) t = [].
Proof.
  induction t as [| x t IH]; simpl; intros Hnotin; [reflexivity |].
  destruct (Videos.video_id x =? k) eqn:Hx.
  - apply String.eqb_eq in Hx. exfalso. apply Hnotin. left. exact Hx.
  - apply IH. intros H. apply Hnotin. right. exact H.
Qed.

(** Under the primary key, the rows found under the key of an upserted row
    are that row and nothing else. *)
Lemma filter_upsert_video (r : Videos.row) (t : list Videos.row) :
  NoDup (map Videos.video_id t) ->
  filter (fun x => Videos.video_id x =? Videos.video_id r) (upsert_video r t) = [r].
Proof.
  intros Hnd. unfold upsert_video.
  destruct (existsb _ t) eqn:Hex.
  - induction t as [| x t IH]; simpl in Hex; [discriminate |].
    simpl in Hnd. apply NoDup_cons_iff in Hnd. destruct Hnd as [Hnotin Hnd'].
    rewrite map_cons.
    destruct (Videos.video_id x =? Videos.video_id r) eqn:Hx.
    + apply String.eqb_eq in Hx. cbn [filter Videos.video_id].
      rewrite Hx, String.eqb_refl. rewrite Hx in Hnotin.
      rewrite filter_video_id_absent.
      * destruct r; reflexivity.
      * rewrite update_keeps_video_ids. exact Hnotin.
    + cbn [filter]. rewrite Hx. simpl in Hex. apply IH; assumption.
  - rewrite filter_app. simpl. rewrite String.eqb_refl.
    rewrite filter_video_id_absent; [reflexivity |].
    intros H. apply existsb_video_id in H. congruence.
Qed.

(** *** Strings and columns *)

Lemma first_after_chars (n : nat) (s : string) :
  first_chars n s ++ after_chars n s = s.
Proof.
  revert n. induction s as [| c s IH]; intros n; simpl; [reflexivity |].
  destruct (continuation c); simpl.
  - rewrite IH. reflexivity.
  - destruct n as [| n]; simpl; [reflexivity |]. rewrite IH. reflexivity.
Qed.

(** A string that is short enough is not cut. *)
Lemma first_chars_short (n : nat) (s : string) :
  (char_length s <= n)%nat -> first_chars n s = s /\ after_chars n s = "".
Proof.
  revert n. induction s as [| c s IH]; intros n; simpl; [auto |].
  destruct (continuation c); intros Hlen.
  - destruct (IH n Hlen) as [H1 H2]. rewrite H1, H2. auto.
  - destruct n as [| n]; [lia |].
    destruct (IH n) as [H1 H2]; [lia |]. rewrite H1, H2. auto.
Qed.

Lemma char_length_first_chars (n : nat) (s : string) :
  (char_length (first_chars n s) <= n)%nat.
Proof.
  revert n. induction s as [| c s IH]; intros n; simpl; [lia |].
  destruct (continuation c) eqn:Hc; simpl.
  - rewrite Hc. apply IH.
  - destruct n as [| n]; simpl; [lia |]. rewrite Hc.
    specialize (IH n). lia.
Qed.

(** What has been cut once is not cut again. *)
Lemma first_chars_again (n : nat) (s : string) :
  first_chars n (first_chars n s) = first_chars n s.
Proof. apply first_chars_short. apply char_length_first_chars. Qed.

Lemma after_chars_first_chars (n : nat) (s : string) :
  after_chars n (first_chars n s) = "".
Proof. apply first_chars_short. apply char_length_first_chars. Qed.

Lemma has_nul_app (s t : string) :
  has_nul (s ++ t) = has_nul s || has_nul t.
Proof.
  induction s as [| c s IH]; simpl; [reflexivity |].
  rewrite IH. apply orb_assoc.
Qed.

Lemma has_nul_first_chars (n : nat) (s : string) :
  has_nul s = false -> has_nul (first_chars n s) = false.
Proof.
  intros H. rewrite <- (first_after_chars n s), has_nul_app in H.
  apply orb_false_iff in H. tauto.
Qed.

Lemma video_key_again (id : string) : video_key (video_key id) = video_key id.
Proof. apply first_chars_again. Qed.

Lemma video_key_short (id : string) :
  (char_length id <= 255)%nat -> video_key id = id.
Proof. intros H. apply (first_chars_short 255 id H). Qed.

(** *** The checks, one by one *)

Lemma andThen_inr {A B : Type} (r : Error + A) (k : A -> Error + B) (b : B) :
  andThen r k = inr b -> exists a, r = inr a /\ k a = inr b.
Proof. destruct r as [e | a]; simpl; [discriminate | eauto]. Qed.

Lemma text_inr (s s' : string) :
  text s = inr s' -> s' = s /\ has_nul s = false.
Proof.
  unfold text. destruct (has_nul s); [discriminate |].
  intros H. inversion H. auto.
Qed.

Lemma nullable_text_inr (p q : option string) :
  nullable text p = inr q ->
  q = p /\ forall s, p = Some s -> has_nul s = false.
Proof.
  unfold nullable. destruct p as [s |].
  - destruct (text s) as [e | s'] eqn:Hs; [discriminate |].
    apply text_inr in Hs. destruct Hs as [Hs Hn]. subst s'.
    intros H. inversion H. split; [reflexivity |].
    intros s0 H0. inversion H0. subst. exact Hn.
  - intros H. inversion H. split; [reflexivity | discriminate].
Qed.

Lemma varchar_inr (n : nat) (s s' : string) :
  varchar n s = inr s' ->
  s' = first_chars n s /\ all_spaces (after_chars n s) = true.
Proof.
  unfold varchar. destruct (all_spaces (after_chars n s)); [| discriminate].
  intros H. inversion H. auto.
Qed.

Lemma nullable_varchar_inr (n : nat) (p q : option string) :
  nullable (varchar n) p = inr q ->
  q = option_map (first_chars n) p /\
  forall s, p = Some s -> all_spaces (after_chars n s) = true.
Proof.
  unfold nullable. destruct p as [s |].
  - destruct (varchar n s) as [e | s'] eqn:Hs; [discriminate |].
    apply varchar_inr in Hs. destruct Hs as [Hs Hn]. subst s'.
    intros H. inversion H. split; [reflexivity |].
    intros s0 H0. inversion H0. subst. exact Hn.
  - intros H. inversion H. split; [reflexivity | discriminate].
Qed.

Lemma not_null_inr {A : Type} (column : string) (p : option A) (a : A) :
  not_null column p = inr a -> p = Some a.
Proof. destruct p; simpl; intros H; inversion H. reflexivity. Qed.

Lemma nullable_timestamp_inr (E : Env) (p q : option string) :
  nullable (timestamp E) p = inr q ->
  q = p /\ forall s, p = Some s -> has_nul s = false /\ timestamp_ok E s = true.
Proof.
  unfold nullable, timestamp. destruct p as [s |].
  - destruct (has_nul s) eqn:Hn; [discriminate |].
    destruct (timestamp_ok E s) eqn:Ht; [| discriminate].
    intros H. inversion H. split; [reflexivity |].
    intros s0 H0. inversion H0. subst. auto.
  - intros H. inversion H. split; [reflexivity | discriminate].
Qed.

Lemma nullable_int4_inr (p : option number) (q : option Z) :
  nullable int4 p = inr q ->
  option_map Num q = p /\
  forall z, q = Some z -> ((-2147483648 <=? z) && (z <=? 2147483647))%Z = true.
Proof.
  unfold nullable, int4. destruct p as [[| z | neg] |]; try discriminate.
  - destruct ((-2147483648 <=? z) && (z <=? 2147483647))%Z eqn:Hz.
    + intros H. inversion H. split; [reflexivity |].
      intros z0 H0. inversion H0. subst. exact Hz.
    + destruct (Z.abs z <? 10 ^ 21)%Z; discriminate.
  - intros H. inversion H. split; [reflexivity | discriminate].
Qed.

Lemma jsonb_inr (j j' : Json) :
  jsonb j = inr j' -> j' = j /\ json_has_nul j = false.
Proof.
  unfold jsonb. destruct (json_has_nul j); [discriminate |].
  intros H. inversion H. auto.
Qed.

Lemma nullable_jsonb_inr (p q : option Json) :
  nullable jsonb p = inr q ->
  q = p /\ forall j, p = Some j -> json_has_nul j = false.
Proof.
  unfold nullable. destruct p as [j |].
  - destruct (jsonb j) as [e | j'] eqn:Hj; [discriminate |].
    apply jsonb_inr in Hj. destruct Hj as [Hj Hn]. subst j'.
    intros H. inversion H. split; [reflexivity |].
    intros j0 H0. inversion H0. subst. exact Hn.
  - intros H. inversion H. split; [reflexivity | discriminate].
Qed.

(** Takes a chain of checks that succeeded apart. *)
Ltac checks H :=
  repeat
    (let a := fresh "a" in
     let Ha := fresh "Ha" in
     apply andThen_inr in H; destruct H as [a [Ha H]]).

(** What a row of [videos] that was accepted says of the six values. *)
Lemma videos_row_inr (E : Env) (p1 p2 p3 p4 : option string)
    (p5 : option number) (p6 : option string) (r : Videos.row) :
  videos_row E p1 p2 p3 p4 p5 p6 = inr r ->
  option_map (first_chars 255) p1 = Some (Videos.video_id r) /\
  p2 = Some (Videos.title r) /\
  p3 = Videos.description r /\
  p4 = Videos.published_date r /\
  p5 = option_map Num (Videos.duration_seconds r) /\
  p6 = Some (Videos.url r) /\
  (forall s, p1 = Some s ->
             has_nul s = false /\ all_spaces (after_chars 255 s) = true) /\
  has_nul (Videos.title r) = false /\
  (forall s, p3 = Some s -> has_nul s = false) /\
  (forall s, p4 = Some s -> has_nul s = false /\ timestamp_ok E s = true) /\
  (forall z, Videos.duration_seconds r = Some z ->
             ((-2147483648 <=? z) && (z <=? 2147483647))%Z = true) /\
  has_nul (Videos.url r) = false.
Proof.
  unfold videos_row. intros H.
  apply andThen_inr in H. destruct H as [q1 [B1 H]].
  apply andThen_inr in H. destruct H as [q2 [B2 H]].
  apply andThen_inr in H. destruct H as [q3 [B3 H]].
  apply andThen_inr in H. destruct H as [q4 [B4 H]].
  apply andThen_inr in H. destruct H as [q5 [B5 H]].
  apply andThen_inr in H. destruct H as [q6 [B6 H]].
  apply andThen_inr in H. destruct H as [k1 [P1 H]].
  apply andThen_inr in H. destruct H as [c1 [X1 H]].
  apply andThen_inr in H. destruct H as [c2 [X2 H]].
  apply andThen_inr in H. destruct H as [c6 [X6 H]].
  inversion H; subst r; simpl. clear H.
  apply nullable_text_inr in B1. destruct B1 as [? Hn1]. subst q1.
  apply nullable_text_inr in B2. destruct B2 as [? Hn2]. subst q2.
  apply nullable_text_inr in B3. destruct B3 as [? Hn3]. subst q3.
  apply nullable_timestamp_inr in B4. destruct B4 as [? Hn4]. subst q4.
  apply nullable_int4_inr in B5. destruct B5 as [Hn5 Hr5].
  apply nullable_text_inr in B6. destruct B6 as [? Hn6]. subst q6.
  apply nullable_varchar_inr in P1. destruct P1 as [? Hv]. subst k1.
  apply not_null_inr in X1. apply not_null_inr in X2.
  apply not_null_inr in X6.
  split; [exact X1 |]. split; [exact X2 |]. split; [reflexivity |].
  split; [reflexivity |]. split; [symmetry; exact Hn5 |].
  split; [exact X6 |].
  split; [intros s Hs; split; [apply (Hn1 s Hs) | apply (Hv s Hs)] |].
  split; [apply (Hn2 c2 X2) |]. split; [exact Hn3 |]. split; [exact Hn4 |].
  split; [exact Hr5 |]. apply (Hn6 c6 X6).
Qed.

(** The proposed row, column by column. *)
Lemma metadata_row_fields (E : Env) (m : VideoMetadata) (r : Videos.row) :
  metadata_row E m = inr r ->
  Videos.video_id r = video_key (VideoMetadata.id m) /\
  VideoMetadata.title m = Some (Videos.title r) /\
  Videos.description r = VideoMetadata.description m /\
  Videos.published_date r = or_null truthy_string (VideoMetadata.publishedDate m) /\
  option_map Num (Videos.duration_seconds r)
    = or_null truthy_number (VideoMetadata.durationInSeconds m) /\
  Videos.url r = watch_url (VideoMetadata.id m).
Proof.
  unfold metadata_row. intros H. apply videos_row_inr in H.
  destruct H as [H1 [H2 [H3 [H4 [H5 [H6 _]]]]]]. simpl in H1.
  inversion H1. inversion H6. repeat split; auto.
Qed.

(** What the engine has checked of a record whose row it accepted. *)
Lemma metadata_row_checked (E : Env) (m : VideoMetadata) (r : Videos.row) :
  metadata_row E m = inr r ->
  has_nul (VideoMetadata.id m) = false /\
  all_spaces (after_chars 255 (VideoMetadata.id m)) = true /\
  has_nul (Videos.video_id r) = false /\
  (char_length (Videos.video_id r) <= 255)%nat.
Proof.
  unfold metadata_row. intros H. apply videos_row_inr in H.
  destruct H as [H1 [_ [_ [_ [_ [_ [Hid _]]]]]]]. simpl in H1.
  inversion H1. destruct (Hid _ eq_refl) as [Hn Hs].
  repeat split; auto.
  - apply has_nul_first_chars. exact Hn.
  - apply char_length_first_chars.
Qed.

(** A valid record is accepted, under its own identifier. *)
Lemma valid_metadata_row (E : Env) (m : VideoMetadata) :
  valid_metadata E m = true ->
  exists r, metadata_row E m = inr r /\
            Videos.video_id r = VideoMetadata.id m.
Proof.
  unfold valid_metadata, metadata_row, videos_row.
  destruct m as [i ti de pu du vc ur].
  cbn [VideoMetadata.id VideoMetadata.title VideoMetadata.description
       VideoMetadata.publishedDate VideoMetadata.durationInSeconds].
  intros H.
  apply andb_true_iff in H. destruct H as [H Vdu].
  apply andb_true_iff in H. destruct H as [H Vpu].
  apply andb_true_iff in H. destruct H as [H Vde].
  apply andb_true_iff in H. destruct H as [H Vti].
  apply andb_true_iff in H. destruct H as [Vlen Vid].
  apply Nat.leb_le in Vlen. destruct (first_chars_short 255 i Vlen) as [Hf Ha].
  apply negb_true_iff in Vid.
  destruct ti as [ti |]; [| discriminate]. apply negb_true_iff in Vti.
  assert (Q1 : nullable text (Some i) = inr (Some i))
    by (unfold nullable, text; rewrite Vid; reflexivity).
  assert (Q2 : nullable text (Some ti) = inr (Some ti))
    by (unfold nullable, text; rewrite Vti; reflexivity).
  assert (Q3 : nullable text de = inr de).
  { destruct de as [de |]; [| reflexivity]. apply negb_true_iff in Vde.
    unfold nullable, text. rewrite Vde. reflexivity. }
  assert (Q4 : nullable (timestamp E) (or_null truthy_string pu)
               = inr (or_null truthy_string pu)).
  { unfold or_null. destruct pu as [s |]; [| reflexivity].
    destruct (truthy_string s); [| reflexivity]. simpl in Vpu.
    apply andb_true_iff in Vpu. destruct Vpu as [Hn Ht].
    apply negb_true_iff in Hn.
    unfold nullable, timestamp. rewrite Hn, Ht. reflexivity. }
  assert (Q5 : exists q, nullable int4 (or_null truthy_number du) = inr q).
  { unfold or_null. destruct du as [[| z | neg] |]; simpl;
      try (eexists; reflexivity); [| discriminate].
    destruct (z =? 0)%Z; simpl in *; [eexists; reflexivity |].
    rewrite Vdu. eexists. reflexivity. }
  destruct Q5 as [q Q5].
  assert (Q6 : nullable text (Some (watch_url i)) = inr (Some (watch_url i))).
  { unfold nullable, text, watch_url. rewrite has_nul_app, Vid. reflexivity. }
  assert (Q7 : nullable (varchar 255) (Some i) = inr (Some i)).
  { unfold nullable, varchar. rewrite Ha, Hf. reflexivity. }
  rewrite Q1. cbn [andThen]. rewrite Q2. cbn [andThen].
  rewrite Q3. cbn [andThen]. rewrite Q4. cbn [andThen].
  rewrite Q5. cbn [andThen]. rewrite Q6. cbn [andThen].
  rewrite Q7. cbn [andThen not_null].
  eexists. split; reflexivity.
Qed.

(* ------------------------------------------------------------------ *)
(** ** What the functions of lib/database.ts may do *)

Ltac step :=
  first
    [ assumption
    | match goal with
      | H : _ |- steps _ _ => apply H
      end
    | apply steps_ret
    | apply steps_throw
    | apply steps_exit
    | apply steps_get_pool
    | apply steps_bind
    | apply steps_try_catch
    | apply steps_when
    | apply steps_for_of
    | apply steps_if_given
    | match goal with
      | |- steps _ (match ?x with _ => _ end) => destruct x
      | |- steps _ (if ?x then _ else _) => destruct x
      | |- forall _ : _, steps _ _ => intro
      end ].

Ltac steps_auto := repeat step.

(** The functions are built from five primitives; a relation that the
    primitives respect is respected by the functions.  [Q] says which
    statements respect it. *)
Section DatabaseSteps.

Variable E : Env.
Variable R : World -> World -> Prop.
Variable Q : forall A : Type, Statement A -> Prop.
Hypothesis R_refl : forall w, R w w.
Hypothesis R_trans : forall w1 w2 w3, R w1 w2 -> R w2 w3 -> R w1 w3.
Hypothesis R_log : forall m, steps R (safeLog m).
Hypothesis R_connect : steps R (connect E).
Hypothesis R_sleep : forall ms, steps R (sleep ms).
Hypothesis R_set_pool : forall p, steps R (set_pool p).
Hypothesis R_query :
  forall (A : Type) (q : Sql) (stmt : Statement A),
    Q A stmt -> steps R (pool_query E q stmt).
Hypothesis Q_create_videos : Q _ create_videos.
Hypothesis Q_create_transcripts : Q _ create_transcripts.
Hypothesis Q_create_analysis : Q _ create_analysis.
Hypothesis Q_select_transcript : forall v, Q _ (select_transcript v).
Hypothesis Q_select_video : forall v, Q _ (select_video v).
Hypothesis Q_select_video_ids : Q _ select_video_ids.

Lemma steps_connectLoop (fuel retries : nat) (retryInterval : Z) (attempt : nat) :
  steps R (connectLoop E fuel retries retryInterval attempt).
Proof.
  revert attempt. induction fuel as [| fuel IH]; intros attempt; simpl.
  - steps_auto.
  - steps_auto.
Qed.

Lemma steps_initializeDatabase : steps R (initializeDatabase E).
Proof.
  unfold initializeDatabase, connectWithRetry.
  steps_auto; auto using steps_connectLoop.
Qed.

Lemma steps_ensure_pool : steps R (ensure_pool E).
Proof.
  unfold ensure_pool. steps_auto; auto using steps_initializeDatabase.
Qed.

Lemma steps_storeVideo (m : VideoMetadata) :
  (forall p1 p2 p3 p4 p5 p6, Q _ (insert_video E p1 p2 p3 p4 p5 p6)) ->
  steps R (storeVideo E m).
Proof.
  intros HQ. unfold storeVideo. steps_auto; auto using steps_ensure_pool.
Qed.

Lemma steps_storeTranscript (v : string) (t l : option string) :
  (forall p1 p2 p3, Q _ (insert_transcript p1 p2 p3)) ->
  steps R (storeTranscript E v t l).
Proof.
  intros HQ. unfold storeTranscript. steps_auto; auto using steps_ensure_pool.
Qed.

Lemma steps_storeAnalysis (v : string) (a : AnalysisResult) :
  (forall p1 p2 p3 p4 p5 p6 p7 p8 p9 p10 p11,
      Q _ (insert_analysis p1 p2 p3 p4 p5 p6 p7 p8 p9 p10 p11)) ->
  steps R (storeAnalysis E v a).
Proof.
  intros HQ. unfold storeAnalysis. steps_auto; auto using steps_ensure_pool.
Qed.

Lemma steps_getTranscript (v : string) : steps R (getTranscript E v).
Proof.
  unfold getTranscript. steps_auto; auto using steps_ensure_pool.
Qed.

Lemma steps_getVideoMetadata (v : string) : steps R (getVideoMetadata E v).
Proof.
  unfold getVideoMetadata. steps_auto; auto using steps_ensure_pool.
Qed.

Lemma steps_getAllVideoIds : steps R (getAllVideoIds E).
Proof.
  unfold getAllVideoIds. steps_auto; auto using steps_ensure_pool.
Qed.

End DatabaseSteps.

(** *** Rows are only touched by the three inserts *)

Lemma same_rows_refl (d : Db) : same_rows d d.
Proof. repeat split. Qed.

Lemma same_rows_trans (d1 d2 d3 : Db) :
  same_rows d1 d2 -> same_rows d2 d3 -> same_rows d1 d3.
Proof.
  intros [H1 [H2 H3]] [H1' [H2' H3']].
  repeat split; etransitivity; eassumption.
Qed.

Lemma keeps_rows_refl (w : World) : keeps_rows w w.
Proof. apply same_rows_refl. Qed.

Lemma keeps_rows_trans (w1 w2 w3 : World) :
  keeps_rows w1 w2 -> keeps_rows w2 w3 -> keeps_rows w1 w3.
Proof. apply same_rows_trans. Qed.

Lemma keeps_rows_query (E : Env) (A : Type) (q : Sql) (stmt : Statement A) :
  quiet stmt -> steps keeps_rows (pool_query E q stmt).
Proof.
  intros Hq w. unfold pool_query, keeps_rows.
  destruct (pool w); [| apply same_rows_refl].
  destruct (query_error E (queries w)); [apply same_rows_refl |].
  specialize (Hq (db w)). destruct (stmt (db w)) as [[e | a] d]; exact Hq.
Qed.

Lemma quiet_create_videos : quiet create_videos.
Proof.
  intros d. unfold create_videos.
  destruct (videos d) eqn:Hv; simpl; [apply same_rows_refl |].
  unfold same_rows; simpl. rewrite Hv. repeat split.
Qed.

Lemma quiet_create_transcripts : quiet create_transcripts.
Proof.
  intros d. unfold create_transcripts.
  destruct (transcripts d) eqn:Ht; simpl; [apply same_rows_refl |].
  destruct (videos d); simpl; [| apply same_rows_refl].
  unfold same_rows; simpl. rewrite Ht. repeat split.
Qed.

Lemma quiet_create_analysis : quiet create_analysis.
Proof.
  intros d. unfold create_analysis.
  destruct (analysis d) eqn:Ha; simpl; [apply same_rows_refl |].
  destruct (videos d); simpl; [| apply same_rows_refl].
  unfold same_rows; simpl. rewrite Ha. repeat split.
Qed.

Lemma quiet_select_transcript (v : string) : quiet (select_transcript v).
Proof.
  intros d. unfold select_transcript.
  destruct (transcripts d); [destruct (text v) |]; apply same_rows_refl.
Qed.

Lemma quiet_select_video (v : string) : quiet (select_video v).
Proof.
  intros d. unfold select_video.
  destruct (videos d); [destruct (text v) |]; apply same_rows_refl.
Qed.

Lemma quiet_select_video_ids : quiet select_video_ids.
Proof.
  intros d. unfold select_video_ids. destruct (videos d); apply same_rows_refl.
Qed.

Lemma keeps_rows_emit (e : Event) : steps keeps_rows (emit e).
Proof. intros w. apply same_rows_refl. Qed.

Lemma keeps_rows_connect (E : Env) : steps keeps_rows (connect E).
Proof.
  intros w. unfold connect.
  destruct (connect_error E (attempts w)); apply same_rows_refl.
Qed.

Lemma keeps_rows_set_pool (p : nat) : steps keeps_rows (set_pool p).
Proof. intros w. apply same_rows_refl. Qed.

Create HintDb rows.

#[local] Hint Resolve keeps_rows_refl keeps_rows_trans keeps_rows_query
  keeps_rows_connect keeps_rows_set_pool
  quiet_create_videos quiet_create_transcripts quiet_create_analysis
  quiet_select_transcript quiet_select_video quiet_select_video_ids : rows.

#[local] Hint Extern 1 (steps keeps_rows (safeLog _)) =>
  apply keeps_rows_emit : rows.
#[local] Hint Extern 1 (steps keeps_rows (sleep _)) =>
  apply keeps_rows_emit : rows.

Lemma initializeDatabase_keeps_rows (E : Env) :
  steps keeps_rows (initializeDatabase E).
Proof. apply steps_initializeDatabase with (Q := @quiet); eauto with rows. Qed.

Lemma ensure_pool_keeps_rows (E : Env) : steps keeps_rows (ensure_pool E).
Proof. apply steps_ensure_pool with (Q := @quiet); eauto with rows. Qed.

Lemma getTranscript_keeps_rows (E : Env) (v : string) :
  steps keeps_rows (getTranscript E v).
Proof. apply steps_getTranscript with (Q := @quiet); eauto with rows. Qed.

Lemma getVideoMetadata_keeps_rows (E : Env) (v : string) :
  steps keeps_rows (getVideoMetadata E v).
Proof. apply steps_getVideoMetadata with (Q := @quiet); eauto with rows. Qed.

Lemma getAllVideoIds_keeps_rows (E : Env) :
  steps keeps_rows (getAllVideoIds E).
Proof. apply steps_getAllVideoIds with (Q := @quiet); eauto with rows. Qed.

(** *** None of them ends the process *)

Lemma returns_or_throws_ret {A : Type} (a : A) : returns_or_throws (ret a).
Proof. intros w c. discriminate. Qed.

Lemma returns_or_throws_throw {A : Type} (e : Error) :
  returns_or_throws (@throw A e).
Proof. intros w c. discriminate. Qed.

Lemma returns_or_throws_get_pool : returns_or_throws get_pool.
Proof. intros w c. discriminate. Qed.

Lemma returns_or_throws_set_pool (p : nat) : returns_or_throws (set_pool p).
Proof. intros w c. discriminate. Qed.

Lemma returns_or_throws_emit (e : Event) : returns_or_throws (emit e).
Proof. intros w c. discriminate. Qed.

Lemma returns_or_throws_connect (E : Env) : returns_or_throws (connect E).
Proof.
  intros w c. unfold connect.
  destruct (connect_error E (attempts w)); discriminate.
Qed.

Lemma returns_or_throws_query (E : Env) (A : Type) (q : Sql) (stmt : Statement A) :
  returns_or_throws (pool_query E q stmt).
Proof.
  intros w c. unfold pool_query.
  destruct (pool w); [| discriminate].
  destruct (query_error E (queries w)); [discriminate |].
  destruct (stmt (db w)) as [[e | a] d]; discriminate.
Qed.

Ltac rt_step :=
  first
    [ assumption
    | match goal with
      | H : _ |- returns_or_throws _ => apply H
      end
    | apply returns_or_throws_ret
    | apply returns_or_throws_throw
    | apply returns_or_throws_get_pool
    | apply returns_or_throws_set_pool
    | apply returns_or_throws_connect
    | apply returns_or_throws_query
    | apply returns_or_throws_emit
    | apply returns_or_throws_bind
    | apply returns_or_throws_try_catch
    | match goal with
      | |- returns_or_throws (match ?x with _ => _ end) => destruct x
      | |- returns_or_throws (if ?x then _ else _) => destruct x
      | |- forall _ : _, returns_or_throws _ => intro
      end ].

Ltac rt_auto := repeat rt_step.

Lemma returns_or_throws_connectLoop (E : Env) (fuel retries : nat)
    (retryInterval : Z) (attempt : nat) :
  returns_or_throws (connectLoop E fuel retries retryInterval attempt).
Proof.
  revert attempt. induction fuel as [| fuel IH]; intros attempt; simpl;
    unfold safeLog, sleep; rt_auto.
Qed.

Lemma returns_or_throws_initializeDatabase (E : Env) :
  returns_or_throws (initializeDatabase E).
Proof.
  unfold initializeDatabase, connectWithRetry, safeLog.
  rt_auto; apply returns_or_throws_connectLoop.
Qed.

Lemma returns_or_throws_ensure_pool (E : Env) :
  returns_or_throws (ensure_pool E).
Proof.
  unfold ensure_pool. rt_auto; apply returns_or_throws_initializeDatabase.
Qed.

Lemma returns_or_throws_storeVideo (E : Env) (m : VideoMetadata) :
  returns_or_throws (storeVideo E m).
Proof.
  unfold storeVideo, safeLog. rt_auto; apply returns_or_throws_ensure_pool.
Qed.

Lemma returns_or_throws_storeTranscript (E : Env) (v : string)
    (t l : option string) :
  returns_or_throws (storeTranscript E v t l).
Proof.
  unfold storeTranscript, safeLog. rt_auto; apply returns_or_throws_ensure_pool.
Qed.

Lemma returns_or_throws_storeAnalysis (E : Env) (v : string) (a : AnalysisResult) :
  returns_or_throws (storeAnalysis E v a).
Proof.
  unfold storeAnalysis, safeLog. rt_auto; apply returns_or_throws_ensure_pool.
Qed.

Lemma returns_or_throws_getVideoMetadata (E : Env) (v : string) :
  returns_or_throws (getVideoMetadata E v).
Proof.
  unfold getVideoMetadata, safeLog. rt_auto; apply returns_or_throws_ensure_pool.
Qed.

Lemma returns_or_throws_getAllVideoIds (E : Env) :
  returns_or_throws (getAllVideoIds E).
Proof.
  unfold getAllVideoIds, safeLog. rt_auto; apply returns_or_throws_ensure_pool.
Qed.

(** *** A call that returns leaves a pool behind *)

Lemma bind_Ok {A B : Type} (m : M A) (k : A -> M B) (w w' : World) (b : B) :
  bind m k w = (Ok b, w') ->
  exists a w1, m w = (Ok a, w1) /\ k a w1 = (Ok b, w').
Proof.
  unfold bind. destruct (m w) as [[a | e | c] w1]; intros H;
    try discriminate. eauto.
Qed.


(** A handler that rethrows does not turn a failure into a result. *)
Lemma try_rethrow_Ok {A : Type} (m : M A) (l : Error -> LogMsg)
    (w w' : World) (a : A) :
  try_catch m (fun error => safeLog (l error) ;; throw error) w = (Ok a, w') ->
  m w = (Ok a, w').
Proof.
  unfold try_catch. destruct (m w) as [[a' | e | c] w1]; intros H;
    try discriminate; exact H.
Qed.

Lemma pool_query_Ok (E : Env) {A : Type} (q : Sql) (stmt : Statement A)
    (w w' : World) (a : A) :
  pool_query E q stmt w = (Ok a, w') ->
  pool w <> None /\ pool w' = pool w /\
  query_error E (queries w) = None /\
  stmt (db w) = (inr a, db w').
Proof.
  unfold pool_query. destruct (pool w) as [p |]; [| discriminate].
  destruct (query_error E (queries w)); [discriminate |].
  destruct (stmt (db w)) as [[e | a'] d]; intros H; inversion H; subst; simpl.
  repeat split; congruence.
Qed.

Lemma create_videos_Ok (d d' : Db) :
  create_videos d = (inr tt, d') ->
  videos d' <> None /\ transcripts d' = transcripts d /\ analysis d' = analysis d.
Proof.
  unfold create_videos. destruct (videos d) eqn:Hv; intros H;
    inversion H; subst; simpl; repeat split; congruence.
Qed.

Lemma create_transcripts_Ok (d d' : Db) :
  create_transcripts d = (inr tt, d') ->
  videos d' = videos d /\ transcripts d' <> None /\ analysis d' = analysis d.
Proof.
  unfold create_transcripts.
  destruct (transcripts d) eqn:Ht; [| destruct (videos d) eqn:Hv]; intros H;
    inversion H; subst; simpl; repeat split; congruence.
Qed.

Lemma create_analysis_Ok (d d' : Db) :
  create_analysis d = (inr tt, d') ->
  videos d' = videos d /\ transcripts d' = transcripts d /\ analysis d' <> None.
Proof.
  unfold create_analysis.
  destruct (analysis d) eqn:Ha; [| destruct (videos d) eqn:Hv]; intros H;
    inversion H; subst; simpl; repeat split; congruence.
Qed.

Lemma initializeDatabase_Ok (E : Env) (w w' : World) :
  initializeDatabase E w = (Ok tt, w') -> established w'.
Proof.
  unfold initializeDatabase. intros H.
  apply try_rethrow_Ok with (l := LDbInitError) in H.
  apply bind_Ok in H. destruct H as [p [w1 [_ H]]].
  apply bind_Ok in H. destruct H as [[] [w2 [_ H]]].
  apply bind_Ok in H. destruct H as [[] [w3 [H3 H]]].
  apply bind_Ok in H. destruct H as [[] [w4 [H4 H]]].
  apply bind_Ok in H. destruct H as [[] [w5 [H5 H]]].
  apply pool_query_Ok in H3. destruct H3 as [_ [_ [_ H3]]].
  apply pool_query_Ok in H4. destruct H4 as [_ [_ [_ H4]]].
  apply pool_query_Ok in H5. destruct H5 as [Hp [Hp' [_ H5]]].
  unfold safeLog, emit in H. inversion H; subst; simpl. clear H.
  split; [simpl; congruence |]. simpl.
  apply create_videos_Ok in H3. destruct H3 as [Hv3 [Ht3 Ha3]].
  apply create_transcripts_Ok in H4. destruct H4 as [Hv4 [Ht4 Ha4]].
  apply create_analysis_Ok in H5. destruct H5 as [Hv5 [Ht5 Ha5]].
  repeat split; congruence.
Qed.

Lemma ensure_pool_Ok (E : Env) (w w' : World) :
  ensure_pool E w = (Ok tt, w') -> pool w' <> None.
Proof.
  unfold ensure_pool, bind, get_pool. destruct (pool w) eqn:Hp.
  - unfold ret. intros H. inversion H; subst. congruence.
  - intros H. apply initializeDatabase_Ok in H. destruct H as [H _]. exact H.
Qed.

(* ------------------------------------------------------------------ *)
(** ** What each store does to the rows *)

Lemma has_video_same_rows (k : string) (d d' : Db) :
  same_rows d d' -> has_video k d' = has_video k d.
Proof. intros [H _]. unfold has_video. rewrite H. reflexivity. Qed.

(** [storeVideo] returns exactly when the statement was answered and the
    table took the row; the table is then the old one with the row
    upserted.  A call that throws leaves every row as it was. *)
Lemma storeVideo_outcome (E : Env) (m : VideoMetadata) (w : World) :
  match storeVideo E m w with
  | (Ok _, w') =>
      exists r,
        metadata_row E m = inr r /\
        rows (videos (db w')) = upsert_video r (rows (videos (db w))) /\
        rows (transcripts (db w')) = rows (transcripts (db w)) /\
        rows (analysis (db w')) = rows (analysis (db w)) /\
        pool w' <> None /\ videos (db w') <> None
  | (Throw _, w') => same_rows (db w) (db w')
  | (Exit _, _) => False
  end.
Proof.
  unfold storeVideo, try_catch, bind.
  pose proof (ensure_pool_keeps_rows E w) as Hk.
  pose proof (returns_or_throws_ensure_pool E w) as Hx.
  destruct (ensure_pool E w) as [[[] | e | c] w1] eqn:He;
    unfold keeps_rows in Hk; simpl in Hk, Hx.
  - apply ensure_pool_Ok in He. unfold pool_query.
    destruct (pool w1) as [p |]; [| congruence].
    destruct (query_error E (queries w1)); simpl; [exact Hk |].
    unfold insert_video.
    destruct (videos (db w1)) as [t |] eqn:Hv; simpl; [| exact Hk].
    change (videos_row E _ _ _ _ _ _) with (metadata_row E m).
    destruct (metadata_row E m) as [e | r]; simpl; [exact Hk |].
    exists r. destruct Hk as [H1 [H2 H3]]. rewrite Hv in H1. simpl in H1.
    repeat split; try congruence; discriminate.
  - simpl. exact Hk.
  - exfalso. apply (Hx c). reflexivity.
Qed.

(** What values of [transcripts] that were accepted say of the three
    parameters. *)
Lemma transcripts_values_inr (p1 p2 p3 q1 q2 q3 : option string) :
  transcripts_values p1 p2 p3 = inr (q1, q2, q3) ->
  q1 = option_map (first_chars 255) p1 /\
  q2 = p2 /\
  q3 = option_map (first_chars 10) p3 /\
  (forall s, p1 = Some s ->
             has_nul s = false /\ all_spaces (after_chars 255 s) = true) /\
  (forall s, p2 = Some s -> has_nul s = false) /\
  (forall s, p3 = Some s ->
             has_nul s = false /\ all_spaces (after_chars 10 s) = true).
Proof.
  unfold transcripts_values. intros H.
  apply andThen_inr in H. destruct H as [b1 [B1 H]].
  apply andThen_inr in H. destruct H as [b2 [B2 H]].
  apply andThen_inr in H. destruct H as [b3 [B3 H]].
  apply andThen_inr in H. destruct H as [k1 [P1 H]].
  apply andThen_inr in H. destruct H as [k3 [P3 H]].
  apply nullable_text_inr in B1. destruct B1 as [? Hn1]. subst b1.
  apply nullable_text_inr in B2. destruct B2 as [? Hn2]. subst b2.
  apply nullable_text_inr in B3. destruct B3 as [? Hn3]. subst b3.
  apply nullable_varchar_inr in P1. destruct P1 as [? Hv1]. subst k1.
  apply nullable_varchar_inr in P3. destruct P3 as [? Hv3]. subst k3.
  inversion H. clear H. subst q1 q2 q3.
  split; [reflexivity |]. split; [reflexivity |]. split; [reflexivity |].
  split; [intros s Hs; split; [apply (Hn1 s Hs) | apply (Hv1 s Hs)] |].
  split; [exact Hn2 |].
  intros s Hs; split; [apply (Hn3 s Hs) | apply (Hv3 s Hs)].
Qed.

Lemma transcripts_row_inr (n : Z) (q1 q2 q3 : option string)
    (r : Transcripts.row) :
  transcripts_row n q1 q2 q3 = inr r ->
  Transcripts.transcript_id r = n /\
  q1 = Some (Transcripts.video_id r) /\
  q2 = Some (Transcripts.full_transcript r) /\
  q3 = Some (Transcripts.language r).
Proof.
  unfold transcripts_row. intros H.
  apply andThen_inr in H. destruct H as [c1 [X1 H]].
  apply andThen_inr in H. destruct H as [c2 [X2 H]].
  apply andThen_inr in H. destruct H as [c3 [X3 H]].
  apply not_null_inr in X1. apply not_null_inr in X2. apply not_null_inr in X3.
  inversion H; subst; simpl. auto.
Qed.

Lemma transcripts_row_video_id (n : Z) (v : string) (t l q1 q2 q3 : option string)
    (r : Transcripts.row) :
  transcripts_values (Some v) t l = inr (q1, q2, q3) ->
  transcripts_row n q1 q2 q3 = inr r ->
  Transcripts.video_id r = video_key v.
Proof.
  intros Hv Hr. apply transcripts_values_inr in Hv.
  apply transcripts_row_inr in Hr.
  destruct Hv as [H1 _]. destruct Hr as [_ [H2 _]].
  rewrite H1 in H2. simpl in H2. inversion H2. reflexivity.
Qed.

(** What a row of [analysis] that was accepted says of the eleven
    values. *)
Lemma analysis_row_inr (p1 p2 p3 p4 p5 p6 : option string)
    (p7 p8 p9 p10 : option Json) (p11 : option string) (r : Analysis.row) :
  analysis_row p1 p2 p3 p4 p5 p6 p7 p8 p9 p10 p11 = inr r ->
  option_map (first_chars 255) p1 = Some (Analysis.video_id r) /\
  r = Analysis.mk (Analysis.video_id r) p2 p3 p4 p5 p6 p7 p8 p9 p10 p11 /\
  (forall s, p1 = Some s ->
             has_nul s = false /\ all_spaces (after_chars 255 s) = true) /\
  (forall s, In (Some s) [p2; p3; p4; p5; p6; p11] -> has_nul s = false) /\
  (forall j, In (Some j) [p7; p8; p9; p10] -> json_has_nul j = false).
Proof.
  unfold analysis_row. intros H.
  apply andThen_inr in H. destruct H as [b1 [B1 H]].
  apply andThen_inr in H. destruct H as [b2 [B2 H]].
  apply andThen_inr in H. destruct H as [b3 [B3 H]].
  apply andThen_inr in H. destruct H as [b4 [B4 H]].
  apply andThen_inr in H. destruct H as [b5 [B5 H]].
  apply andThen_inr in H. destruct H as [b6 [B6 H]].
  apply andThen_inr in H. destruct H as [b7 [B7 H]].
  apply andThen_inr in H. destruct H as [b8 [B8 H]].
  apply andThen_inr in H. destruct H as [b9 [B9 H]].
  apply andThen_inr in H. destruct H as [b10 [B10 H]].
  apply andThen_inr in H. destruct H as [b11 [B11 H]].
  apply andThen_inr in H. destruct H as [k1 [P1 H]].
  apply andThen_inr in H. destruct H as [c1 [X1 H]].
  apply nullable_text_inr in B1. destruct B1 as [? Hn1]. subst b1.
  apply nullable_text_inr in B2. destruct B2 as [? Hn2]. subst b2.
  apply nullable_text_inr in B3. destruct B3 as [? Hn3]. subst b3.
  apply nullable_text_inr in B4. destruct B4 as [? Hn4]. subst b4.
  apply nullable_text_inr in B5. destruct B5 as [? Hn5]. subst b5.
  apply nullable_text_inr in B6. destruct B6 as [? Hn6]. subst b6.
  apply nullable_jsonb_inr in B7. destruct B7 as [? Hn7]. subst b7.
  apply nullable_jsonb_inr in B8. destruct B8 as [? Hn8]. subst b8.
  apply nullable_jsonb_inr in B9. destruct B9 as [? Hn9]. subst b9.
  apply nullable_jsonb_inr in B10. destruct B10 as [? Hn10]. subst b10.
  apply nullable_text_inr in B11. destruct B11 as [? Hn11]. subst b11.
  apply nullable_varchar_inr in P1. destruct P1 as [? Hv1]. subst k1.
  apply not_null_inr in X1.
  inversion H; subst r; simpl. clear H.
  split; [exact X1 |]. split; [reflexivity |].
  split; [intros s Hs; split; [apply (Hn1 s Hs) | apply (Hv1 s Hs)] |].
  split.
  - intros s [Hs | [Hs | [Hs | [Hs | [Hs | [Hs | []]]]]]]; eauto.
  - intros j [Hj | [Hj | [Hj | [Hj | []]]]]; eauto.
Qed.

Lemma analysis_row_video_id (v : string) p2 p3 p4 p5 p6 p7 p8 p9 p10 p11
    (r : Analysis.row) :
  analysis_row (Some v) p2 p3 p4 p5 p6 p7 p8 p9 p10 p11 = inr r ->
  Analysis.video_id r = video_key v.
Proof.
  intros H. apply analysis_row_inr in H. destruct H as [H _].
  simpl in H. inversion H. reflexivity.
Qed.

Lemma existsb_transcript (v : string) (t : list Transcripts.row) :
  existsb (fun x => Transcripts.video_id x =? v) t = true ->
  exists x, In x t /\ Transcripts.video_id x = v.
Proof.
  rewrite existsb_exists. intros [x [Hin Heq]].
  apply String.eqb_eq in Heq. eauto.
Qed.

Lemma existsb_analysis (v : string) (t : list Analysis.row) :
  existsb (fun x => Analysis.video_id x =? v) t = true ->
  exists x, In x t /\ Analysis.video_id x = v.
Proof.
  rewrite existsb_exists. intros [x [Hin Heq]].
  apply String.eqb_eq in Heq. eauto.
Qed.

(** [storeTranscript] returns only when the transcript of that video was
    there to be updated, or the video was there to be referred to. *)
Lemma storeTranscript_outcome (E : Env) (v : string) (t l : option string)
    (w : World) :
  match storeTranscript E v t l w with
  | (Ok _, w') =>
      rows (videos (db w')) = rows (videos (db w)) /\
      rows (analysis (db w')) = rows (analysis (db w)) /\
      exists r,
        Transcripts.video_id r = video_key v /\
        ((exists x, In x (rows (transcripts (db w))) /\
                    Transcripts.video_id x = video_key v) /\
         rows (transcripts (db w')) =
           update_transcript r (rows (transcripts (db w)))
         \/
         has_video (video_key v) (db w) = true /\
         rows (transcripts (db w')) = (rows (transcripts (db w)) ++ [r])%list)
  | (Throw _, w') => same_rows (db w) (db w')
  | (Exit _, _) => False
  end.
Proof.
  unfold storeTranscript, try_catch, bind.
  pose proof (ensure_pool_keeps_rows E w) as Hk.
  pose proof (returns_or_throws_ensure_pool E w) as Hx.
  destruct (ensure_pool E w) as [[[] | e | c] w1] eqn:He;
    unfold keeps_rows in Hk; simpl in Hk, Hx.
  - apply ensure_pool_Ok in He. unfold pool_query.
    destruct (pool w1) as [p |]; [| congruence].
    destruct (query_error E (queries w1)); simpl; [exact Hk |].
    unfold insert_transcript.
    destruct (transcripts (db w1)) as [tb |] eqn:Ht; simpl; [| exact Hk].
    assert (Hseq : forall n, same_rows (db w) (set_transcripts_seq n (db w1))).
    { intros n. destruct Hk as [H1 [H2 H3]]. repeat split; assumption. }
    destruct (transcripts_values _ _ _) as [e | [[q1 q2] q3]] eqn:Hval; simpl;
      [exact Hk |].
    destruct (transcripts_row _ _ _ _) as [e | r] eqn:Hr; simpl; [apply Hseq |].
    pose proof (transcripts_row_video_id _ _ _ _ _ _ _ _ Hval Hr) as Hrv.
    rewrite Hrv.
    destruct Hk as [H1 [H2 H3]]. rewrite Ht in H2. simpl in H2.
    destruct (existsb (fun x => Transcripts.video_id x =? video_key v) tb)
      eqn:Hex; simpl.
    + split; [congruence | split; [congruence |]]. exists r. split; [exact Hrv |]. left.
      rewrite H2. split; [| reflexivity].
      apply existsb_transcript. exact Hex.
    + destruct (existsb (fun x => (Transcripts.transcript_id x =? _)%Z) tb);
        simpl; [apply Hseq |].
      change (has_video (video_key v)
                (set_transcripts_seq (transcripts_seq (db w1) + 1) (db w1)))
        with (has_video (video_key v) (db w1)).
      destruct (has_video (video_key v) (db w1)) eqn:Hv; simpl; [| apply Hseq].
      split; [congruence | split; [congruence |]]. exists r. split; [exact Hrv |]. right.
      rewrite H2. split; [| reflexivity].
      unfold has_video in *. rewrite H1. exact Hv.
  - simpl. exact Hk.
  - exfalso. apply (Hx c). reflexivity.
Qed.

(** The same for [storeAnalysis]. *)
Lemma storeAnalysis_outcome (E : Env) (v : string) (a : AnalysisResult)
    (w : World) :
  match storeAnalysis E v a w with
  | (Ok _, w') =>
      rows (videos (db w')) = rows (videos (db w)) /\
      rows (transcripts (db w')) = rows (transcripts (db w)) /\
      exists r,
        analysis_row
          (Some v)
          (AnalysisResult.video_type a) (AnalysisResult.name a)
          (AnalysisResult.age a) (AnalysisResult.sex a)
          (AnalysisResult.location a)
          (stringify_or_null (AnalysisResult.symptoms a))
          (stringify_or_null (AnalysisResult.medicalHistoryOfPatient a))
          (stringify_or_null (AnalysisResult.familyMedicalHistory a))
          (stringify_or_null (AnalysisResult.challengesFacedDuringDiagnosis a))
          (AnalysisResult.key_opinion a) = inr r /\
        Analysis.video_id r = video_key v /\
        ((exists x, In x (rows (analysis (db w))) /\
                    Analysis.video_id x = video_key v) /\
         rows (analysis (db w')) = update_analysis r (rows (analysis (db w)))
         \/
         has_video (video_key v) (db w) = true /\
         rows (analysis (db w')) = (rows (analysis (db w)) ++ [r])%list)
  | (Throw _, w') => same_rows (db w) (db w')
  | (Exit _, _) => False
  end.
Proof.
  unfold storeAnalysis, try_catch, bind.
  pose proof (ensure_pool_keeps_rows E w) as Hk.
  pose proof (returns_or_throws_ensure_pool E w) as Hx.
  destruct (ensure_pool E w) as [[[] | e | c] w1] eqn:He;
    unfold keeps_rows in Hk; simpl in Hk, Hx.
  - apply ensure_pool_Ok in He. unfold pool_query.
    destruct (pool w1) as [p |]; [| congruence].
    destruct (query_error E (queries w1)); simpl; [exact Hk |].
    unfold insert_analysis.
    destruct (analysis (db w1)) as [tb |] eqn:Ht; simpl; [| exact Hk].
    destruct (analysis_row _ _ _ _ _ _ _ _ _ _ _) as [e | r] eqn:Hr; simpl;
      [exact Hk |].
    pose proof (analysis_row_video_id _ _ _ _ _ _ _ _ _ _ _ _ Hr) as Hrv.
    rewrite Hrv.
    pose proof Hk as [H1 [H2 H3]]. rewrite Ht in H3. simpl in H3.
    destruct (existsb (fun x => Analysis.video_id x =? video_key v) tb)
      eqn:Hex; simpl.
    + split; [congruence | split; [congruence |]]. exists r.
      split; [reflexivity |]. split; [exact Hrv |]. left.
      rewrite H3. split; [| reflexivity].
      apply existsb_analysis. exact Hex.
    + destruct (has_video (video_key v) (db w1)) eqn:Hv; simpl; [| exact Hk].
      split; [congruence | split; [congruence |]]. exists r.
      split; [reflexivity |]. split; [exact Hrv |]. right.
      rewrite H3. split; [| reflexivity].
      unfold has_video in *. rewrite H1. exact Hv.
  - simpl. exact Hk.
  - exfalso. apply (Hx c). reflexivity.
Qed.

(* ------------------------------------------------------------------ *)
(** ** The schema's promises hold in every reachable database *)

Lemma wf_db_same_rows (d d' : Db) : same_rows d d' -> wf_db d -> wf_db d'.
Proof.
  intros Hs [Hnd [Ht Ha]]. pose proof Hs as [H1 [H2 H3]].
  unfold wf_db, video_ids. rewrite <- H1, <- H2, <- H3.
  repeat split; [exact Hnd | |]; intros r Hin;
    rewrite (has_video_same_rows _ _ _ Hs); auto.
Qed.

Lemma wf_db_empty : wf_db empty_db.
Proof.
  unfold wf_db, video_ids. simpl.
  repeat split; [constructor | |]; intros r [].
Qed.

Lemma has_video_upsert (k : string) (r : Videos.row) (d d' : Db) :
  rows (videos d') = upsert_video r (rows (videos d)) ->
  has_video k d = true -> has_video k d' = true.
Proof.
  intros Hv. rewrite !has_video_spec. unfold video_ids. rewrite Hv.
  intros H. apply in_upsert_video_ids. left. exact H.
Qed.

Lemma wf_db_upsert_video (r : Videos.row) (d d' : Db) :
  rows (videos d') = upsert_video r (rows (videos d)) ->
  rows (transcripts d') = rows (transcripts d) ->
  rows (analysis d') = rows (analysis d) ->
  wf_db d -> wf_db d'.
Proof.
  intros Hv Ht Ha [Hnd [Hft Hfa]]. unfold wf_db, video_ids.
  rewrite Hv, Ht, Ha. repeat split.
  - apply NoDup_upsert_video. exact Hnd.
  - intros x Hin. eapply has_video_upsert; eauto.
  - intros x Hin. eapply has_video_upsert; eauto.
Qed.

Lemma in_update_transcript (r x' : Transcripts.row) (t : list Transcripts.row) :
  In x' (update_transcript r t) ->
  exists x, In x t /\ Transcripts.video_id x' = Transcripts.video_id x.
Proof.
  unfold update_transcript. rewrite in_map_iff. intros [x [Heq Hin]].
  exists x. split; [exact Hin |].
  destruct (Transcripts.video_id x =? Transcripts.video_id r); subst; reflexivity.
Qed.

Lemma in_update_analysis (r x' : Analysis.row) (t : list Analysis.row) :
  In x' (update_analysis r t) ->
  exists x, In x t /\ Analysis.video_id x' = Analysis.video_id x.
Proof.
  unfold update_analysis. rewrite in_map_iff. intros [x [Heq Hin]].
  exists x. split; [exact Hin |].
  destruct (Analysis.video_id x =? Analysis.video_id r); subst; reflexivity.
Qed.

Lemma has_video_same_videos (k : string) (d d' : Db) :
  rows (videos d') = rows (videos d) -> has_video k d' = has_video k d.
Proof. intros H. unfold has_video. rewrite H. reflexivity. Qed.

Lemma storeVideo_wf (E : Env) (m : VideoMetadata) (w : World) :
  wf_db (db w) -> wf_db (db (snd (storeVideo E m w))).
Proof.
  intros Hwf. pose proof (storeVideo_outcome E m w) as H.
  destruct (storeVideo E m w) as [[[] | e | c] w']; simpl.
  - destruct H as [r [_ [Hv [Ht [Ha _]]]]].
    eapply wf_db_upsert_video; eauto.
  - eapply wf_db_same_rows; eauto.
  - contradiction.
Qed.

Lemma storeTranscript_wf (E : Env) (v : string) (t l : option string) (w : World) :
  wf_db (db w) -> wf_db (db (snd (storeTranscript E v t l w))).
Proof.
  intros Hwf. pose proof (storeTranscript_outcome E v t l w) as H.
  destruct (storeTranscript E v t l w) as [[[] | e | c] w']; simpl.
  - destruct H as [Hv [Ha [r [Hr Hcase]]]].
    destruct Hwf as [Hnd [Hft Hfa]]. unfold wf_db, video_ids.
    rewrite Hv, Ha. repeat split; [exact Hnd | |].
    + intros x Hin. rewrite (has_video_same_videos _ _ _ Hv).
      destruct Hcase as [[_ Hrows] | [Hhas Hrows]]; rewrite Hrows in Hin.
      * apply in_update_transcript in Hin. destruct Hin as [x0 [Hin0 Heq]].
        rewrite Heq. apply Hft. exact Hin0.
      * apply in_app_iff in Hin. destruct Hin as [Hin | [Hin | []]].
        -- apply Hft. exact Hin.
        -- subst x. rewrite Hr. exact Hhas.
    + intros x Hin. rewrite (has_video_same_videos _ _ _ Hv). apply Hfa. exact Hin.
  - eapply wf_db_same_rows; eauto.
  - contradiction.
Qed.

Lemma storeAnalysis_wf (E : Env) (v : string) (a : AnalysisResult) (w : World) :
  wf_db (db w) -> wf_db (db (snd (storeAnalysis E v a w))).
Proof.
  intros Hwf. pose proof (storeAnalysis_outcome E v a w) as H.
  destruct (storeAnalysis E v a w) as [[[] | e | c] w']; simpl.
  - destruct H as [Hv [Ht [r [_ [Hr Hcase]]]]].
    destruct Hwf as [Hnd [Hft Hfa]]. unfold wf_db, video_ids.
    rewrite Hv, Ht. repeat split; [exact Hnd | |].
    + intros x Hin. rewrite (has_video_same_videos _ _ _ Hv). apply Hft. exact Hin.
    + intros x Hin. rewrite (has_video_same_videos _ _ _ Hv).
      destruct Hcase as [[_ Hrows] | [Hhas Hrows]]; rewrite Hrows in Hin.
      * apply in_update_analysis in Hin. destruct Hin as [x0 [Hin0 Heq]].
        rewrite Heq. apply Hfa. exact Hin0.
      * apply in_app_iff in Hin. destruct Hin as [Hin | [Hin | []]].
        -- apply Hfa. exact Hin.
        -- subst x. rewrite Hr. exact Hhas.
  - eapply wf_db_same_rows; eauto.
  - contradiction.
Qed.

Lemma call_wf (E : Env) (c : Call) (w : World) :
  wf_db (db w) -> wf_db (db (call E c w)).
Proof.
  intros Hwf. destruct c; simpl.
  - eapply wf_db_same_rows; [apply initializeDatabase_keeps_rows | exact Hwf].
  - apply storeVideo_wf. exact Hwf.
  - apply storeTranscript_wf. exact Hwf.
  - eapply wf_db_same_rows; [apply getTranscript_keeps_rows | exact Hwf].
  - eapply wf_db_same_rows; [apply getVideoMetadata_keeps_rows | exact Hwf].
  - apply storeAnalysis_wf. exact Hwf.
  - eapply wf_db_same_rows; [apply getAllVideoIds_keeps_rows | exact Hwf].
Qed.

Lemma history_app (E : Env) (cs1 cs2 : list Call) (w : World) :
  history E (cs1 ++ cs2) w = history E cs2 (history E cs1 w).
Proof. unfold history. apply fold_left_app. Qed.

Lemma history_wf (E : Env) (cs : list Call) (w : World) :
  wf_db (db w) -> wf_db (db (history E cs w)).
Proof.
  revert w. induction cs as [| c cs IH]; intros w Hwf; simpl; [exact Hwf |].
  apply IH. apply call_wf. exact Hwf.
Qed.

(** A stored video stays, and a video is there only because [storeVideo]
    was called for it. *)
Lemma call_video_ids_grow (E : Env) (c : Call) (w : World) (k : string) :
  In k (video_ids (db w)) -> In k (video_ids (db (call E c w))).
Proof.
  intros Hin. unfold video_ids in *.
  assert (Hsame : forall w', keeps_rows w w' ->
                             In k (map Videos.video_id (rows (videos (db w'))))).
  { intros w' [H _]. rewrite <- H. exact Hin. }
  destruct c as [| m | v t l | v | v | v a |]; simpl.
  - apply Hsame, initializeDatabase_keeps_rows.
  - pose proof (storeVideo_outcome E m w) as H.
    destruct (storeVideo E m w) as [[[] | e | c] w']; simpl.
    + destruct H as [r [_ [Hv _]]]. rewrite Hv.
      apply in_upsert_video_ids. left. exact Hin.
    + apply Hsame, H.
    + contradiction.
  - pose proof (storeTranscript_outcome E v t l w) as H.
    destruct (storeTranscript E v t l w)
      as [[[] | e | c] w']; simpl.
    + destruct H as [Hv _]. rewrite Hv. exact Hin.
    + apply Hsame, H.
    + contradiction.
  - apply Hsame, getTranscript_keeps_rows.
  - apply Hsame, getVideoMetadata_keeps_rows.
  - pose proof (storeAnalysis_outcome E v a w) as H.
    destruct (storeAnalysis E v a w) as [[[] | e | c] w']; simpl.
    + destruct H as [Hv _]. rewrite Hv. exact Hin.
    + apply Hsame, H.
    + contradiction.
  - apply Hsame, getAllVideoIds_keeps_rows.
Qed.

Lemma history_video_ids_grow (E : Env) (cs : list Call) (w : World) (k : string) :
  In k (video_ids (db w)) -> In k (video_ids (db (history E cs w))).
Proof.
  revert w. induction cs as [| c cs IH]; intros w Hin; simpl; [exact Hin |].
  apply IH. apply call_video_ids_grow. exact Hin.
Qed.

Lemma call_video_ids_origin (E : Env) (c : Call) (w : World) (k : string) :
  In k (video_ids (db (call E c w))) ->
  In k (video_ids (db w)) \/
  exists m, c = CallStoreVideo m /\ video_key (VideoMetadata.id m) = k /\
            fst (storeVideo E m w) = Ok tt.
Proof.
  unfold video_ids.
  assert (Hsame : forall w', keeps_rows w w' ->
            In k (map Videos.video_id (rows (videos (db w')))) ->
            In k (map Videos.video_id (rows (videos (db w))))).
  { intros w' [H _]. rewrite <- H. auto. }
  destruct c as [| m0 | v t l | v | v | v a |]; simpl; intros Hin.
  - left. eapply Hsame; [apply initializeDatabase_keeps_rows | exact Hin].
  - pose proof (storeVideo_outcome E m0 w) as H.
    destruct (storeVideo E m0 w) as [[[] | e | c] w'] eqn:Hs; simpl in *.
    + destruct H as [r [Hr [Hv _]]]. rewrite Hv in Hin.
      apply in_upsert_video_ids in Hin. destruct Hin as [Hin | Hin]; [auto |].
      right. exists m0. split; [reflexivity |].
      split; [| rewrite Hs; reflexivity].
      apply metadata_row_fields in Hr. destruct Hr as [Hid _]. congruence.
    + left. eapply Hsame; [exact H | exact Hin].
    + contradiction.
  - pose proof (storeTranscript_outcome E v t l w) as H.
    destruct (storeTranscript E v t l w)
      as [[[] | e | c] w']; simpl in *.
    + destruct H as [Hv _]. rewrite Hv in Hin. auto.
    + left. eapply Hsame; [exact H | exact Hin].
    + contradiction.
  - left. eapply Hsame; [apply getTranscript_keeps_rows | exact Hin].
  - left. eapply Hsame; [apply getVideoMetadata_keeps_rows | exact Hin].
  - pose proof (storeAnalysis_outcome E v a w) as H.
    destruct (storeAnalysis E v a w) as [[[] | e | c] w']; simpl in *.
    + destruct H as [Hv _]. rewrite Hv in Hin. auto.
    + left. eapply Hsame; [exact H | exact Hin].
    + contradiction.
  - left. eapply Hsame; [apply getAllVideoIds_keeps_rows | exact Hin].
Qed.

Lemma history_video_ids_origin (E : Env) (cs : list Call) (w : World) (k : string) :
  In k (video_ids (db (history E cs w))) ->
  In k (video_ids (db w)) \/
  exists m, In (CallStoreVideo m) cs /\ video_key (VideoMetadata.id m) = k.
Proof.
  revert w. induction cs as [| c cs IH]; intros w Hin; simpl in *; [auto |].
  apply IH in Hin. destruct Hin as [Hin | [m [Hm Hk]]].
  - apply call_video_ids_origin in Hin. destruct Hin as [Hin | [m [Hc [Hk _]]]].
    + auto.
    + right. exists m. split; [left; exact Hc | exact Hk].
  - right. exists m. split; [right; exact Hm | exact Hk].
Qed.

(** An identifier is in [videos] only because a [storeVideo] call for it
    has returned. *)
Lemma history_video_ids_returned (E : Env) (cs : list Call) (k : string) :
  In k (video_ids (db (history E cs initial_world))) ->
  exists cs1 m cs2,
    cs = (cs1 ++ CallStoreVideo m :: cs2)%list /\
    fst (storeVideo E m (history E cs1 initial_world)) = Ok tt /\
    video_key (VideoMetadata.id m) = k.
Proof.
  induction cs as [| c cs IH] using rev_ind; [intros [] |].
  rewrite history_app. simpl. intros Hin.
  apply call_video_ids_origin in Hin. destruct Hin as [Hin | [m [Hc [Hk Hok]]]].
  - destruct (IH Hin) as [cs1 [m [cs2 [Hcs [Hok Hk]]]]].
    exists cs1, m, (cs2 ++ [c])%list. split; [| auto].
    rewrite Hcs, <- app_assoc. reflexivity.
  - subst c. exists cs, m, []. auto.
Qed.

(* ------------------------------------------------------------------ *)
(** ** When the database answers *)

Lemma stays_established_refl (w : World) : stays_established w w.
Proof. intros H. exact H. Qed.

Lemma stays_established_trans (w1 w2 w3 : World) :
  stays_established w1 w2 -> stays_established w2 w3 -> stays_established w1 w3.
Proof. unfold stays_established. auto. Qed.

Lemma stays_established_emit (e : Event) : steps stays_established (emit e).
Proof. intros w H. exact H. Qed.

Lemma stays_established_connect (E : Env) : steps stays_established (connect E).
Proof.
  intros w H. unfold connect.
  destruct (connect_error E (attempts w)); exact H.
Qed.

Lemma stays_established_set_pool (p : nat) : steps stays_established (set_pool p).
Proof. intros w [_ H]. split; [discriminate | exact H]. Qed.

Lemma stays_established_query (E : Env) (A : Type) (q : Sql) (stmt : Statement A) :
  keeps_tables stmt -> steps stays_established (pool_query E q stmt).
Proof.
  intros Hq w [Hp Hv]. unfold pool_query.
  destruct (pool w) as [p |]; [| congruence].
  destruct (query_error E (queries w)); [split; [discriminate | exact Hv] |].
  specialize (Hq (db w) Hv). destruct (stmt (db w)) as [[e | a] d];
    (split; [discriminate | exact Hq]).
Qed.

Ltac keeps_tables_tac :=
  repeat match goal with
         | |- context [match ?x with _ => _ end] => destruct x eqn:?
         end;
  unfold has_tables in *; simpl in *; intuition congruence.

Lemma keeps_tables_create_videos : keeps_tables create_videos.
Proof. intros d Hd. unfold create_videos. keeps_tables_tac. Qed.

Lemma keeps_tables_create_transcripts : keeps_tables create_transcripts.
Proof. intros d Hd. unfold create_transcripts. keeps_tables_tac. Qed.

Lemma keeps_tables_create_analysis : keeps_tables create_analysis.
Proof. intros d Hd. unfold create_analysis. keeps_tables_tac. Qed.

Lemma keeps_tables_select_transcript (v : string) : keeps_tables (select_transcript v).
Proof. intros d Hd. unfold select_transcript. keeps_tables_tac. Qed.

Lemma keeps_tables_select_video (v : string) : keeps_tables (select_video v).
Proof. intros d Hd. unfold select_video. keeps_tables_tac. Qed.

Lemma keeps_tables_select_video_ids : keeps_tables select_video_ids.
Proof. intros d Hd. unfold select_video_ids. keeps_tables_tac. Qed.

Lemma keeps_tables_insert_video (E : Env) p1 p2 p3 p4 p5 p6 :
  keeps_tables (insert_video E p1 p2 p3 p4 p5 p6).
Proof. intros d Hd. unfold insert_video. keeps_tables_tac. Qed.

Lemma keeps_tables_insert_transcript p1 p2 p3 :
  keeps_tables (insert_transcript p1 p2 p3).
Proof. intros d Hd. unfold insert_transcript. keeps_tables_tac. Qed.

Lemma keeps_tables_insert_analysis p1 p2 p3 p4 p5 p6 p7 p8 p9 p10 p11 :
  keeps_tables (insert_analysis p1 p2 p3 p4 p5 p6 p7 p8 p9 p10 p11).
Proof. intros d Hd. unfold insert_analysis. keeps_tables_tac. Qed.

Create HintDb established.

#[local] Hint Resolve stays_established_refl stays_established_trans
  stays_established_query stays_established_connect stays_established_set_pool
  keeps_tables_create_videos keeps_tables_create_transcripts
  keeps_tables_create_analysis keeps_tables_select_transcript
  keeps_tables_select_video keeps_tables_select_video_ids
  keeps_tables_insert_video keeps_tables_insert_transcript
  keeps_tables_insert_analysis : established.

#[local] Hint Extern 1 (steps stays_established (safeLog _)) =>
  apply stays_established_emit : established.
#[local] Hint Extern 1 (steps stays_established (sleep _)) =>
  apply stays_established_emit : established.

Lemma call_stays_established (E : Env) (c : Call) (w : World) :
  established w -> established (call E c w).
Proof.
  change (stays_established w (call E c w)).
  destruct c as [| m | v t l | v | v | v a |]; simpl.
  - apply (@steps_initializeDatabase E stays_established (@keeps_tables));
      eauto with established.
  - apply (@steps_storeVideo E stays_established (@keeps_tables));
      eauto with established.
  - apply (@steps_storeTranscript E stays_established (@keeps_tables));
      eauto with established.
  - apply (@steps_getTranscript E stays_established (@keeps_tables));
      eauto with established.
  - apply (@steps_getVideoMetadata E stays_established (@keeps_tables));
      eauto with established.
  - apply (@steps_storeAnalysis E stays_established (@keeps_tables));
      eauto with established.
  - apply (@steps_getAllVideoIds E stays_established (@keeps_tables));
      eauto with established.
Qed.

Lemma established_ready (w : World) : established w -> ready w.
Proof. intros [_ H] _. exact H. Qed.

Lemma ready_initial_world : ready initial_world.
Proof. intros H. exfalso. apply H. reflexivity. Qed.

(** With a pool, [if (!pool) await initializeDatabase()] does nothing. *)
Lemma ensure_pool_skip (E : Env) (w : World) :
  pool w <> None -> ensure_pool E w = (Ok tt, w).
Proof.
  intros Hp. unfold ensure_pool, bind, get_pool.
  destruct (pool w); [reflexivity | congruence].
Qed.

Lemma ensure_pool_absorb (E : Env) {A : Type} (k : M A) (h : Error -> M A)
    (w w1 : World) :
  ensure_pool E w = (Ok tt, w1) ->
  try_catch (ensure_pool E ;; k) h w = try_catch (ensure_pool E ;; k) h w1.
Proof.
  intros H. unfold try_catch, bind.
  rewrite H, (ensure_pool_skip E w1 (ensure_pool_Ok E w w1 H)). reflexivity.
Qed.

Lemma connectWithRetry_first (E : Env) (w : World) :
  connect_error E (attempts w) = None ->
  exists w1, connectWithRetry E 5 2000 w = (Ok (attempts w), w1).
Proof.
  intros H. unfold connectWithRetry. simpl.
  unfold try_catch, bind, safeLog, emit, connect. simpl. rewrite H.
  eexists. reflexivity.
Qed.

Lemma create_tables_Ok (E : Env) (w : World) :
  pool w <> None ->
  (forall n, query_error E n = None) ->
  exists w',
    (pool_query E CreateVideos create_videos ;;
     pool_query E CreateTranscripts create_transcripts ;;
     pool_query E CreateAnalysis create_analysis ;;
     safeLog LDbInitialized) w = (Ok tt, w').
Proof.
  intros Hp Hq. unfold bind, pool_query, safeLog, emit.
  destruct (pool w) as [p |]; [| congruence].
  rewrite Hq. unfold create_videos.
  destruct (videos (db w)) as [tv |] eqn:Hv; simpl; rewrite Hq;
    unfold create_transcripts; simpl;
    destruct (transcripts (db w)) as [tt' |] eqn:Ht; simpl; rewrite ?Hv; simpl;
    rewrite Hq; unfold create_analysis; simpl;
    destruct (analysis (db w)) as [ta |] eqn:Ha; simpl; rewrite ?Hv; simpl;
    eexists; reflexivity.
Qed.

Lemma initializeDatabase_reliable (E : Env) (w : World) :
  reliable E -> exists w', initializeDatabase E w = (Ok tt, w').
Proof.
  intros [Hc Hq]. unfold initializeDatabase, try_catch.
  unfold bind at 1. unfold get_pool at 1.
  destruct (pool w) as [p |] eqn:Hp.
  - unfold bind at 1. unfold ret at 1.
    destruct (create_tables_Ok E w) as [w' H]; [congruence | exact Hq |].
    rewrite H. eauto.
  - unfold bind at 1. unfold bind at 1.
    destruct (connectWithRetry_first E w (Hc _)) as [w1 H1]. rewrite H1.
    unfold set_pool at 1.
    match goal with
    | |- context [bind _ _ ?w2] =>
        destruct (create_tables_Ok E w2) as [w' H];
          [simpl; discriminate | exact Hq |]; rewrite H
    end.
    eauto.
Qed.

Lemma ensure_pool_reliable (E : Env) (w : World) :
  reliable E -> ready w ->
  exists w1, ensure_pool E w = (Ok tt, w1) /\ established w1.
Proof.
  intros Hrel Hready. destruct (pool w) as [p |] eqn:Hp.
  - exists w. split.
    + apply ensure_pool_skip. congruence.
    + split; [congruence | apply Hready; congruence].
  - destruct (initializeDatabase_reliable E w Hrel) as [w1 H].
    exists w1. split.
    + unfold ensure_pool, bind, get_pool. rewrite Hp. exact H.
    + apply initializeDatabase_Ok in H. exact H.
Qed.

(** With a pool and the table, [storeVideo] is one statement and one line
    of log. *)
Lemma storeVideo_established (E : Env) (m : VideoMetadata) (w : World)
    (p : nat) (t : list Videos.row) :
  pool w = Some p -> videos (db w) = Some t ->
  storeVideo E m w =
  let sent d l :=
    mkWorld (Some p) d (attempts w) (S (queries w)) (written w)
      ((trace w ++ [EvQuery InsertVideo]) ++ [EvLog l]) in
  let vid := VideoMetadata.id m in
  match query_error E (queries w) with
  | Some msg =>
      (Throw (ConnectionError msg),
       sent (db w) (LVideoStoreError vid (ConnectionError msg)))
  | None =>
      match metadata_row E m with
      | inl e => (Throw e, sent (db w) (LVideoStoreError vid e))
      | inr r => (Ok tt, sent (set_videos (upsert_video r t) (db w))
                              (LVideoStored vid))
      end
  end.
Proof.
  intros Hp Hv. unfold storeVideo, try_catch. unfold bind at 1.
  rewrite ensure_pool_skip by congruence.
  unfold bind, pool_query, insert_video, safeLog, emit, throw. rewrite Hp, Hv.
  change (videos_row E _ _ _ _ _ _) with (metadata_row E m).
  destruct (query_error E (queries w)); [reflexivity |].
  destruct (metadata_row E m); reflexivity.
Qed.

Lemma storeVideo_reliable (E : Env) (m : VideoMetadata) (w : World) :
  reliable E -> ready w -> valid_metadata E m = true ->
  exists w', storeVideo E m w = (Ok tt, w').
Proof.
  intros Hrel Hready Hvalid.
  destruct (ensure_pool_reliable E w Hrel Hready) as [w1 [H1 [Hp [Hv _]]]].
  unfold storeVideo. rewrite (ensure_pool_absorb E _ _ _ _ H1).
  fold (storeVideo E m).
  destruct (pool w1) as [p |] eqn:Hp1; [| congruence].
  destruct (videos (db w1)) as [t |] eqn:Hv1; [| congruence].
  rewrite (storeVideo_established E m w1 p t Hp1 Hv1).
  destruct Hrel as [_ Hq]. rewrite Hq.
  apply valid_metadata_row in Hvalid. destruct Hvalid as [r [Hr _]].
  rewrite Hr. eauto.
Qed.

Lemma call_established (E : Env) (c : Call) (w : World) :
  reliable E -> ready w -> established (call E c w).
Proof.
  intros Hrel Hready.
  destruct (ensure_pool_reliable E w Hrel Hready) as [w1 [H1 Hest]].
  destruct c as [| m | v t l | v | v | v a |]; simpl.
  - destruct (initializeDatabase_reliable E w Hrel) as [w' H]. rewrite H.
    apply initializeDatabase_Ok in H. exact H.
  - unfold storeVideo. rewrite (ensure_pool_absorb E _ _ _ _ H1).
    apply (call_stays_established E (CallStoreVideo m) w1 Hest).
  - unfold storeTranscript. rewrite (ensure_pool_absorb E _ _ _ _ H1).
    apply (call_stays_established E (CallStoreTranscript v t l) w1 Hest).
  - unfold getTranscript. rewrite (ensure_pool_absorb E _ _ _ _ H1).
    apply (call_stays_established E (CallGetTranscript v) w1 Hest).
  - unfold getVideoMetadata. rewrite (ensure_pool_absorb E _ _ _ _ H1).
    apply (call_stays_established E (CallGetVideoMetadata v) w1 Hest).
  - unfold storeAnalysis. rewrite (ensure_pool_absorb E _ _ _ _ H1).
    apply (call_stays_established E (CallStoreAnalysis v a) w1 Hest).
  - unfold getAllVideoIds. rewrite (ensure_pool_absorb E _ _ _ _ H1).
    apply (call_stays_established E CallGetAllVideoIds w1 Hest).
Qed.

Lemma history_ready (E : Env) (cs : list Call) (w : World) :
  reliable E -> ready w -> ready (history E cs w).
Proof.
  intros Hrel. revert w. induction cs as [| c cs IH]; intros w Hready; simpl;
    [exact Hready |].
  apply IH. apply established_ready. apply call_established; assumption.
Qed.

(* ------------------------------------------------------------------ *)
(** ** The sequence behind [transcript_id] *)

Lemma keeps_seq_bound_refl (w : World) : keeps_seq_bound w w.
Proof. intros H. exact H. Qed.

Lemma keeps_seq_bound_trans (w1 w2 w3 : World) :
  keeps_seq_bound w1 w2 -> keeps_seq_bound w2 w3 -> keeps_seq_bound w1 w3.
Proof. unfold keeps_seq_bound. auto. Qed.

Lemma keeps_seq_bound_emit (e : Event) : steps keeps_seq_bound (emit e).
Proof. intros w H. exact H. Qed.

Lemma keeps_seq_bound_connect (E : Env) : steps keeps_seq_bound (connect E).
Proof.
  intros w H. unfold connect.
  destruct (connect_error E (attempts w)); exact H.
Qed.

Lemma keeps_seq_bound_set_pool (p : nat) : steps keeps_seq_bound (set_pool p).
Proof. intros w H. exact H. Qed.

Lemma keeps_seq_bound_query (E : Env) (A : Type) (q : Sql) (stmt : Statement A) :
  keeps_seq stmt -> steps keeps_seq_bound (pool_query E q stmt).
Proof.
  intros Hq w Hb. unfold pool_query.
  destruct (pool w) as [p |]; [| exact Hb].
  destruct (query_error E (queries w)); [exact Hb |].
  specialize (Hq (db w) Hb). destruct (stmt (db w)) as [[e | a] d]; exact Hq.
Qed.

(** A statement that touches neither [transcripts] nor its sequence. *)
Lemma keeps_seq_untouched (A : Type) (stmt : Statement A) :
  (forall d, rows (transcripts (snd (stmt d))) = rows (transcripts d) /\
             transcripts_seq (snd (stmt d)) = transcripts_seq d) ->
  keeps_seq stmt.
Proof.
  intros H d Hb r Hin. destruct (H d) as [Hr Hs].
  rewrite Hs. apply Hb. rewrite <- Hr. exact Hin.
Qed.

Ltac untouched d :=
  apply keeps_seq_untouched; intros d.

Ltac fin :=
  simpl;
  repeat match goal with
         | H : ?x = _ |- context [?x] => rewrite H
         end;
  simpl; split; reflexivity.

Lemma keeps_seq_create_videos : keeps_seq create_videos.
Proof.
  untouched d. unfold create_videos.
  destruct (videos d) eqn:?; fin.
Qed.

Lemma keeps_seq_create_transcripts : keeps_seq create_transcripts.
Proof.
  untouched d. unfold create_transcripts.
  destruct (transcripts d) eqn:Ht; [| destruct (videos d) eqn:?]; simpl;
    rewrite ?Ht; split; reflexivity.
Qed.

Lemma keeps_seq_create_analysis : keeps_seq create_analysis.
Proof.
  untouched d. unfold create_analysis.
  destruct (analysis d) eqn:?; [| destruct (videos d) eqn:?]; simpl; split;
    reflexivity.
Qed.

Lemma keeps_seq_select_transcript (v : string) : keeps_seq (select_transcript v).
Proof.
  untouched d. unfold select_transcript.
  destruct (transcripts d) eqn:?; [destruct (text v) |]; fin.
Qed.

Lemma keeps_seq_select_video (v : string) : keeps_seq (select_video v).
Proof.
  untouched d. unfold select_video.
  destruct (videos d) eqn:?; [destruct (text v) |]; fin.
Qed.

Lemma keeps_seq_select_video_ids : keeps_seq select_video_ids.
Proof.
  untouched d. unfold select_video_ids. destruct (videos d) eqn:?; fin.
Qed.

Lemma keeps_seq_insert_video (E : Env) p1 p2 p3 p4 p5 p6 :
  keeps_seq (insert_video E p1 p2 p3 p4 p5 p6).
Proof.
  untouched d. unfold insert_video.
  destruct (videos d) eqn:?; [| fin].
  destruct (videos_row E p1 p2 p3 p4 p5 p6); fin.
Qed.

Lemma keeps_seq_insert_analysis p1 p2 p3 p4 p5 p6 p7 p8 p9 p10 p11 :
  keeps_seq (insert_analysis p1 p2 p3 p4 p5 p6 p7 p8 p9 p10 p11).
Proof.
  untouched d. unfold insert_analysis.
  destruct (analysis d) eqn:?; [| fin].
  destruct (analysis_row p1 p2 p3 p4 p5 p6 p7 p8 p9 p10 p11);
    [fin |].
  destruct (existsb _ _); [fin |].
  destruct (has_video _ _); fin.
Qed.

Lemma in_update_transcript_id (r x' : Transcripts.row) (t : list Transcripts.row) :
  In x' (update_transcript r t) ->
  exists x, In x t /\ Transcripts.transcript_id x' = Transcripts.transcript_id x.
Proof.
  unfold update_transcript. rewrite in_map_iff. intros [x [Heq Hin]].
  exists x. split; [exact Hin |].
  destruct (Transcripts.video_id x =? Transcripts.video_id r); subst; reflexivity.
Qed.

Lemma transcripts_row_id (n : Z) (p1 p2 p3 : option string) (r : Transcripts.row) :
  transcripts_row n p1 p2 p3 = inr r -> Transcripts.transcript_id r = n.
Proof. intros H. apply transcripts_row_inr in H. apply H. Qed.

Lemma keeps_seq_insert_transcript p1 p2 p3 :
  keeps_seq (insert_transcript p1 p2 p3).
Proof.
  intros d Hb. unfold insert_transcript.
  destruct (transcripts d) as [t |] eqn:Ht; [| exact Hb].
  assert (Hold : forall x, In x t ->
                   (Transcripts.transcript_id x <= transcripts_seq d + 1)%Z).
  { intros x Hin. unfold seq_bound in Hb. rewrite Ht in Hb.
    specialize (Hb x Hin). lia. }
  assert (Hsame : seq_bound (set_transcripts_seq (transcripts_seq d + 1) d)).
  { intros x Hin. simpl in *. rewrite Ht in Hin. apply Hold. exact Hin. }
  destruct (transcripts_values p1 p2 p3) as [e | [[q1 q2] q3]]; simpl;
    [exact Hb |].
  destruct (transcripts_row _ q1 q2 q3) as [e | r] eqn:Hr; simpl; [exact Hsame |].
  apply transcripts_row_id in Hr.
  destruct (existsb (fun x => Transcripts.video_id x =? _) t); simpl.
  - intros x Hin. simpl in *. apply in_update_transcript_id in Hin.
    destruct Hin as [x0 [Hin0 Heq]]. rewrite Heq. apply Hold. exact Hin0.
  - destruct (existsb _ t); simpl; [exact Hsame |].
    destruct (has_video _ _); simpl; [| exact Hsame].
    intros x Hin. simpl in *. apply in_app_iff in Hin.
    destruct Hin as [Hin | [Hin | []]]; [apply Hold; exact Hin |].
    subst x. rewrite Hr. lia.
Qed.

Create HintDb seq.

#[local] Hint Resolve keeps_seq_bound_refl keeps_seq_bound_trans
  keeps_seq_bound_query keeps_seq_bound_connect keeps_seq_bound_set_pool
  keeps_seq_create_videos keeps_seq_create_transcripts keeps_seq_create_analysis
  keeps_seq_select_transcript keeps_seq_select_video keeps_seq_select_video_ids
  keeps_seq_insert_video keeps_seq_insert_transcript keeps_seq_insert_analysis
  : seq.

#[local] Hint Extern 1 (steps keeps_seq_bound (safeLog _)) =>
  apply keeps_seq_bound_emit : seq.
#[local] Hint Extern 1 (steps keeps_seq_bound (sleep _)) =>
  apply keeps_seq_bound_emit : seq.

Lemma call_seq_bound (E : Env) (c : Call) (w : World) :
  seq_bound (db w) -> seq_bound (db (call E c w)).
Proof.
  change (keeps_seq_bound w (call E c w)).
  destruct c as [| m | v t l | v | v | v a |]; simpl.
  - apply (@steps_initializeDatabase E keeps_seq_bound (@keeps_seq));
      eauto with seq.
  - apply (@steps_storeVideo E keeps_seq_bound (@keeps_seq)); eauto with seq.
  - apply (@steps_storeTranscript E keeps_seq_bound (@keeps_seq)); eauto with seq.
  - apply (@steps_getTranscript E keeps_seq_bound (@keeps_seq)); eauto with seq.
  - apply (@steps_getVideoMetadata E keeps_seq_bound (@keeps_seq)); eauto with seq.
  - apply (@steps_storeAnalysis E keeps_seq_bound (@keeps_seq)); eauto with seq.
  - apply (@steps_getAllVideoIds E keeps_seq_bound (@keeps_seq)); eauto with seq.
Qed.

Lemma history_seq_bound (E : Env) (cs : list Call) (w : World) :
  seq_bound (db w) -> seq_bound (db (history E cs w)).
Proof.
  revert w. induction cs as [| c cs IH]; intros w Hb; simpl; [exact Hb |].
  apply IH. apply call_seq_bound. exact Hb.
Qed.

Lemma seq_bound_empty : seq_bound empty_db.
Proof. intros r []. Qed.

(* ------------------------------------------------------------------ *)
(** ** Reading back *)

Lemma getAllVideoIds_Ok (E : Env) (w w' : World) (ids : list string) :
  getAllVideoIds E w = (Ok ids, w') -> ids = video_ids (db w).
Proof.
  unfold getAllVideoIds. intros H.
  apply try_rethrow_Ok with (l := LVideoIdsFetchError) in H.
  apply bind_Ok in H. destruct H as [[] [w1 [H1 H]]].
  apply bind_Ok in H. destruct H as [result [w2 [H2 H]]].
  pose proof (ensure_pool_keeps_rows E w) as Hk. rewrite H1 in Hk.
  destruct Hk as [Hk _]. simpl in Hk.
  apply pool_query_Ok in H2. destruct H2 as [_ [_ [_ H2]]].
  unfold select_video_ids in H2.
  unfold ret in H. inversion H; subst. unfold video_ids. rewrite Hk.
  destruct (videos (db w1)); inversion H2; subst. reflexivity.
Qed.

Lemma getAllVideoIds_established (E : Env) (w : World) :
  established w -> query_error E (queries w) = None ->
  exists w', getAllVideoIds E w = (Ok (video_ids (db w)), w').
Proof.
  intros [Hp [Hv _]] Hq. unfold getAllVideoIds, try_catch. unfold bind at 1.
  rewrite ensure_pool_skip by exact Hp.
  unfold bind, pool_query, select_video_ids, ret, video_ids.
  destruct (pool w); [| congruence]. rewrite Hq.
  destruct (videos (db w)); [| congruence]. simpl. eauto.
Qed.

Lemma or_else_duration (duration : option Z) :
  or_else truthy_number (option_map Num duration) (Num 0)
  = match duration with Some z => Num z | None => Num 0 end.
Proof.
  destruct duration as [z |]; [| reflexivity]. unfold or_else. simpl.
  destruct (z =? 0)%Z eqn:Hz; simpl; [| reflexivity].
  apply Z.eqb_eq in Hz. subst z. reflexivity.
Qed.


Lemma filter_video_id_present (k : string) (t : list Videos.row) :
  In k (map Videos.video_id t) ->
  exists row rest,
    filter (fun x => Videos.video_id x =? k) t = row :: rest /\
    In row t /\ Videos.video_id row = k.
Proof.
  intros Hin. apply in_map_iff in Hin. destruct Hin as [x [Hx Hin]].
  assert (Hf : In x (filter (fun x => Videos.video_id x =? k) t)).
  { apply filter_In. split; [exact Hin |]. apply String.eqb_eq. exact Hx. }
  destruct (filter _ t) as [| row rest] eqn:Hfl; [destruct Hf |].
  exists row, rest. split; [reflexivity |].
  assert (Hrow : In row (filter (fun x => Videos.video_id x =? k) t)).
  { rewrite Hfl. left. reflexivity. }
  apply filter_In in Hrow. destruct Hrow as [Hrow Heq].
  apply String.eqb_eq in Heq. auto.
Qed.


(* ------------------------------------------------------------------ *)
(** ** Histories *)

Lemma wf_initial_world : wf_db (db initial_world).
Proof. apply wf_db_empty. Qed.

(** A [storeVideo] that returned has its identifier in the table from then
    on. *)
Lemma storeVideo_Ok_stored (E : Env) (m : VideoMetadata) (w w' : World) :
  storeVideo E m w = (Ok tt, w') ->
  In (video_key (VideoMetadata.id m)) (video_ids (db w')).
Proof.
  intros H. pose proof (storeVideo_outcome E m w) as Ho. rewrite H in Ho.
  destruct Ho as [r [Hr [Hv _]]]. unfold video_ids. rewrite Hv.
  apply in_upsert_video_ids. right.
  apply metadata_row_fields in Hr. destruct Hr as [Hid _]. congruence.
Qed.

Lemma history_stored_Ok (E : Env) (cs1 cs2 : list Call) (m : VideoMetadata)
    (w : World) :
  fst (storeVideo E m (history E cs1 w)) = Ok tt ->
  In (video_key (VideoMetadata.id m))
     (video_ids (db (history E (cs1 ++ CallStoreVideo m :: cs2) w))).
Proof.
  intros H. rewrite history_app. simpl.
  apply history_video_ids_grow.
  destruct (storeVideo E m (history E cs1 w)) as [o w'] eqn:Hs.
  simpl in H. subst o. simpl. eapply storeVideo_Ok_stored. exact Hs.
Qed.

Lemma history_stored (E : Env) (cs : list Call) (m : VideoMetadata) :
  reliable E -> In (CallStoreVideo m) cs -> valid_metadata E m = true ->
  In (video_key (VideoMetadata.id m))
     (video_ids (db (history E cs initial_world))).
Proof.
  intros Hrel Hin Hvalid. apply in_split in Hin. destruct Hin as [cs1 [cs2 Hcs]].
  subst cs. apply history_stored_Ok.
  destruct (storeVideo_reliable E m (history E cs1 initial_world)) as [w' H];
    [exact Hrel | | exact Hvalid |].
  - apply history_ready; [exact Hrel | apply ready_initial_world].
  - rewrite H. reflexivity.
Qed.

Lemma history_never_stored (E : Env) (cs : list Call) (v : string) :
  (forall m, In (CallStoreVideo m) cs -> video_key (VideoMetadata.id m) <> v) ->
  ~ In v (video_ids (db (history E cs initial_world))).
Proof.
  intros Hnever Hin. apply history_video_ids_origin in Hin.
  destruct Hin as [[] | [m [Hm Hid]]]. apply (Hnever m Hm Hid).
Qed.

(** Every call of a history first makes sure there is a pool, so under a
    reliable environment the world is established as soon as a call has
    been made; before any call the first one establishes it. *)
Lemma ensure_pool_history (E : Env) (cs : list Call) :
  reliable E ->
  exists w1,
    ensure_pool E (history E cs initial_world) = (Ok tt, w1) /\
    established w1 /\
    same_rows (db (history E cs initial_world)) (db w1).
Proof.
  intros Hrel.
  destruct (ensure_pool_reliable E (history E cs initial_world)) as [w1 [H1 He]].
  - exact Hrel.
  - apply history_ready; [exact Hrel | apply ready_initial_world].
  - exists w1. split; [exact H1 | split; [exact He |]].
    pose proof (ensure_pool_keeps_rows E (history E cs initial_world)) as Hk.
    rewrite H1 in Hk. exact Hk.
Qed.

(* ------------------------------------------------------------------ *)
(** ** Upsert, listing and lookup *)

Lemma reliable_calm : reliable calm.
Proof. split; intros n; reflexivity. Defined.

(** A valid record is stored under its own identifier. *)
Lemma valid_metadata_key (E : Env) (m : VideoMetadata) :
  valid_metadata E m = true ->
  video_key (VideoMetadata.id m) = VideoMetadata.id m.
Proof.
  intros H. apply valid_metadata_row in H. destruct H as [r [Hr Hid]].
  apply metadata_row_fields in Hr. destruct Hr as [Hk _]. congruence.
Qed.

(** Two stores under one key, in any world that keeps the primary key. *)
Lemma storeVideo_twice (E : Env) (m1 m2 : VideoMetadata) (w w1 w2 : World) :
  wf_db (db w) ->
  video_key (VideoMetadata.id m1) = video_key (VideoMetadata.id m2) ->
  storeVideo E m1 w = (Ok tt, w1) ->
  storeVideo E m2 w1 = (Ok tt, w2) ->
  exists r,
    metadata_row E m2 = inr r /\
    filter (fun x => Videos.video_id x =? video_key (VideoMetadata.id m2))
           (rows (videos (db w2))) = [r] /\
    video_ids (db w2) = video_ids (db w1).
Proof.
  intros Hwf Hid H1 H2.
  pose proof (storeVideo_wf E m1 w Hwf) as Hwf1. rewrite H1 in Hwf1.
  simpl in Hwf1. destruct Hwf1 as [Hnd _].
  pose proof (storeVideo_Ok_stored E m1 w w1 H1) as Hin. rewrite Hid in Hin.
  pose proof (storeVideo_outcome E m2 w1) as Ho. rewrite H2 in Ho.
  destruct Ho as [r [Hr [Hv _]]]. exists r. split; [exact Hr |].
  pose proof (metadata_row_fields E m2 r Hr) as [Hrid _].
  unfold video_ids in *. rewrite Hv, <- Hrid. split.
  - apply filter_upsert_video. exact Hnd.
  - rewrite upsert_video_ids.
    rewrite <- Hrid in Hin. apply existsb_video_id in Hin. rewrite Hin.
    reflexivity.
Qed.

(** What [x || null] leaves of a published date and of a duration. *)
Lemma or_null_published_date (publishedDate : option string) :
  or_null truthy_string publishedDate
  = match publishedDate with
    | Some s => if s =? "" then None else Some s
    | None => None
    end.
Proof.
  destruct publishedDate as [s |]; [| reflexivity].
  destruct s; reflexivity.
Qed.

Lemma or_null_duration (durationInSeconds : option number) (duration : option Z) :
  option_map Num duration = or_null truthy_number durationInSeconds ->
  duration
  = match durationInSeconds with
    | Some (Num z) => if (z =? 0)%Z then None else Some z
    | Some NaN => None
    | Some (Infinity _) => None
    | None => None
    end /\
  forall negative, durationInSeconds <> Some (Infinity negative).
Proof.
  destruct durationInSeconds as [[| z | negative] |]; unfold or_null; simpl.
  - destruct duration; [discriminate |]. split; [reflexivity | discriminate].
  - destruct (z =? 0)%Z; simpl; destruct duration as [d |]; simpl;
      try discriminate; intros H; inversion H;
      (split; [reflexivity | discriminate]).
  - destruct duration; discriminate.
  - destruct duration; [discriminate |]. split; [reflexivity | discriminate].
Qed.

(** C1, as it is stated, fails: the second of two valid records under one
    identifier gives an empty published date, a duration of 0 and a URL of
    its own, and the one row left holds none of the three: the date and
    the duration are NULL and the URL is the one derived from the
    identifier. *)
Lemma second_values_are_not_all_persisted :
  valid_metadata calm (clip "a1" "First") = true /\
  valid_metadata calm bare = true /\
  VideoMetadata.id (clip "a1" "First") = VideoMetadata.id bare /\
  VideoMetadata.publishedDate bare = Some "" /\
  VideoMetadata.durationInSeconds bare = Some (Num 0) /\
  VideoMetadata.url bare = Some "https://example.org/a1" /\
  exists w1 w2,
    storeVideo calm (clip "a1" "First") initial_world = (Ok tt, w1) /\
    storeVideo calm bare w1 = (Ok tt, w2) /\
    rows (videos (db w2))
    = [Videos.mk "a1" "Second take" None None None
         "https://youtube.com/watch?v=a1"].
Proof.
  repeat (split; [reflexivity |]).
  eexists. eexists. split; [vm_compute; reflexivity |].
  split; vm_compute; reflexivity.
Qed.

(** C1, amended.  [storeVideo] is an upsert keyed on the video
    identifier: when the database answers and two valid records with the
    same identifier are stored one after the other, in whatever state
    earlier calls have left, both calls return, the second adds no row,
    and exactly one row is found under the identifier.  That row holds the
    title and the description of the second record; its published date
    and its duration are those of the second record when they are given
    and truthy, and NULL when they are absent, the empty string, 0 or NaN;
    its URL is the one derived from the identifier, whatever URL the
    record gives. *)
Theorem storeVideo_upsert (E : Env) (cs : list Call) (m1 m2 : VideoMetadata) :
  reliable E ->
  valid_metadata E m1 = true ->
  valid_metadata E m2 = true ->
  VideoMetadata.id m1 = VideoMetadata.id m2 ->
  exists w1 w2 r,
    storeVideo E m1 (history E cs initial_world) = (Ok tt, w1) /\
    storeVideo E m2 w1 = (Ok tt, w2) /\
    video_ids (db w2) = video_ids (db w1) /\
    filter (fun x => Videos.video_id x =? VideoMetadata.id m2)
           (rows (videos (db w2))) = [r] /\
    Videos.video_id r = VideoMetadata.id m2 /\
    VideoMetadata.title m2 = Some (Videos.title r) /\
    Videos.description r = VideoMetadata.description m2 /\
    Videos.published_date r
      = match VideoMetadata.publishedDate m2 with
        | Some s => if s =? "" then None else Some s
        | None => None
        end /\
    Videos.duration_seconds r
      = match VideoMetadata.durationInSeconds m2 with
        | Some (Num z) => if (z =? 0)%Z then None else Some z
        | Some NaN => None
        | Some (Infinity _) => None
        | None => None
        end /\
    Videos.url r = "https://youtube.com/watch?v=" ++ VideoMetadata.id m2.
Proof.
  intros Hrel Hv1 Hv2 Hid.
  set (w := history E cs initial_world).
  assert (Hready : ready w).
  { apply history_ready; [exact Hrel | apply ready_initial_world]. }
  assert (Hwf : wf_db (db w)).
  { apply history_wf. apply wf_initial_world. }
  destruct (storeVideo_reliable E m1 w Hrel Hready Hv1) as [w1 H1].
  assert (Hready1 : ready w1).
  { apply established_ready.
    change w1 with (snd (Ok tt, w1)). rewrite <- H1.
    apply (call_established E (CallStoreVideo m1) w Hrel Hready). }
  destruct (storeVideo_reliable E m2 w1 Hrel Hready1 Hv2) as [w2 H2].
  assert (Hkey : video_key (VideoMetadata.id m1) = video_key (VideoMetadata.id m2))
    by (rewrite Hid; reflexivity).
  destruct (storeVideo_twice E m1 m2 w w1 w2 Hwf Hkey H1 H2) as [r [Hr [Hf Hids]]].
  rewrite (valid_metadata_key E m2 Hv2) in Hf.
  exists w1, w2, r.
  apply metadata_row_fields in Hr.
  destruct Hr as [Hk [Ht [Hd [Hp [Hdu Hu]]]]].
  rewrite (valid_metadata_key E m2 Hv2) in Hk.
  rewrite or_null_published_date in Hp.
  apply or_null_duration in Hdu. destruct Hdu as [Hdu _].
  split; [exact H1 |]. split; [exact H2 |]. split; [exact Hids |].
  split; [exact Hf |]. split; [exact Hk |]. split; [exact Ht |].
  split; [exact Hd |]. split; [exact Hp |]. split; [exact Hdu | exact Hu].
Qed.

Lemma storeVideo_upsert_witness :
  reliable calm /\
  valid_metadata calm (clip "a1" "First") = true /\
  valid_metadata calm bare = true /\
  VideoMetadata.id (clip "a1" "First") = VideoMetadata.id bare /\
  exists w1 w2 r,
    storeVideo calm (clip "a1" "First")
      (history calm [CallStoreVideo (clip "b2" "Other")] initial_world)
      = (Ok tt, w1) /\
    storeVideo calm bare w1 = (Ok tt, w2) /\
    video_ids (db w2) = video_ids (db w1) /\
    filter (fun x => Videos.video_id x =? "a1") (rows (videos (db w2))) = [r] /\
    Videos.video_id r = "a1" /\
    Some "Second take" = Some (Videos.title r) /\
    Videos.description r = None /\
    Videos.published_date r = None /\
    Videos.duration_seconds r = None /\
    Videos.url r = "https://youtube.com/watch?v=a1".
Proof.
  split; [exact reliable_calm |].
  split; [reflexivity |]. split; [reflexivity |]. split; [reflexivity |].
  exact (storeVideo_upsert calm [CallStoreVideo (clip "b2" "Other")]
           (clip "a1" "First") bare
           reliable_calm eq_refl eq_refl eq_refl).
Defined.

Lemma in_upsert_video_same_key (r x : Videos.row) (t : list Videos.row) :
  In x (upsert_video r t) -> Videos.video_id x = Videos.video_id r -> x = r.
Proof.
  unfold upsert_video. intros Hin Hk.
  destruct (existsb _ t) eqn:Hex.
  - apply in_map_iff in Hin. destruct Hin as [y [Hy Hin]].
    destruct (Videos.video_id y =? Videos.video_id r) eqn:Hyr.
    + apply String.eqb_eq in Hyr. subst x. rewrite Hyr.
      destruct r; reflexivity.
    + subst y. apply String.eqb_neq in Hyr. contradiction.
  - apply in_app_iff in Hin. destruct Hin as [Hin | [Hin | []]]; [| auto].
    exfalso.
    assert (Htrue : In (Videos.video_id r) (map Videos.video_id t)).
    { rewrite <- Hk. apply in_map. exact Hin. }
    apply existsb_video_id in Htrue. congruence.
Qed.

(** C9. The [url] column that [storeVideo] persists is
    ["https://youtube.com/watch?v="] followed by the identifier of the
    record; the [url] field of the record plays no part: the call does the
    same whatever that field holds.  The row is the one under the
    identifier as the [video_id] column keeps it. *)
Theorem storeVideo_url_is_canonical (E : Env) (w w' : World) (vid : string)
    (title description publishedDate : option string)
    (durationInSeconds viewCount : option number) (url url' : option string) :
  storeVideo E (VideoMetadata.mk vid title description publishedDate
                  durationInSeconds viewCount url) w = (Ok tt, w') ->
  storeVideo E (VideoMetadata.mk vid title description publishedDate
                  durationInSeconds viewCount url') w = (Ok tt, w') /\
  (exists r, In r (rows (videos (db w'))) /\ Videos.video_id r = video_key vid) /\
  (forall r, In r (rows (videos (db w'))) -> Videos.video_id r = video_key vid ->
             Videos.url r = "https://youtube.com/watch?v=" ++ vid) /\
  (char_length vid <= 255 -> video_key vid = vid).
Proof.
  intros H. split; [exact H |].
  match type of H with
  | storeVideo _ ?m _ = _ => pose proof (storeVideo_outcome E m w) as Ho
  end.
  rewrite H in Ho.
  destruct Ho as [r0 [Hr [Hv _]]].
  apply metadata_row_fields in Hr. simpl in Hr.
  destruct Hr as [Hid [_ [_ [_ [_ Hurl]]]]].
  split; [| split].
  - exists r0. split; [| exact Hid].
    rewrite Hv.
    assert (Hin : In (Videos.video_id r0)
                     (map Videos.video_id (upsert_video r0 (rows (videos (db w)))))).
    { apply in_upsert_video_ids. right. reflexivity. }
    apply in_map_iff in Hin. destruct Hin as [x [Hx Hin]].
    assert (Hxr : x = r0) by exact (in_upsert_video_same_key r0 x _ Hin Hx).
    subst x. exact Hin.
  - intros r Hin Hk. rewrite Hv in Hin.
    rewrite (in_upsert_video_same_key r0 r _ Hin); [exact Hurl | congruence].
  - apply video_key_short.
Qed.

Lemma storeVideo_url_is_canonical_witness :
  exists w',
    storeVideo calm (clip "a1" "First") initial_world = (Ok tt, w') /\
    storeVideo calm
      (VideoMetadata.mk "a1" (Some "First") (Some "A patient tells her story.")
         (Some "2024-01-15T10:00:00Z") (Some (Num 754)) (Some (Num 1200))
         (Some "https://example.org/elsewhere")) initial_world = (Ok tt, w') /\
    (exists r, In r (rows (videos (db w'))) /\ Videos.video_id r = "a1") /\
    (forall r, In r (rows (videos (db w'))) -> Videos.video_id r = "a1" ->
               Videos.url r = "https://youtube.com/watch?v=a1") /\
    (char_length "a1" <= 255 -> video_key "a1" = "a1").
Proof.
  eexists. split; [vm_compute; reflexivity |].
  apply (storeVideo_url_is_canonical calm initial_world _ "a1"
           (Some "First") (Some "A patient tells her story.")
           (Some "2024-01-15T10:00:00Z") (Some (Num 754)) (Some (Num 1200))
           (Some "https://www.youtube.com/watch?v=a1")
           (Some "https://example.org/elsewhere")).
  vm_compute. reflexivity.
Defined.

(** What the engine has checked of a record that [storeVideo] stored. *)
Lemma storeVideo_Ok_checked (E : Env) (m : VideoMetadata) (w w' : World) :
  storeVideo E m w = (Ok tt, w') ->
  has_nul (VideoMetadata.id m) = false /\
  all_spaces (after_chars 255 (VideoMetadata.id m)) = true.
Proof.
  intros H. pose proof (storeVideo_outcome E m w) as Ho. rewrite H in Ho.
  destruct Ho as [r [Hr _]]. apply metadata_row_checked in Hr. tauto.
Qed.

(** C6, as it is stated, fails: a [storeVideo] call that throws stores
    nothing, so its identifier is not listed.  Here the duration does not
    fit the INTEGER column. *)
Lemma refused_video_is_not_listed :
  exists w w',
    storeVideo calm endless initial_world
    = (Throw NumericValueOutOfRange, w) /\
    VideoMetadata.id endless = "c3" /\
    getAllVideoIds calm (history calm [CallStoreVideo endless] initial_world)
    = (Ok [], w').
Proof.
  eexists. eexists. split; [vm_compute; reflexivity |].
  split; vm_compute; reflexivity.
Qed.

(** C6, amended.  After any sequence of calls to the persistence layer,
    what [getAllVideoIds] returns is a list without duplicates that holds
    exactly the identifiers, as the [video_id] column keeps them, of the
    [storeVideo] calls that returned: the identifier of a call that threw
    is listed only when another call stored it.  When the database
    answers, [getAllVideoIds] does return and the identifier of every
    valid record that was passed to [storeVideo] is in its result. *)
Theorem getAllVideoIds_complete (E : Env) (cs : list Call) :
  (forall ids w',
      getAllVideoIds E (history E cs initial_world) = (Ok ids, w') ->
      NoDup ids /\
      forall k,
        In k ids <->
        exists cs1 m cs2,
          cs = (cs1 ++ CallStoreVideo m :: cs2)%list /\
          fst (storeVideo E m (history E cs1 initial_world)) = Ok tt /\
          video_key (VideoMetadata.id m) = k) /\
  (reliable E ->
   exists ids w',
     getAllVideoIds E (history E cs initial_world) = (Ok ids, w') /\
     NoDup ids /\
     forall m, In (CallStoreVideo m) cs -> valid_metadata E m = true ->
               In (VideoMetadata.id m) ids).
Proof.
  assert (Hnd : NoDup (video_ids (db (history E cs initial_world)))).
  { apply (history_wf E cs initial_world wf_initial_world). }
  split.
  - intros ids w' H. apply getAllVideoIds_Ok in H. subst ids.
    split; [exact Hnd |]. intros k. split.
    + apply history_video_ids_returned.
    + intros [cs1 [m [cs2 [Hcs [Hok Hk]]]]]. subst cs k.
      apply history_stored_Ok. exact Hok.
  - intros Hrel.
    destruct (ensure_pool_history E cs Hrel) as [w1 [H1 [Hest Hrows]]].
    destruct (getAllVideoIds_established E w1 Hest) as [w' H];
      [apply Hrel |].
    exists (video_ids (db (history E cs initial_world))), w'.
    split; [| split; [exact Hnd |]].
    + unfold getAllVideoIds. rewrite (ensure_pool_absorb E _ _ _ _ H1).
      fold (getAllVideoIds E). rewrite H. unfold video_ids.
      destruct Hrows as [Hr _]. rewrite Hr. reflexivity.
    + intros m Hin Hvalid. rewrite <- (valid_metadata_key E m Hvalid).
      apply history_stored; assumption.
Qed.

Lemma getAllVideoIds_complete_witness :
  reliable calm /\
  exists ids w',
    getAllVideoIds calm
      (history calm [CallStoreVideo (clip "a1" "First");
                     CallStoreVideo (clip "b2" "Second");
                     CallStoreVideo (clip "a1" "First again")] initial_world)
      = (Ok ids, w') /\
    NoDup ids /\ In "a1" ids /\ In "b2" ids.
Proof.
  split; [exact reliable_calm |].
  destruct (proj2 (getAllVideoIds_complete calm
                     [CallStoreVideo (clip "a1" "First");
                      CallStoreVideo (clip "b2" "Second");
                      CallStoreVideo (clip "a1" "First again")]) reliable_calm)
    as [ids [w' [H [Hnd Hin]]]].
  exists ids, w'. split; [exact H |]. split; [exact Hnd |]. split.
  - apply (Hin (clip "a1" "First")); [left; reflexivity | reflexivity].
  - apply (Hin (clip "b2" "Second")); [right; left; reflexivity | reflexivity].
Defined.




Lemma existsb_transcript_false (v : string) (t : list Transcripts.row) :
  (forall x, In x t -> Transcripts.video_id x <> v) ->
  existsb (fun x => Transcripts.video_id x =? v) t = false.
Proof.
  intros H. destruct (existsb _ t) eqn:Hex; [| reflexivity].
  apply existsb_transcript in Hex. destruct Hex as [x [Hin Hk]].
  exfalso. exact (H x Hin Hk).
Qed.

Lemma existsb_analysis_false (v : string) (t : list Analysis.row) :
  (forall x, In x t -> Analysis.video_id x <> v) ->
  existsb (fun x => Analysis.video_id x =? v) t = false.
Proof.
  intros H. destruct (existsb _ t) eqn:Hex; [| reflexivity].
  apply existsb_analysis in Hex. destruct Hex as [x [Hin Hk]].
  exfalso. exact (H x Hin Hk).
Qed.

Lemma existsb_transcript_id_fresh (n : Z) (t : list Transcripts.row) :
  (forall x, In x t -> (Transcripts.transcript_id x < n)%Z) ->
  existsb (fun x => (Transcripts.transcript_id x =? n)%Z) t = false.
Proof.
  intros H. destruct (existsb _ t) eqn:Hex; [| reflexivity].
  apply existsb_exists in Hex. destruct Hex as [x [Hin Hk]].
  apply Z.eqb_eq in Hk. specialize (H x Hin). lia.
Qed.

(** *** Values that fit *)

Lemma fits_true (n : nat) (s : string) :
  fits n s = true <->
  has_nul s = false /\ all_spaces (after_chars n s) = true.
Proof.
  unfold fits. rewrite andb_true_iff, negb_true_iff. reflexivity.
Qed.

Lemma text_fits_nullable (p : option string) :
  text_fits p = true -> nullable text p = inr p.
Proof.
  destruct p as [s |]; simpl; [| reflexivity].
  rewrite negb_true_iff. unfold text. intros H. rewrite H. reflexivity.
Qed.

Lemma json_fits_nullable (p : option Json) :
  json_fits p = true ->
  nullable jsonb (stringify_or_null p) = inr (stringify_or_null p).
Proof.
  unfold json_fits. destruct (stringify_or_null p) as [j |]; simpl;
    [| reflexivity].
  rewrite negb_true_iff. unfold jsonb. intros H. rewrite H. reflexivity.
Qed.

Lemma varchar_fits (n : nat) (s : string) :
  fits n s = true -> varchar n s = inr (first_chars n s).
Proof.
  intros H. apply fits_true in H. unfold varchar.
  destruct H as [_ H]. rewrite H. reflexivity.
Qed.

Lemma text_fits_inr (n : nat) (s : string) :
  fits n s = true -> text s = inr s.
Proof.
  intros H. apply fits_true in H. unfold text.
  destruct H as [H _]. rewrite H. reflexivity.
Qed.

Lemma transcripts_values_fits (v body lang : string) :
  fits 255 v = true -> has_nul body = false -> fits 10 lang = true ->
  transcripts_values (Some v) (Some body) (Some lang)
  = inr (Some (video_key v), Some body, Some (first_chars 10 lang)).
Proof.
  intros Hv Hb Hl. unfold transcripts_values, nullable.
  rewrite (text_fits_inr _ _ Hv). cbn [andThen].
  unfold text at 1. rewrite Hb. cbn [andThen].
  rewrite (text_fits_inr _ _ Hl). cbn [andThen].
  rewrite (varchar_fits _ _ Hv). cbn [andThen].
  rewrite (varchar_fits _ _ Hl). reflexivity.
Qed.

Lemma analysis_row_fits (v : string) (a : AnalysisResult) :
  fits 255 v = true -> analysis_fits a = true ->
  analysis_row
    (Some v)
    (AnalysisResult.video_type a) (AnalysisResult.name a)
    (AnalysisResult.age a) (AnalysisResult.sex a)
    (AnalysisResult.location a)
    (stringify_or_null (AnalysisResult.symptoms a))
    (stringify_or_null (AnalysisResult.medicalHistoryOfPatient a))
    (stringify_or_null (AnalysisResult.familyMedicalHistory a))
    (stringify_or_null (AnalysisResult.challengesFacedDuringDiagnosis a))
    (AnalysisResult.key_opinion a)
  = inr (Analysis.mk
           (video_key v)
           (AnalysisResult.video_type a) (AnalysisResult.name a)
           (AnalysisResult.age a) (AnalysisResult.sex a)
           (AnalysisResult.location a)
           (stringify_or_null (AnalysisResult.symptoms a))
           (stringify_or_null (AnalysisResult.medicalHistoryOfPatient a))
           (stringify_or_null (AnalysisResult.familyMedicalHistory a))
           (stringify_or_null (AnalysisResult.challengesFacedDuringDiagnosis a))
           (AnalysisResult.key_opinion a)).
Proof.
  intros Hv Ha. unfold analysis_fits in Ha.
  apply andb_true_iff in Ha. destruct Ha as [Ha F10].
  apply andb_true_iff in Ha. destruct Ha as [Ha F9].
  apply andb_true_iff in Ha. destruct Ha as [Ha F8].
  apply andb_true_iff in Ha. destruct Ha as [Ha F7].
  apply andb_true_iff in Ha. destruct Ha as [Ha F6].
  apply andb_true_iff in Ha. destruct Ha as [Ha F5].
  apply andb_true_iff in Ha. destruct Ha as [Ha F4].
  apply andb_true_iff in Ha. destruct Ha as [Ha F3].
  apply andb_true_iff in Ha. destruct Ha as [F1 F2].
  unfold analysis_row.
  rewrite (text_fits_nullable _ F1), (text_fits_nullable _ F2),
    (text_fits_nullable _ F3), (text_fits_nullable _ F4),
    (text_fits_nullable _ F5), (json_fits_nullable _ F6),
    (json_fits_nullable _ F7), (json_fits_nullable _ F8),
    (json_fits_nullable _ F9), (text_fits_nullable _ F10).
  unfold nullable. rewrite (text_fits_inr _ _ Hv). cbn [andThen].
  rewrite (varchar_fits _ _ Hv). reflexivity.
Qed.

(** What the database answers to a transcript for a video it does not
    hold, when the values fit their columns. *)
Lemma insert_transcript_unknown_video (v body lang : string) (d : Db) :
  transcripts d <> None -> wf_db d -> seq_bound d ->
  has_video (video_key v) d = false ->
  fits 255 v = true -> has_nul body = false -> fits 10 lang = true ->
  fst (insert_transcript (Some v) (Some body) (Some lang) d)
  = inl ForeignKeyViolation.
Proof.
  intros Ht [_ [Hfk _]] Hb Hno Hv Hbody Hl. unfold insert_transcript.
  destruct (transcripts d) as [t |] eqn:Htd; [| congruence].
  rewrite (transcripts_values_fits v body lang Hv Hbody Hl).
  cbn [transcripts_row andThen not_null Transcripts.video_id].
  rewrite existsb_transcript_false.
  - rewrite existsb_transcript_id_fresh.
    + change (has_video (video_key v)
                (set_transcripts_seq (transcripts_seq d + 1) d))
        with (has_video (video_key v) d).
      rewrite Hno. reflexivity.
    + intros x Hin. unfold seq_bound in Hb. try rewrite Htd in Hb.
      specialize (Hb x Hin). lia.
  - intros x Hin Hk. try rewrite Htd in Hfk. specialize (Hfk x Hin).
    rewrite Hk in Hfk. congruence.
Qed.

Lemma insert_analysis_unknown_video (v : string) (a : AnalysisResult) (d : Db) :
  analysis d <> None -> wf_db d ->
  has_video (video_key v) d = false ->
  fits 255 v = true -> analysis_fits a = true ->
  fst (insert_analysis
         (Some v)
         (AnalysisResult.video_type a) (AnalysisResult.name a)
         (AnalysisResult.age a) (AnalysisResult.sex a)
         (AnalysisResult.location a)
         (stringify_or_null (AnalysisResult.symptoms a))
         (stringify_or_null (AnalysisResult.medicalHistoryOfPatient a))
         (stringify_or_null (AnalysisResult.familyMedicalHistory a))
         (stringify_or_null (AnalysisResult.challengesFacedDuringDiagnosis a))
         (AnalysisResult.key_opinion a) d)
  = inl ForeignKeyViolation.
Proof.
  intros Ha [_ [_ Hfk]] Hno Hv Hfits. unfold insert_analysis.
  destruct (analysis d) as [t |] eqn:Had; [| congruence].
  rewrite (analysis_row_fits v a Hv Hfits). cbn [Analysis.video_id].
  rewrite existsb_analysis_false.
  - rewrite Hno. reflexivity.
  - intros x Hin Hk. try rewrite Had in Hfk. specialize (Hfk x Hin).
    rewrite Hk in Hfk. congruence.
Qed.

(** With a pool, a store is its statement: it throws what the statement
    is refused with. *)
Lemma storeTranscript_established (E : Env) (v : string) (t l : option string)
    (w : World) :
  pool w <> None -> query_error E (queries w) = None ->
  fst (storeTranscript E v t l w)
  = match fst (insert_transcript (Some v) t
                 (Some match l with Some l => l | None => "en" end) (db w)) with
    | inl e => Throw e
    | inr _ => Ok tt
    end.
Proof.
  intros Hp Hq. unfold storeTranscript, try_catch. unfold bind at 1.
  rewrite ensure_pool_skip by exact Hp.
  unfold bind, pool_query, safeLog, emit, throw.
  destruct (pool w); [| congruence]. rewrite Hq.
  destruct (insert_transcript _ _ _ (db w)) as [[e | []] d]; reflexivity.
Qed.

Lemma storeAnalysis_established (E : Env) (v : string) (a : AnalysisResult)
    (w : World) :
  pool w <> None -> query_error E (queries w) = None ->
  fst (storeAnalysis E v a w)
  = match fst (insert_analysis
                 (Some v)
                 (AnalysisResult.video_type a) (AnalysisResult.name a)
                 (AnalysisResult.age a) (AnalysisResult.sex a)
                 (AnalysisResult.location a)
                 (stringify_or_null (AnalysisResult.symptoms a))
                 (stringify_or_null (AnalysisResult.medicalHistoryOfPatient a))
                 (stringify_or_null (AnalysisResult.familyMedicalHistory a))
                 (stringify_or_null (AnalysisResult.challengesFacedDuringDiagnosis a))
                 (AnalysisResult.key_opinion a) (db w)) with
    | inl e => Throw e
    | inr _ => Ok tt
    end.
Proof.
  intros Hp Hq. unfold storeAnalysis, try_catch. unfold bind at 1.
  rewrite ensure_pool_skip by exact Hp.
  unfold bind, pool_query, safeLog, emit, throw.
  destruct (pool w); [| congruence]. rewrite Hq.
  destruct (insert_analysis _ _ _ _ _ _ _ _ _ _ _ (db w)) as [[e | []] d];
    reflexivity.
Qed.

(** C4, as it is stated, fails: the [video_id] columns keep 255
    characters and drop the spaces that follow them, so a video that was
    stored under an identifier of 255 characters and a space is known
    under the 255 characters, which were never passed to [storeVideo]:
    [storeTranscript] and [storeAnalysis] return for them. *)
Lemma padded_id_is_a_known_video :
  VideoMetadata.id (clip (long_id ++ " ") "First") <> long_id /\
  fst (storeVideo calm (clip (long_id ++ " ") "First") initial_world) = Ok tt /\
  fst (storeTranscript calm long_id (Some "Hello, my name is Maya.") None
         (history calm [CallStoreVideo (clip (long_id ++ " ") "First")]
            initial_world))
  = Ok tt /\
  fst (storeAnalysis calm long_id told
         (history calm [CallStoreVideo (clip (long_id ++ " ") "First")]
            initial_world))
  = Ok tt.
Proof.
  split; [intros H; vm_compute in H; discriminate |].
  split; [vm_compute; reflexivity |].
  split; vm_compute; reflexivity.
Qed.

(** C4, amended.  For a video identifier whose first 255 characters are
    those of no identifier that was passed to [storeVideo],
    [storeTranscript] and [storeAnalysis] throw and leave the rows of every
    table as they were; when the database answers and the values fit their
    columns, what they throw is the violation of the foreign key to
    [videos]. *)
Theorem store_for_unknown_video_fails (E : Env) (cs : list Call) (v : string)
    (transcript language : option string) (a : AnalysisResult) :
  (forall m, In (CallStoreVideo m) cs ->
             video_key (VideoMetadata.id m) <> video_key v) ->
  (exists e w',
      storeTranscript E v transcript language (history E cs initial_world)
      = (Throw e, w') /\
      same_rows (db (history E cs initial_world)) (db w')) /\
  (exists e w',
      storeAnalysis E v a (history E cs initial_world) = (Throw e, w') /\
      same_rows (db (history E cs initial_world)) (db w')) /\
  (reliable E -> fits 255 v = true ->
   (forall body,
       has_nul body = false ->
       fits 10 match language with Some l => l | None => "en" end = true ->
       fst (storeTranscript E v (Some body) language
              (history E cs initial_world)) = Throw ForeignKeyViolation) /\
   (analysis_fits a = true ->
    fst (storeAnalysis E v a (history E cs initial_world))
    = Throw ForeignKeyViolation)).
Proof.
  intros Hnever.
  set (w := history E cs initial_world).
  assert (Hwf : wf_db (db w)) by apply (history_wf E cs _ wf_initial_world).
  assert (Hno : has_video (video_key v) (db w) = false).
  { apply has_video_false. apply history_never_stored. exact Hnever. }
  split; [| split].
  - pose proof (storeTranscript_outcome E v transcript language w) as Ho.
    destruct (storeTranscript E v transcript language w) as [[[] | e | c] w'].
    + exfalso. destruct Ho as [_ [_ [r [Hr [[[x [Hin Hk]] _] | [Hhas _]]]]]].
      * destruct Hwf as [_ [Hfk _]]. specialize (Hfk x Hin).
        rewrite Hk in Hfk. congruence.
      * congruence.
    + exists e, w'. split; [reflexivity | exact Ho].
    + contradiction.
  - pose proof (storeAnalysis_outcome E v a w) as Ho.
    destruct (storeAnalysis E v a w) as [[[] | e | c] w'].
    + exfalso. destruct Ho as [_ [_ [r [_ [Hr [[[x [Hin Hk]] _] | [Hhas _]]]]]]].
      * destruct Hwf as [_ [_ Hfk]]. specialize (Hfk x Hin).
        rewrite Hk in Hfk. congruence.
      * congruence.
    + exists e, w'. split; [reflexivity | exact Ho].
    + contradiction.
  - intros Hrel Hlen.
    destruct (ensure_pool_history E cs Hrel) as [w1 [H1 [[Hp [_ [Ht Ha]]] Hrows]]].
    fold w in H1, Hrows.
    assert (Hwf1 : wf_db (db w1)) by exact (wf_db_same_rows _ _ Hrows Hwf).
    assert (Hno1 : has_video (video_key v) (db w1) = false).
    { rewrite (has_video_same_rows (video_key v) _ _ Hrows). exact Hno. }
    assert (Hb1 : seq_bound (db w1)).
    { assert (Hbw : seq_bound (db w))
        by exact (history_seq_bound E cs initial_world seq_bound_empty).
      assert (Hstep : keeps_seq_bound w (snd (ensure_pool E w))).
      { apply (@steps_ensure_pool E keeps_seq_bound (@keeps_seq));
          eauto with seq. }
      rewrite H1 in Hstep. exact (Hstep Hbw). }
    split.
    + intros body Hbody Hl. unfold storeTranscript.
      rewrite (ensure_pool_absorb E _ _ _ _ H1).
      fold (storeTranscript E v (Some body) language).
      rewrite (storeTranscript_established E v (Some body) language w1 Hp);
        [| apply Hrel].
      rewrite insert_transcript_unknown_video; auto.
    + intros Hfits. unfold storeAnalysis.
      rewrite (ensure_pool_absorb E _ _ _ _ H1).
      fold (storeAnalysis E v a).
      rewrite (storeAnalysis_established E v a w1 Hp); [| apply Hrel].
      rewrite insert_analysis_unknown_video; auto.
Qed.

Lemma store_for_unknown_video_fails_witness :
  (forall m, In (CallStoreVideo m) [CallStoreVideo (clip "a1" "First")] ->
             video_key (VideoMetadata.id m) <> video_key "zz9") /\
  fst (storeTranscript calm "zz9" (Some "Hello, my name is Maya.") None
         (history calm [CallStoreVideo (clip "a1" "First")] initial_world))
  = Throw ForeignKeyViolation /\
  fst (storeAnalysis calm "zz9" told
         (history calm [CallStoreVideo (clip "a1" "First")] initial_world))
  = Throw ForeignKeyViolation.
Proof.
  assert (H : forall m, In (CallStoreVideo m) [CallStoreVideo (clip "a1" "First")] ->
                        video_key (VideoMetadata.id m) <> video_key "zz9").
  { intros m [Hm | []]. inversion Hm. subst m. intros H. vm_compute in H.
    discriminate. }
  split; [exact H |].
  destruct (store_for_unknown_video_fails calm
              [CallStoreVideo (clip "a1" "First")] "zz9"
              (Some "Hello, my name is Maya.") None told H)
    as [_ [_ Hfk]].
  destruct (Hfk reliable_calm eq_refl) as [Ht Ha].
  split; [apply Ht; reflexivity | apply Ha; reflexivity].
Defined.

(* ------------------------------------------------------------------ *)
(** ** Null at the storage boundary *)

Lemma in_upsert_video_self (r : Videos.row) (t : list Videos.row) :
  In r (upsert_video r t).
Proof.
  assert (Hin : In (Videos.video_id r) (map Videos.video_id (upsert_video r t))).
  { apply in_upsert_video_ids. right. reflexivity. }
  apply in_map_iff in Hin. destruct Hin as [x [Hx Hin]].
  assert (Hxr : x = r) by exact (in_upsert_video_same_key r x t Hin Hx).
  subst x. exact Hin.
Qed.

Lemma in_update_analysis_self (r : Analysis.row) (t : list Analysis.row) :
  (exists x, In x t /\ Analysis.video_id x = Analysis.video_id r) ->
  In r (update_analysis r t).
Proof.
  intros [x [Hin Hk]]. unfold update_analysis. apply in_map_iff.
  exists x. split; [| exact Hin].
  rewrite Hk, String.eqb_refl. destruct r; reflexivity.
Qed.

Lemma analysis_row_fields (v : string) p2 p3 p4 p5 p6 p7 p8 p9 p10 p11
    (r : Analysis.row) :
  analysis_row (Some v) p2 p3 p4 p5 p6 p7 p8 p9 p10 p11 = inr r ->
  r = Analysis.mk (video_key v) p2 p3 p4 p5 p6 p7 p8 p9 p10 p11.
Proof.
  intros H. pose proof (analysis_row_video_id _ _ _ _ _ _ _ _ _ _ _ _ H) as Hk.
  apply analysis_row_inr in H. destruct H as [_ [H _]].
  rewrite Hk in H. exact H.
Qed.

Lemma getVideoMetadata_Ok (E : Env) (v : string) (w w' : World)
    (m : ReadMetadata) :
  getVideoMetadata E v w = (Ok (Some m), w') ->
  exists row,
    In row (rows (videos (db w))) /\
    Videos.video_id row = v /\
    m = read_row row.
Proof.
  unfold getVideoMetadata. intros H.
  apply try_rethrow_Ok with (l := LMetadataFetchError v) in H.
  apply bind_Ok in H. destruct H as [[] [w1 [H1 H]]].
  apply bind_Ok in H. destruct H as [result [w2 [H2 H]]].
  pose proof (ensure_pool_keeps_rows E w) as Hk. rewrite H1 in Hk.
  destruct Hk as [Hk _]. simpl in Hk.
  apply pool_query_Ok in H2. destruct H2 as [_ [_ [_ H2]]].
  unfold select_video in H2.
  destruct (videos (db w1)) as [t |] eqn:Hv; [| inversion H2].
  destruct (text v) as [e | v'] eqn:Htext; inversion H2; subst. clear H2.
  apply text_inr in Htext. destruct Htext as [Hv' _]. subst v'.
  destruct (filter _ t) as [| row rest] eqn:Hf; unfold ret in H;
    inversion H; subst.
  assert (Hin : In row (filter (fun x => Videos.video_id x =? v) t)).
  { rewrite Hf. left. reflexivity. }
  apply filter_In in Hin. destruct Hin as [Hin Heq].
  apply String.eqb_eq in Heq.
  exists row. split; [rewrite Hk; exact Hin |]. split; [exact Heq |].
  unfold read_row, date_or_empty. rewrite or_else_duration. reflexivity.
Qed.

(** C2, as it is stated, fails: a published date that is present but empty
    and a duration that is present but zero are stored as null, while an
    empty description is stored as it is. *)
Lemma falsy_fields_are_stored_as_null :
  exists w',
    storeVideo calm
      (VideoMetadata.mk "a1" (Some "First") (Some "") (Some "") (Some (Num 0))
         (Some (Num 0)) (Some "https://www.youtube.com/watch?v=a1"))
      initial_world = (Ok tt, w') /\
    rows (videos (db w'))
    = [Videos.mk "a1" "First" (Some "") None None "https://youtube.com/watch?v=a1"].
Proof. eexists. split; vm_compute; reflexivity. Qed.

(** C2, amended.  In a row written by [storeVideo] the description is the
    one given (null exactly when absent), the published date and the
    duration are null exactly when they are absent or falsy in the record
    (an empty string; zero or NaN) and otherwise the values given, and the
    published date is never an empty string.  In a row written by
    [storeAnalysis] the six text columns are the values given (null exactly
    when absent) and the four JSON columns are null exactly when the field
    is absent or falsy, and otherwise the value given.  The title is always
    there and the URL is the one derived from the identifier.  The defaults
    (empty string, zero) appear only in what [getVideoMetadata] reads
    back. *)
Theorem null_when_absent_or_falsy (E : Env) :
  (forall m w w',
      storeVideo E m w = (Ok tt, w') ->
      exists r,
        In r (rows (videos (db w'))) /\
        Videos.video_id r = video_key (VideoMetadata.id m) /\
        VideoMetadata.title m = Some (Videos.title r) /\
        Videos.description r = VideoMetadata.description m /\
        Videos.published_date r
          = or_null truthy_string (VideoMetadata.publishedDate m) /\
        option_map Num (Videos.duration_seconds r)
          = or_null truthy_number (VideoMetadata.durationInSeconds m) /\
        Videos.url r = "https://youtube.com/watch?v=" ++ VideoMetadata.id m /\
        Videos.published_date r <> Some "") /\
  (forall v a w w',
      storeAnalysis E v a w = (Ok tt, w') ->
      In (Analysis.mk (video_key v)
            (AnalysisResult.video_type a) (AnalysisResult.name a)
            (AnalysisResult.age a) (AnalysisResult.sex a)
            (AnalysisResult.location a)
            (or_null truthy_json (AnalysisResult.symptoms a))
            (or_null truthy_json (AnalysisResult.medicalHistoryOfPatient a))
            (or_null truthy_json (AnalysisResult.familyMedicalHistory a))
            (or_null truthy_json (AnalysisResult.challengesFacedDuringDiagnosis a))
            (AnalysisResult.key_opinion a))
         (rows (analysis (db w')))) /\
  (forall v w w' m,
      getVideoMetadata E v w = (Ok (Some m), w') ->
      exists row,
        In row (rows (videos (db w))) /\
        ReadMetadata.publishedDate m
          = match Videos.published_date row with
            | Some literal => DateOf literal
            | None => TextOf ""
            end /\
        ReadMetadata.durationInSeconds m
          = match Videos.duration_seconds row with
            | Some z => Num z
            | None => Num 0
            end).
Proof.
  split; [| split].
  - intros m w w' H.
    pose proof (storeVideo_outcome E m w) as Ho. rewrite H in Ho.
    destruct Ho as [r [Hr [Hv _]]]. exists r.
    split; [rewrite Hv; apply in_upsert_video_self |].
    apply metadata_row_fields in Hr.
    destruct Hr as [Hid [Ht [Hd [Hp [Hdu Hu]]]]].
    repeat split; try assumption.
    rewrite Hp. unfold or_null.
    destruct (VideoMetadata.publishedDate m) as [s |]; [| discriminate].
    destruct (truthy_string s) eqn:Hs; [| discriminate].
    intros Heq. inversion Heq; subst. discriminate.
  - intros v a w w' H.
    pose proof (storeAnalysis_outcome E v a w) as Ho. rewrite H in Ho.
    destruct Ho as [_ [_ [r [Hr [Hk Hcase]]]]].
    apply analysis_row_fields in Hr. unfold stringify_or_null in Hr.
    rewrite <- Hr.
    destruct Hcase as [[[x [Hin Hx]] Hrows] | [_ Hrows]]; rewrite Hrows.
    + apply in_update_analysis_self. exists x. split; [exact Hin | congruence].
    + apply in_app_iff. right. left. reflexivity.
  - intros v w w' m H. apply getVideoMetadata_Ok in H.
    destruct H as [row [Hin [_ Hm]]]. exists row. subst m. simpl. auto.
Qed.

Lemma null_when_absent_or_falsy_witness :
  exists w' w'',
    storeVideo calm (clip "a1" "First") initial_world = (Ok tt, w') /\
    (exists r,
        In r (rows (videos (db w'))) /\
        Videos.video_id r = "a1" /\
        Some "First" = Some (Videos.title r) /\
        Videos.description r = Some "A patient tells her story." /\
        Videos.published_date r = Some "2024-01-15T10:00:00Z" /\
        option_map Num (Videos.duration_seconds r) = Some (Num 754) /\
        Videos.url r = "https://youtube.com/watch?v=a1" /\
        Videos.published_date r <> Some "") /\
    storeAnalysis calm "a1" told w' = (Ok tt, w'') /\
    In (Analysis.mk "a1" (Some "patient story") (Some "Maya") (Some "34") None None
          (Some (JArr [JStr "fatigue"; JStr "joint pain"])) (Some (JArr []))
          None None (Some "Ask for a second opinion."))
       (rows (analysis (db w''))).
Proof.
  eexists. eexists.
  assert (H1 : storeVideo calm (clip "a1" "First") initial_world
               = (Ok tt, snd (storeVideo calm (clip "a1" "First") initial_world)))
    by (vm_compute; reflexivity).
  assert (H2 : storeAnalysis calm "a1" told
                 (snd (storeVideo calm (clip "a1" "First") initial_world))
               = (Ok tt, snd (storeAnalysis calm "a1" told
                   (snd (storeVideo calm (clip "a1" "First") initial_world)))))
    by (vm_compute; reflexivity).
  split; [exact H1 |].
  split; [exact (proj1 (null_when_absent_or_falsy calm) _ _ _ H1) |].
  split; [exact H2 |].
  exact (proj1 (proj2 (null_when_absent_or_falsy calm)) _ _ _ _ H2).
Defined.

(* ------------------------------------------------------------------ *)
(** ** Creating the pool *)

Lemma adds_refl (P : Event -> bool) (w : World) : adds P w w.
Proof. exists []. split; [symmetry; apply app_nil_r | reflexivity]. Qed.

Lemma adds_trans (P : Event -> bool) (w1 w2 w3 : World) :
  adds P w1 w2 -> adds P w2 w3 -> adds P w1 w3.
Proof.
  intros [e1 [H1 F1]] [e2 [H2 F2]]. exists (e1 ++ e2)%list. split.
  - rewrite H2, H1. symmetry. apply app_assoc.
  - rewrite forallb_app, F1, F2. reflexivity.
Qed.

Lemma adds_emit (P : Event -> bool) (e : Event) :
  P e = true -> steps (adds P) (emit e).
Proof.
  intros He w. exists [e]. split; [reflexivity |]. simpl. rewrite He. reflexivity.
Qed.

Ltac attempt_case k H :=
  exists k; eexists;
  split; [lia |];
  split; [simpl; rewrite <- !app_assoc; reflexivity |];
  split; [reflexivity |];
  split;
  [ intros j Hj;
    destruct j as [| [| [| [| j]]]]; try lia;
    rewrite ?Nat.add_succ_r, ?Nat.add_0_r; congruence
  | simpl; rewrite ?Nat.add_succ_r, ?Nat.add_0_r, H; auto ].

(** [connectWithRetry], with the arguments that [initializeDatabase]
    leaves at their defaults, makes between one and five connection
    attempts and sleeps 2000 ms between one attempt and the next, and does
    nothing else to its surroundings but log.  It stops at the first attempt
    that is answered and returns the pool of that attempt; when the fifth
    attempt fails too it throws the error of that attempt. *)
Lemma connectWithRetry_five_attempts (E : Env) (w : World) :
  exists k evs,
    (1 <= k <= 5)%nat /\
    trace (snd (connectWithRetry E 5 2000 w)) = (trace w ++ evs)%list /\
    filter is_connecting evs = attempts_apart 2000 k (attempts w) /\
    (forall j, (j < k - 1)%nat -> connect_error E (attempts w + j) <> None) /\
    match connect_error E (attempts w + (k - 1)) with
    | None =>
        fst (connectWithRetry E 5 2000 w) = Ok (attempts w + (k - 1))%nat
    | Some msg =>
        k = 5%nat /\
        fst (connectWithRetry E 5 2000 w) = Throw (ConnectionError msg)
    end.
Proof.
  unfold connectWithRetry, connectLoop, try_catch, bind, safeLog, sleep, emit,
    connect, throw, ret. simpl.
  destruct (connect_error E (attempts w)) as [m0 |] eqn:H0; simpl;
    [| attempt_case 1%nat H0].
  destruct (connect_error E (S (attempts w))) as [m1 |] eqn:H1; simpl;
    [| attempt_case 2%nat H1].
  destruct (connect_error E (S (S (attempts w)))) as [m2 |] eqn:H2; simpl;
    [| attempt_case 3%nat H2].
  destruct (connect_error E (S (S (S (attempts w))))) as [m3 |] eqn:H3; simpl;
    [| attempt_case 4%nat H3].
  destruct (connect_error E (S (S (S (S (attempts w)))))) as [m4 |] eqn:H4; simpl;
    attempt_case 5%nat H4.
Qed.

(** On first access [initializeDatabase] keeps the pool that
    [connectWithRetry] returns, and throws what it throws. *)
Lemma pool_kept_query (E : Env) (A : Type) (q : Sql) (stmt : Statement A) :
  True -> steps pool_kept (pool_query E q stmt).
Proof.
  intros _ w. unfold pool_query, pool_kept.
  destruct (pool w) eqn:Hp; [| exact Hp].
  destruct (query_error E (queries w)); [reflexivity |].
  destruct (stmt (db w)) as [[e | a] d]; reflexivity.
Qed.

Lemma pool_kept_connectLoop (E : Env) (fuel retries : nat) (ms : Z) (attempt : nat) :
  steps pool_kept (connectLoop E fuel retries ms attempt).
Proof.
  apply steps_connectLoop.
  - intros w. reflexivity.
  - intros w1 w2 w3 H1 H2. unfold pool_kept in *. congruence.
  - intros m w. reflexivity.
  - intros w. unfold connect, pool_kept.
    destruct (connect_error E (attempts w)); reflexivity.
  - intros ms' w. reflexivity.
Qed.

Lemma initializeDatabase_first_access (E : Env) (w : World) :
  pool w = None ->
  match fst (connectWithRetry E 5 2000 w) with
  | Ok newPool => pool (snd (initializeDatabase E w)) = Some newPool
  | Throw e =>
      fst (initializeDatabase E w) = Throw e /\
      pool (snd (initializeDatabase E w)) = None
  | Exit _ => False
  end.
Proof.
  intros Hp.
  remember (initializeDatabase E w) as r eqn:Hr.
  unfold initializeDatabase, try_catch in Hr.
  unfold bind at 1 in Hr. unfold get_pool at 1 in Hr. rewrite Hp in Hr.
  unfold bind at 1 in Hr. unfold bind at 1 in Hr.
  pose proof (pool_kept_connectLoop E 5 5 2000 0 w) as Hk.
  pose proof (returns_or_throws_connectLoop E 5 5 2000 0 w) as Hx.
  fold (connectWithRetry E 5 2000) in Hk, Hx.
  destruct (connectWithRetry E 5 2000 w) as [[newPool | e | c] w1];
    simpl in Hk, Hx, Hr |- *.
  - match type of Hr with
    | context [bind ?m ?k ?w2] =>
        assert (Htail : pool_kept w2 (snd (bind m k w2)));
          [| destruct (bind m k w2) as [[[] | e | c] w3]; subst r;
             simpl in Htail |- *; exact Htail]
    end.
    apply steps_bind.
    + intros w1' w2' w3' H1 H2. unfold pool_kept in *. congruence.
    + apply pool_kept_query. exact I.
    + intros _. apply steps_bind.
      * intros w1' w2' w3' H1 H2. unfold pool_kept in *. congruence.
      * apply pool_kept_query. exact I.
      * intros _. apply steps_bind.
        -- intros w1' w2' w3' H1 H2. unfold pool_kept in *. congruence.
        -- apply pool_kept_query. exact I.
        -- intros _ w'. reflexivity.
  - subst r. simpl. split; [reflexivity |]. unfold pool_kept in Hk. congruence.
  - apply (Hx c). reflexivity.
Qed.

(** After the pool is there [initializeDatabase] makes no connection
    attempt and waits for none. *)
Lemma settled_query (E : Env) (A : Type) (q : Sql) (stmt : Statement A) :
  steps (adds not_connecting) (pool_query E q stmt).
Proof.
  intros w. unfold pool_query.
  destruct (pool w); [| apply adds_refl].
  destruct (query_error E (queries w));
    [| destruct (stmt (db w)) as [[e | a] d]];
    exists [EvQuery q]; split; reflexivity.
Qed.

Lemma adds_not_connecting (w w' : World) :
  adds not_connecting w w' ->
  exists evs, trace w' = (trace w ++ evs)%list /\ filter is_connecting evs = [].
Proof.
  intros [evs [Ht Hf]]. exists evs. split; [exact Ht |].
  clear Ht. induction evs as [| e evs IH]; [reflexivity |].
  simpl in Hf. apply andb_true_iff in Hf. destruct Hf as [He Hf].
  unfold not_connecting in He. apply negb_true_iff in He.
  simpl. rewrite He. apply IH. exact Hf.
Qed.

Lemma initializeDatabase_first_access_trace (E : Env) (w : World) :
  pool w = None ->
  adds not_connecting (snd (connectWithRetry E 5 2000 w))
                      (snd (initializeDatabase E w)).
Proof.
  intros Hp. unfold initializeDatabase, try_catch. unfold bind at 1.
  unfold get_pool at 1. rewrite Hp.
  unfold bind at 1. unfold bind at 1.
  destruct (connectWithRetry E 5 2000 w) as [[newPool | e | c] w1];
    cbn [fst snd].
  - change (adds not_connecting w1
              (snd (try_catch
                      (set_pool newPool ;;
                       pool_query E CreateVideos create_videos ;;
                       pool_query E CreateTranscripts create_transcripts ;;
                       pool_query E CreateAnalysis create_analysis ;;
                       safeLog LDbInitialized)
                      (fun e => safeLog (LDbInitError e) ;; throw e) w1))).
    generalize w1.
    change (steps (adds not_connecting)
              (try_catch
                 (set_pool newPool ;;
                  pool_query E CreateVideos create_videos ;;
                  pool_query E CreateTranscripts create_transcripts ;;
                  pool_query E CreateAnalysis create_analysis ;;
                  safeLog LDbInitialized)
                 (fun e => safeLog (LDbInitError e) ;; throw e))).
    assert (Hlog : forall m, steps (adds not_connecting) (safeLog m)).
    { intros m. apply adds_emit. reflexivity. }
    apply steps_try_catch; [apply adds_trans | |].
    + apply steps_bind; [apply adds_trans | |].
      * intros w'. exists []. split; [symmetry; apply app_nil_r | reflexivity].
      * intros _. apply steps_bind; [apply adds_trans | apply settled_query |].
        intros _. apply steps_bind; [apply adds_trans | apply settled_query |].
        intros _. apply steps_bind; [apply adds_trans | apply settled_query |].
        intros _. apply Hlog.
    + intros e. apply steps_bind; [apply adds_trans | apply Hlog |].
      intros _ w'. apply adds_refl.
  - exists [EvLog (LDbInitError e)]. split; reflexivity.
  - apply adds_refl.
Qed.

(** C8. The pool is created on first access, by [initializeDatabase] when
    the module has no pool, which is also what every other function of the
    module then begins with.  It makes between one and five connection
    attempts and waits 2000 ms between one attempt and the next, and makes
    no other attempt and no other wait.  It stops at the first attempt that
    is answered and keeps the pool of that attempt; when the fifth attempt
    fails too it throws the connection error of that attempt and the
    module is left without a pool. *)
Theorem pool_creation_on_first_access (E : Env) (w : World) :
  pool w = None ->
  ensure_pool E w = initializeDatabase E w /\
  exists k evs,
    (1 <= k <= 5)%nat /\
    trace (snd (initializeDatabase E w)) = (trace w ++ evs)%list /\
    filter is_connecting evs = attempts_apart 2000 k (attempts w) /\
    (forall j, (j < k - 1)%nat -> connect_error E (attempts w + j) <> None) /\
    match connect_error E (attempts w + (k - 1)) with
    | None =>
        pool (snd (initializeDatabase E w)) = Some (attempts w + (k - 1))%nat
    | Some msg =>
        k = 5%nat /\
        fst (initializeDatabase E w) = Throw (ConnectionError msg) /\
        pool (snd (initializeDatabase E w)) = None
    end.
Proof.
  intros Hp. split.
  { unfold ensure_pool, bind, get_pool. rewrite Hp. reflexivity. }
  destruct (connectWithRetry_five_attempts E w)
    as [k [evs [Hk [Htr [Hf [Hfail Hlast]]]]]].
  destruct (adds_not_connecting _ _ (initializeDatabase_first_access_trace E w Hp))
    as [evs' [Htr' Hf']].
  pose proof (initializeDatabase_first_access E w Hp) as Hfirst.
  exists k, (evs ++ evs')%list.
  split; [exact Hk |].
  split; [rewrite Htr', Htr; symmetry; apply app_assoc |].
  split; [rewrite filter_app, Hf, Hf'; apply app_nil_r |].
  split; [exact Hfail |].
  destruct (connect_error E (attempts w + (k - 1))) as [msg |].
  - destruct Hlast as [Hk5 Hthrow]. rewrite Hthrow in Hfirst.
    split; [exact Hk5 | exact Hfirst].
  - rewrite Hlast in Hfirst. exact Hfirst.
Qed.

Lemma pool_creation_on_first_access_witness :
  pool initial_world = None /\
  trace (snd (initializeDatabase slow_start initial_world))
  = [EvLog (LConnecting 1 5); EvConnect 0;
     EvLog (LConnectFailed 1 5 "ECONNREFUSED"); EvSleep 2000;
     EvLog (LConnecting 2 5); EvConnect 1;
     EvLog (LConnectFailed 2 5 "ECONNREFUSED"); EvSleep 2000;
     EvLog (LConnecting 3 5); EvConnect 2;
     EvLog (LConnectFailed 3 5 "ECONNREFUSED"); EvSleep 2000;
     EvLog (LConnecting 4 5); EvConnect 3;
     EvLog (LConnectFailed 4 5 "ECONNREFUSED"); EvSleep 2000;
     EvLog (LConnecting 5 5); EvConnect 4; EvLog LConnected;
     EvQuery CreateVideos; EvQuery CreateTranscripts; EvQuery CreateAnalysis;
     EvLog LDbInitialized] /\
  pool (snd (initializeDatabase slow_start initial_world)) = Some 4%nat /\
  exists k evs,
    (1 <= k <= 5)%nat /\
    trace (snd (initializeDatabase slow_start initial_world))
    = (trace initial_world ++ evs)%list /\
    filter is_connecting evs = attempts_apart 2000 k (attempts initial_world).
Proof.
  split; [reflexivity |].
  split; [vm_compute; reflexivity |].
  split; [vm_compute; reflexivity |].
  destruct (pool_creation_on_first_access slow_start initial_world eq_refl)
    as [_ [k [evs [Hk [Htr [Hf _]]]]]].
  exists k, evs. split; [exact Hk |]. split; [exact Htr | exact Hf].
Defined.

Example connectWithRetry_slow_start :
  fst (connectWithRetry slow_start 5 2000 initial_world) = Ok 4%nat /\
  filter is_connecting
         (trace (snd (connectWithRetry slow_start 5 2000 initial_world)))
  = [EvConnect 0; EvSleep 2000; EvConnect 1; EvSleep 2000; EvConnect 2;
     EvSleep 2000; EvConnect 3; EvSleep 2000; EvConnect 4].
Proof. split; reflexivity. Qed.

(* ------------------------------------------------------------------ *)
(** ** The command line *)

(** *** Events that are not calls of the fetch service *)

Lemma no_fetch_connect (E : Env) : steps (adds no_fetch) (connect E).
Proof.
  intros w. unfold connect.
  destruct (connect_error E (attempts w)); exists [EvConnect (attempts w)];
    split; reflexivity.
Qed.

Lemma no_fetch_set_pool (p : nat) : steps (adds no_fetch) (set_pool p).
Proof.
  intros w. exists []. split; [symmetry; apply app_nil_r | reflexivity].
Qed.

Lemma no_fetch_query (E : Env) (A : Type) (q : Sql) (stmt : Statement A) :
  True -> steps (adds no_fetch) (pool_query E q stmt).
Proof.
  intros _ w. unfold pool_query.
  destruct (pool w); [| apply adds_refl].
  destruct (query_error E (queries w));
    [| destruct (stmt (db w)) as [[e | a] d]];
    exists [EvQuery q]; split; reflexivity.
Qed.

Lemma no_fetch_writeFile (E : Env) (path : string) (content : FileContent) :
  steps (adds no_fetch) (writeFile E path content).
Proof.
  intros w. unfold writeFile, bind, emit.
  destruct (writeFile_error E path);
    exists [EvWriteFile path content]; split; reflexivity.
Qed.

Lemma no_fetch_stdout_write (data : VideoMetadata) :
  steps (adds no_fetch) (stdout_write data).
Proof.
  intros w. unfold stdout_write.
  exists [EvStdout data]; split; reflexivity.
Qed.

Lemma no_fetch_log (m : LogMsg) : steps (adds no_fetch) (safeLog m).
Proof. apply adds_emit. reflexivity. Qed.

Lemma no_fetch_sleep (ms : Z) : steps (adds no_fetch) (sleep ms).
Proof. apply adds_emit. reflexivity. Qed.

Create HintDb fetch.

#[local] Hint Resolve adds_refl adds_trans no_fetch_connect no_fetch_set_pool
  no_fetch_query no_fetch_writeFile no_fetch_stdout_write no_fetch_log
  no_fetch_sleep : fetch.

#[local] Hint Extern 1 (steps (adds no_fetch) (emit _)) =>
  apply adds_emit; reflexivity : fetch.

Lemma no_fetch_initializeDatabase (E : Env) :
  steps (adds no_fetch) (initializeDatabase E).
Proof.
  apply (@steps_initializeDatabase E (adds no_fetch) (fun _ _ => True));
    eauto with fetch.
Qed.

Lemma no_fetch_storeVideo (E : Env) (m : VideoMetadata) :
  steps (adds no_fetch) (storeVideo E m).
Proof.
  apply (@steps_storeVideo E (adds no_fetch) (fun _ _ => True));
    eauto with fetch.
Qed.

Lemma no_fetch_collect (videos outputData : list VideoMetadata) :
  steps (adds no_fetch) (collect videos outputData).
Proof.
  revert outputData. induction videos as [| video rest IH]; intros outputData;
    simpl; steps_auto; eauto with fetch.
Qed.

Lemma no_fetch_store (E : Env) (outputData : list VideoMetadata) :
  steps (adds no_fetch) (store E outputData).
Proof.
  unfold store. steps_auto; eauto using no_fetch_storeVideo with fetch.
Qed.

Lemma no_fetch_output (E : Env) (options : Options)
    (outputData : list VideoMetadata) :
  steps (adds no_fetch) (output E options outputData).
Proof. unfold output. steps_auto; eauto with fetch. Qed.

Lemma no_fetch_filters (evs : list Event) :
  forallb no_fetch evs = true ->
  filter is_search evs = [] /\ filter is_details evs = [].
Proof.
  induction evs as [| e evs IH]; simpl; intros H; [auto |].
  apply andb_true_iff in H. destruct H as [He H].
  unfold no_fetch in He. apply andb_true_iff in He. destruct He as [Hs Hd].
  apply negb_true_iff in Hs. apply negb_true_iff in Hd. rewrite Hs, Hd.
  apply IH. exact H.
Qed.

(** *** The arguments *)

Lemma parseArgs_without_flags (E : Env) (n : nat) :
  forall (args : list string) (options : Options),
    (length args <= n)%nat ->
    ~ In "--disease" args -> ~ In "--video-id" args ->
    disease (parseArgs E args options) = disease options /\
    videoId (parseArgs E args options) = videoId options.
Proof.
  induction n as [| n IH]; intros args options Hlen Hd Hv.
  - destruct args; [simpl; auto | simpl in Hlen; lia].
  - destruct args as [| arg [| value rest]]; simpl; auto.
    simpl in Hlen.
    assert (Hrest : (length rest <= n)%nat) by lia.
    assert (Hd' : ~ In "--disease" rest) by (simpl in Hd; tauto).
    assert (Hv' : ~ In "--video-id" rest) by (simpl in Hv; tauto).
    destruct (arg =? "--disease") eqn:H1.
    { apply String.eqb_eq in H1. exfalso. apply Hd. left. exact H1. }
    destruct (arg =? "--max-results");
      [exact (IH rest _ Hrest Hd' Hv') |].
    destruct (arg =? "--output-file");
      [exact (IH rest _ Hrest Hd' Hv') |].
    destruct (arg =? "--video-ids-file");
      [exact (IH rest _ Hrest Hd' Hv') |].
    destruct (arg =? "--video-id") eqn:H5.
    { apply String.eqb_eq in H5. exfalso. apply Hv. left. exact H5. }
    assert (Hlen' : (length (value :: rest) <= n)%nat) by (simpl; lia).
    assert (Hd'' : ~ In "--disease" (value :: rest)) by (simpl in *; tauto).
    assert (Hv'' : ~ In "--video-id" (value :: rest)) by (simpl in *; tauto).
    exact (IH (value :: rest) options Hlen' Hd'' Hv'').
Qed.

(** C7. Invoked with neither [--disease] nor [--video-id] among its
    arguments, the command logs the two usage lines and exits with code 1:
    the pool, the database and the counts of connection attempts, statements
    and output lines are what they were, so nothing was fetched, nothing was
    stored and the database was not initialised. *)
Theorem usage_error_exits_1 (E : Env) (args : list string) (w : World) :
  ~ In "--disease" args ->
  ~ In "--video-id" args ->
  youtube_fetcher E args w
  = (1%Z,
     mkWorld (pool w) (db w) (attempts w) (queries w) (written w)
       (trace w ++ [EvLog LUsageDisease; EvLog LUsageVideoId])).
Proof.
  intros Hd Hv.
  destruct (parseArgs_without_flags E (length args) args
              (mkOptions None None None None None) (Nat.le_refl _) Hd Hv)
    as [Hdis Hvid].
  unfold youtube_fetcher, main, try_catch, bind, given.
  rewrite Hdis, Hvid. simpl. rewrite <- app_assoc. reflexivity.
Qed.

Lemma usage_error_exits_1_witness :
  ~ In "--disease" ["--max-results"; "25"; "--output-file"; "out.json"] /\
  ~ In "--video-id" ["--max-results"; "25"; "--output-file"; "out.json"] /\
  youtube_fetcher calm ["--max-results"; "25"; "--output-file"; "out.json"]
    initial_world
  = (1%Z, mkWorld None empty_db 0 0 0 [EvLog LUsageDisease; EvLog LUsageVideoId]).
Proof.
  assert (Hd : ~ In "--disease" ["--max-results"; "25"; "--output-file"; "out.json"]).
  { simpl. intros [H | [H | [H | [H | []]]]]; discriminate. }
  assert (Hv : ~ In "--video-id" ["--max-results"; "25"; "--output-file"; "out.json"]).
  { simpl. intros [H | [H | [H | [H | []]]]]; discriminate. }
  split; [exact Hd |]. split; [exact Hv |].
  exact (usage_error_exits_1 calm _ initial_world Hd Hv).
Defined.

(** *** Which fetch is made *)

Lemma adds_filters (w w' : World) :
  adds no_fetch w w' ->
  exists evs,
    trace w' = (trace w ++ evs)%list /\
    filter is_search evs = [] /\ filter is_details evs = [].
Proof.
  intros [evs [Ht Hf]]. exists evs. split; [exact Ht |].
  apply no_fetch_filters. exact Hf.
Qed.





(** *** A store that fails does not end the run *)

Lemma completes_ret : completes (ret tt).
Proof. intros w. exists w, []. rewrite app_nil_r. auto. Qed.


Lemma completes_bind (m : M unit) (k : unit -> M unit) :
  completes m -> (forall u, completes (k u)) -> completes (bind m k).
Proof.
  intros Hm Hk w. destruct (Hm w) as [w1 [e1 [H1 [D1 T1]]]].
  destruct (Hk tt w1) as [w2 [e2 [H2 [D2 T2]]]].
  exists w2, (e1 ++ e2)%list. unfold bind. rewrite H1. split; [exact H2 |].
  split; [congruence |]. rewrite T2, T1. symmetry. apply app_assoc.
Qed.

Lemma completes_when (c : bool) (m : M unit) : completes m -> completes (when c m).
Proof. intros H. destruct c; simpl; [exact H | apply completes_ret]. Qed.


Lemma completes_for_of {A : Type} (xs : list A) (body : A -> M unit) :
  (forall x, completes (body x)) -> completes (for_of xs body).
Proof.
  intros H. induction xs as [| x xs IH]; simpl.
  - apply completes_ret.
  - apply completes_bind; auto.
Qed.


Lemma completes_stdout (data : VideoMetadata) :
  completes
    (try_catch
       (stdout_write data ;;
        safeLog (LWroteStdout (VideoMetadata.id data) (VideoMetadata.title data)))
       (fun error =>
          if code_differs error "EPIPE" then
            safeLog (LStdoutError (message error))
          else safeLog LBrokenPipe)).
Proof.
  intros w. unfold try_catch, bind, stdout_write, safeLog, emit.
  eexists; eexists.
  split; [reflexivity |]. split; [reflexivity |]. simpl.
  rewrite <- app_assoc. reflexivity.
Qed.






Lemma collect_all (videos outputData : list VideoMetadata) (w : World) :
  collect videos outputData w
  = (Ok (outputData ++ videos)%list,
     mkWorld (pool w) (db w) (attempts w) (queries w) (written w)
       (trace w
        ++ map (fun video => EvLog (LProcessed (VideoMetadata.id video))) videos)).
Proof.
  revert outputData w. induction videos as [| video rest IH]; intros outputData w.
  - simpl. unfold ret. rewrite !app_nil_r. destruct w; reflexivity.
  - simpl. unfold bind, try_catch, safeLog, emit. simpl. rewrite IH. simpl.
    rewrite <- !app_assoc. reflexivity.
Qed.




Example store_failure_run :
  fst (youtube_fetcher fifth_statement_lost ["--disease"; "lupus"] initial_world)
  = 0%Z /\
  video_ids (db (snd (youtube_fetcher fifth_statement_lost
                        ["--disease"; "lupus"] initial_world)))
  = ["a1"; "c3"].
Proof. split; reflexivity. Qed.

(* ------------------------------------------------------------------ *)
(** ** Runs *)

Example parseArgs_search :
  parseArgs calm
    ["--disease"; "lupus"; "--max-results"; "25"; "--video-ids-file"; "ids.json"]
    (mkOptions None None None None None)
  = mkOptions (Some "lupus") (Some (Num 25)) None (Some "ids.json") None.
Proof. reflexivity. Qed.

(** A flag that comes last has no value and is dropped. *)
Example parseArgs_trailing_flag :
  parseArgs calm ["--output-file"; "out.json"; "--disease"]
    (mkOptions None None None None None)
  = mkOptions None None (Some "out.json") None None.
Proof. reflexivity. Qed.

(** The second transcript of a video replaces the text and keeps the
    [transcript_id]; the sequence has moved on all the same. *)
Example storeTranscript_twice :
  let w := history calm
             [CallStoreVideo (clip "a1" "First");
              CallStoreTranscript "a1" (Some "Hello.") None;
              CallStoreTranscript "a1" (Some "Hello, I am Maya.") (Some "en-GB")]
             initial_world in
  transcripts (db w) = Some [Transcripts.mk 1 "a1" "Hello, I am Maya." "en-GB"] /\
  transcripts_seq (db w) = 2%Z.
Proof. split; reflexivity. Qed.

(** An identifier of 256 characters does not fit [VARCHAR(255)], unless
    the last of them is a space, which the column drops. *)
Example storeVideo_long_id :
  fst (storeVideo calm (clip (long_id ++ "a") "Too long") initial_world)
  = Throw StringDataRightTruncation /\
  video_ids (db (snd (storeVideo calm (clip (long_id ++ "a") "Too long")
                        initial_world))) = [] /\
  video_ids (db (snd (storeVideo calm (clip (long_id ++ " ") "Padded")
                        initial_world))) = [long_id].
Proof. split; [| split]; vm_compute; reflexivity. Qed.

(** A language of ten characters and spaces is stored without the
    spaces; the characters are counted, not the bytes. *)
Example storeTranscript_language_cut :
  transcripts
    (db (history calm
           [CallStoreVideo (clip "a1" "First");
            CallStoreTranscript "a1" (Some "Hello.") (Some "en        ")]
           initial_world))
  = Some [Transcripts.mk 1 "a1" "Hello." "en        "] /\
  transcripts
    (db (history calm
           [CallStoreVideo (clip "a1" "First");
            CallStoreTranscript "a1" (Some "Hello.") (Some "en         ")]
           initial_world))
  = Some [Transcripts.mk 1 "a1" "Hello." "en        "] /\
  fst (storeTranscript calm "a1" (Some "Hello.") (Some "en-GB-x-abc")
         (history calm [CallStoreVideo (clip "a1" "First")] initial_world))
  = Throw StringDataRightTruncation.
Proof. split; [| split]; vm_compute; reflexivity. Qed.

(** What was stored as null is read back as the default. *)
Example getVideoMetadata_defaults :
  fst (getVideoMetadata calm "a1"
         (history calm
            [CallStoreVideo
               (VideoMetadata.mk "a1" (Some "First") None (Some "")
                  (Some (Num 0)) (Some (Num 9)) (Some "u"))]
            initial_world))
  = Ok (Some (ReadMetadata.mk "a1" "First" None (TextOf "")
                (Num 0) (Num 0) "https://youtube.com/watch?v=a1")).
Proof. vm_compute. reflexivity. Qed.

(** With no database the run ends with code 1 after five attempts, before
    any fetch. *)
Example no_database :
  let E := mkEnv (fun _ => Some "ECONNREFUSED") (fun _ => None) (fun _ => true)
                 parse_int None (fun _ => inr None) (fun _ _ => inr [])
                 (fun _ => None) (fun _ => None) in
  fst (youtube_fetcher E ["--video-id"; "a1"] initial_world) = 1%Z /\
  attempts (snd (youtube_fetcher E ["--video-id"; "a1"] initial_world)) = 5%nat /\
  filter is_details
         (trace (snd (youtube_fetcher E ["--video-id"; "a1"] initial_world))) = [].
Proof. repeat split; reflexivity. Qed.

(* ------------------------------------------------------------------ *)
(** ** Failures of the persistence layer *)

Lemma try_rethrow_Throw {A : Type} (m : M A) (l : Error -> LogMsg)
    (w w' : World) (e : Error) :
  try_catch m (fun error => safeLog (l error) ;; throw error) w = (Throw e, w') ->
  exists w1, m w = (Throw e, w1) /\ trace w' = (trace w1 ++ [EvLog (l e)])%list.
Proof.
  unfold try_catch. destruct (m w) as [[a | e0 | c] w1]; intros H;
    try discriminate.
  unfold bind, safeLog, emit, throw in H. simpl in H. inversion H; subst.
  exists w1. split; reflexivity.
Qed.

Lemma rethrow_logged_last {A : Type} (m : M A) (l : Error -> LogMsg)
    (w : World) (e : Error) :
  fst (try_catch m (fun error => safeLog (l error) ;; throw error) w) = Throw e ->
  logged_last (l e)
    (snd (try_catch m (fun error => safeLog (l error) ;; throw error) w)).
Proof.
  intros H.
  destruct (try_catch m _ w) as [o w'] eqn:Hrun. simpl in H. subst o.
  apply try_rethrow_Throw in Hrun. destruct Hrun as [w1 [_ Ht]].
  exists (trace w1). exact Ht.
Qed.

(** X1. Every function of [lib/database.ts] that throws has logged that
    very error, under its own heading, as the last thing it did. *)
Theorem thrown_errors_are_logged (E : Env) (w : World) (e : Error) :
  (fst (initializeDatabase E w) = Throw e ->
   logged_last (LDbInitError e) (snd (initializeDatabase E w))) /\
  (forall m,
      fst (storeVideo E m w) = Throw e ->
      logged_last (LVideoStoreError (VideoMetadata.id m) e)
                  (snd (storeVideo E m w))) /\
  (forall v t l,
      fst (storeTranscript E v t l w) = Throw e ->
      logged_last (LTranscriptStoreError v e) (snd (storeTranscript E v t l w))) /\
  (forall v,
      fst (getTranscript E v w) = Throw e ->
      logged_last (LTranscriptFetchError v e) (snd (getTranscript E v w))) /\
  (forall v,
      fst (getVideoMetadata E v w) = Throw e ->
      logged_last (LMetadataFetchError v e) (snd (getVideoMetadata E v w))) /\
  (forall v a,
      fst (storeAnalysis E v a w) = Throw e ->
      logged_last (LAnalysisStoreError v e) (snd (storeAnalysis E v a w))) /\
  (fst (getAllVideoIds E w) = Throw e ->
   logged_last (LVideoIdsFetchError e) (snd (getAllVideoIds E w))).
Proof.
  split; [apply (rethrow_logged_last _ LDbInitError) |].
  split; [intros m; apply (rethrow_logged_last _ (LVideoStoreError _)) |].
  split; [intros v t l; apply (rethrow_logged_last _ (LTranscriptStoreError v)) |].
  split; [intros v; apply (rethrow_logged_last _ (LTranscriptFetchError v)) |].
  split; [intros v; apply (rethrow_logged_last _ (LMetadataFetchError v)) |].
  split; [intros v a; apply (rethrow_logged_last _ (LAnalysisStoreError v)) |].
  apply (rethrow_logged_last _ LVideoIdsFetchError).
Qed.

Lemma thrown_errors_are_logged_witness :
  fst (storeVideo calm
         (VideoMetadata.mk "a1" None None None None None None) initial_world)
  = Throw (NotNullViolation "title") /\
  logged_last (LVideoStoreError "a1" (NotNullViolation "title"))
    (snd (storeVideo calm
            (VideoMetadata.mk "a1" None None None None None None) initial_world)).
Proof.
  split; [reflexivity |].
  exact (proj1 (proj2 (thrown_errors_are_logged calm initial_world
                         (NotNullViolation "title")))
           (VideoMetadata.mk "a1" None None None None None None) eq_refl).
Defined.

(** X2. A store that throws has stored nothing: the rows of the three
    tables are what they were before the call. *)
Theorem failed_store_changes_no_row (E : Env) (w : World) (e : Error) :
  (forall m,
      fst (storeVideo E m w) = Throw e ->
      same_rows (db w) (db (snd (storeVideo E m w)))) /\
  (forall v t l,
      fst (storeTranscript E v t l w) = Throw e ->
      same_rows (db w) (db (snd (storeTranscript E v t l w)))) /\
  (forall v a,
      fst (storeAnalysis E v a w) = Throw e ->
      same_rows (db w) (db (snd (storeAnalysis E v a w)))).
Proof.
  split; [| split].
  - intros m H. pose proof (storeVideo_outcome E m w) as Ho.
    destruct (storeVideo E m w) as [[[] | e' | c] w']; simpl in *;
      try discriminate. exact Ho.
  - intros v t l H. pose proof (storeTranscript_outcome E v t l w) as Ho.
    destruct (storeTranscript E v t l w) as [[[] | e' | c] w']; simpl in *;
      try discriminate. exact Ho.
  - intros v a H. pose proof (storeAnalysis_outcome E v a w) as Ho.
    destruct (storeAnalysis E v a w) as [[[] | e' | c] w']; simpl in *;
      try discriminate. exact Ho.
Qed.

Lemma failed_store_changes_no_row_witness :
  fst (storeTranscript fifth_statement_lost "a1" (Some "Hello.") None
         (history fifth_statement_lost [CallStoreVideo (clip "a1" "First")]
            initial_world))
  = Throw (ConnectionError "Connection terminated unexpectedly") /\
  same_rows
    (db (history fifth_statement_lost [CallStoreVideo (clip "a1" "First")]
           initial_world))
    (db (snd (storeTranscript fifth_statement_lost "a1" (Some "Hello.") None
                (history fifth_statement_lost [CallStoreVideo (clip "a1" "First")]
                   initial_world)))).
Proof.
  split; [reflexivity |].
  exact (proj1 (proj2 (failed_store_changes_no_row fifth_statement_lost
                         (history fifth_statement_lost
                            [CallStoreVideo (clip "a1" "First")] initial_world)
                         (ConnectionError "Connection terminated unexpectedly")))
           "a1" (Some "Hello.") None eq_refl).
Defined.

(** X3. Initialising the database and reading from it never add, change or
    remove a row, whether the call returns or throws. *)
Theorem reads_change_no_row (E : Env) (w : World) (v : string) :
  same_rows (db w) (db (snd (initializeDatabase E w))) /\
  same_rows (db w) (db (snd (getTranscript E v w))) /\
  same_rows (db w) (db (snd (getVideoMetadata E v w))) /\
  same_rows (db w) (db (snd (getAllVideoIds E w))).
Proof.
  split; [apply initializeDatabase_keeps_rows |].
  split; [apply getTranscript_keeps_rows |].
  split; [apply getVideoMetadata_keeps_rows |].
  apply getAllVideoIds_keeps_rows.
Qed.

(* ------------------------------------------------------------------ *)
(** ** The keys of the dependent tables *)

Lemma keys_unique_same_rows (d d' : Db) :
  same_rows d d' -> keys_unique d -> keys_unique d'.
Proof.
  intros [_ [Ht Ha]] [H1 [H2 H3]].
  unfold keys_unique, transcript_video_ids, transcript_ids, analysis_video_ids
    in *.
  rewrite <- Ht, <- Ha. auto.
Qed.

Lemma keeps_unique_quiet (A : Type) (stmt : Statement A) :
  quiet stmt -> keeps_unique stmt.
Proof. intros Hq d Hu. exact (keys_unique_same_rows _ _ (Hq d) Hu). Qed.

Lemma keeps_unique_insert_video (E : Env) p1 p2 p3 p4 p5 p6 :
  keeps_unique (insert_video E p1 p2 p3 p4 p5 p6).
Proof.
  intros d Hu. unfold insert_video.
  destruct (videos d); [| exact Hu].
  destruct (videos_row E p1 p2 p3 p4 p5 p6); exact Hu.
Qed.

Lemma update_transcript_video_ids (r : Transcripts.row) (t : list Transcripts.row) :
  map Transcripts.video_id (update_transcript r t) = map Transcripts.video_id t.
Proof.
  unfold update_transcript. induction t as [| x t IH]; simpl; [reflexivity |].
  rewrite IH. destruct (Transcripts.video_id x =? Transcripts.video_id r);
    reflexivity.
Qed.

Lemma update_transcript_ids (r : Transcripts.row) (t : list Transcripts.row) :
  map Transcripts.transcript_id (update_transcript r t)
  = map Transcripts.transcript_id t.
Proof.
  unfold update_transcript. induction t as [| x t IH]; simpl; [reflexivity |].
  rewrite IH. destruct (Transcripts.video_id x =? Transcripts.video_id r);
    reflexivity.
Qed.

Lemma update_analysis_video_ids (r : Analysis.row) (t : list Analysis.row) :
  map Analysis.video_id (update_analysis r t) = map Analysis.video_id t.
Proof.
  unfold update_analysis. induction t as [| x t IH]; simpl; [reflexivity |].
  rewrite IH. destruct (Analysis.video_id x =? Analysis.video_id r);
    reflexivity.
Qed.

Lemma NoDup_snoc {A : Type} (l : list A) (a : A) :
  NoDup l -> ~ In a l -> NoDup (l ++ [a]).
Proof.
  intros Hnd Hnotin. apply NoDup_app; repeat split.
  - exact Hnd.
  - constructor; [intros [] | constructor].
  - intros x Hin [Hx | []]. subst x. contradiction.
Qed.

Lemma keeps_unique_insert_transcript p1 p2 p3 :
  keeps_unique (insert_transcript p1 p2 p3).
Proof.
  intros d Hu. unfold insert_transcript.
  destruct (transcripts d) as [t |] eqn:Ht; [| exact Hu].
  assert (Hseq : forall n, keys_unique (set_transcripts_seq n d)) by (intros n; exact Hu).
  destruct Hu as [H1 [H2 H3]].
  unfold transcript_video_ids, transcript_ids in H1, H2. rewrite Ht in H1, H2.
  simpl in H1, H2.
  destruct (transcripts_values p1 p2 p3) as [e | [[q1 q2] q3]]; simpl;
    [apply (Hseq (transcripts_seq d)) |].
  destruct (transcripts_row _ q1 q2 q3) as [e | r] eqn:Hr; simpl; [apply Hseq |].
  apply transcripts_row_id in Hr.
  destruct (existsb (fun x => Transcripts.video_id x =? _) t) eqn:Hv; simpl.
  - unfold keys_unique, transcript_video_ids, transcript_ids. simpl.
    rewrite update_transcript_video_ids, update_transcript_ids. auto.
  - destruct (existsb (fun x => (Transcripts.transcript_id x =? _)%Z) t) eqn:Hi;
      simpl; [apply Hseq |].
    destruct (has_video _ _); simpl; [| apply Hseq].
    unfold keys_unique, transcript_video_ids, transcript_ids. simpl.
    rewrite !map_app. simpl. repeat split; [| | exact H3].
    + apply NoDup_snoc; [exact H1 |].
      intros Hin. apply in_map_iff in Hin. destruct Hin as [x [Hx Hin]].
      assert (Htrue : existsb (fun y => Transcripts.video_id y =? Transcripts.video_id r) t = true).
      { apply existsb_exists. exists x. split; [exact Hin |].
        apply String.eqb_eq. exact Hx. }
      congruence.
    + apply NoDup_snoc; [exact H2 |].
      intros Hin. apply in_map_iff in Hin. destruct Hin as [x [Hx Hin]].
      assert (Htrue : existsb (fun y => (Transcripts.transcript_id y =? transcripts_seq d + 1)%Z) t = true).
      { apply existsb_exists. exists x. split; [exact Hin |].
        apply Z.eqb_eq. congruence. }
      congruence.
Qed.

Lemma keeps_unique_insert_analysis p1 p2 p3 p4 p5 p6 p7 p8 p9 p10 p11 :
  keeps_unique (insert_analysis p1 p2 p3 p4 p5 p6 p7 p8 p9 p10 p11).
Proof.
  intros d Hu. unfold insert_analysis.
  destruct (analysis d) as [t |] eqn:Ha; [| exact Hu].
  destruct (analysis_row p1 p2 p3 p4 p5 p6 p7 p8 p9 p10 p11) as [e | r];
    simpl; [exact Hu |].
  pose proof Hu as [H1 [H2 H3]].
  unfold analysis_video_ids in H3. rewrite Ha in H3. simpl in H3.
  destruct (existsb _ t) eqn:Hv; simpl.
  - unfold keys_unique, analysis_video_ids. simpl.
    rewrite update_analysis_video_ids. auto.
  - destruct (has_video _ _); simpl; [| exact Hu].
    unfold keys_unique, analysis_video_ids. simpl.
    rewrite map_app. simpl. repeat split; [exact H1 | exact H2 |].
    apply NoDup_snoc; [exact H3 |].
    intros Hin. apply in_map_iff in Hin. destruct Hin as [x [Hx Hin]].
    assert (Htrue : existsb (fun y => Analysis.video_id y =? Analysis.video_id r) t = true).
    { apply existsb_exists. exists x. split; [exact Hin |].
      apply String.eqb_eq. exact Hx. }
    congruence.
Qed.

Lemma keeps_keys_unique_refl (w : World) : keeps_keys_unique w w.
Proof. intros H. exact H. Qed.

Lemma keeps_keys_unique_trans (w1 w2 w3 : World) :
  keeps_keys_unique w1 w2 -> keeps_keys_unique w2 w3 -> keeps_keys_unique w1 w3.
Proof. unfold keeps_keys_unique. auto. Qed.

Lemma keeps_keys_unique_emit (e : Event) : steps keeps_keys_unique (emit e).
Proof. intros w H. exact H. Qed.

Lemma keeps_keys_unique_connect (E : Env) : steps keeps_keys_unique (connect E).
Proof.
  intros w H. unfold connect. destruct (connect_error E (attempts w)); exact H.
Qed.

Lemma keeps_keys_unique_set_pool (p : nat) : steps keeps_keys_unique (set_pool p).
Proof. intros w H. exact H. Qed.

Lemma keeps_keys_unique_query (E : Env) (A : Type) (q : Sql) (stmt : Statement A) :
  keeps_unique stmt -> steps keeps_keys_unique (pool_query E q stmt).
Proof.
  intros Hq w Hu. unfold pool_query.
  destruct (pool w) as [p |]; [| exact Hu].
  destruct (query_error E (queries w)); [exact Hu |].
  specialize (Hq (db w) Hu). destruct (stmt (db w)) as [[e | a] d]; exact Hq.
Qed.

Create HintDb unique.

#[local] Hint Resolve keeps_keys_unique_refl keeps_keys_unique_trans
  keeps_keys_unique_query keeps_keys_unique_connect keeps_keys_unique_set_pool
  keeps_unique_insert_video keeps_unique_insert_transcript
  keeps_unique_insert_analysis : unique.

#[local] Hint Extern 1 (steps keeps_keys_unique (safeLog _)) =>
  apply keeps_keys_unique_emit : unique.
#[local] Hint Extern 1 (steps keeps_keys_unique (sleep _)) =>
  apply keeps_keys_unique_emit : unique.
#[local] Hint Extern 1 (keeps_unique _) =>
  apply keeps_unique_quiet;
  auto using quiet_create_videos, quiet_create_transcripts,
    quiet_create_analysis, quiet_select_transcript, quiet_select_video,
    quiet_select_video_ids : unique.

Lemma call_keys_unique (E : Env) (c : Call) (w : World) :
  keys_unique (db w) -> keys_unique (db (call E c w)).
Proof.
  change (keeps_keys_unique w (call E c w)).
  destruct c as [| m | v t l | v | v | v a |]; simpl.
  - apply (@steps_initializeDatabase E keeps_keys_unique (@keeps_unique));
      eauto with unique.
  - apply (@steps_storeVideo E keeps_keys_unique (@keeps_unique));
      eauto with unique.
  - apply (@steps_storeTranscript E keeps_keys_unique (@keeps_unique));
      eauto with unique.
  - apply (@steps_getTranscript E keeps_keys_unique (@keeps_unique));
      eauto with unique.
  - apply (@steps_getVideoMetadata E keeps_keys_unique (@keeps_unique));
      eauto with unique.
  - apply (@steps_storeAnalysis E keeps_keys_unique (@keeps_unique));
      eauto with unique.
  - apply (@steps_getAllVideoIds E keeps_keys_unique (@keeps_unique));
      eauto with unique.
Qed.

Lemma history_keys_unique (E : Env) (cs : list Call) (w : World) :
  keys_unique (db w) -> keys_unique (db (history E cs w)).
Proof.
  revert w. induction cs as [| c cs IH]; intros w Hu; simpl; [exact Hu |].
  apply IH. apply call_keys_unique. exact Hu.
Qed.

Lemma keys_unique_empty : keys_unique empty_db.
Proof. repeat split; constructor. Qed.

(** X4. Whatever calls are made, and whichever of them fail, the database
    keeps what its schema declares: no two videos, transcripts or analyses
    share a [video_id], no two transcripts share a [transcript_id], every
    [transcript_id] has been drawn from the sequence, and every transcript
    and every analysis belongs to a video that is there. *)
Theorem reachable_database_is_consistent (E : Env) (cs : list Call) :
  NoDup (video_ids (db (history E cs initial_world))) /\
  NoDup (transcript_video_ids (db (history E cs initial_world))) /\
  NoDup (transcript_ids (db (history E cs initial_world))) /\
  NoDup (analysis_video_ids (db (history E cs initial_world))) /\
  (forall r, In r (rows (transcripts (db (history E cs initial_world)))) ->
             In (Transcripts.video_id r)
                (video_ids (db (history E cs initial_world))) /\
             (Transcripts.transcript_id r
              <= transcripts_seq (db (history E cs initial_world)))%Z) /\
  (forall r, In r (rows (analysis (db (history E cs initial_world)))) ->
             In (Analysis.video_id r)
                (video_ids (db (history E cs initial_world)))).
Proof.
  destruct (history_wf E cs initial_world wf_initial_world) as [Hv [Hft Hfa]].
  destruct (history_keys_unique E cs initial_world keys_unique_empty)
    as [Ht [Hi Ha]].
  pose proof (history_seq_bound E cs initial_world seq_bound_empty) as Hb.
  split; [exact Hv |]. split; [exact Ht |]. split; [exact Hi |].
  split; [exact Ha |]. split.
  - intros r Hin. split.
    + apply has_video_spec. apply Hft. exact Hin.
    + apply Hb. exact Hin.
  - intros r Hin. apply has_video_spec. apply Hfa. exact Hin.
Qed.

(* ------------------------------------------------------------------ *)
(** ** Transcripts *)

(** What a statement that was accepted has done to the table. *)
Lemma insert_transcript_Ok (v : string) (t : option string) (lang : string)
    (d d' : Db) :
  insert_transcript (Some v) t (Some lang) d = (inr tt, d') ->
  videos d' = videos d /\ analysis d' = analysis d /\
  transcripts d' <> None /\
  exists r,
    Transcripts.video_id r = video_key v /\
    t = Some (Transcripts.full_transcript r) /\
    Transcripts.language r = first_chars 10 lang /\
    (existsb (fun x => Transcripts.video_id x =? video_key v)
       (rows (transcripts d)) = true /\
     rows (transcripts d') = update_transcript r (rows (transcripts d))
     \/
     existsb (fun x => Transcripts.video_id x =? video_key v)
       (rows (transcripts d)) = false /\
     has_video (video_key v) d = true /\
     rows (transcripts d') = (rows (transcripts d) ++ [r])%list).
Proof.
  unfold insert_transcript.
  destruct (transcripts d) as [tb |] eqn:Ht; [| discriminate].
  destruct (transcripts_values _ _ _) as [e | [[q1 q2] q3]] eqn:Hval;
    [discriminate |].
  destruct (transcripts_row _ _ _ _) as [e | r] eqn:Hr; [discriminate |].
  apply transcripts_values_inr in Hval. destruct Hval as [Hq1 [Hq2 [Hq3 _]]].
  apply transcripts_row_inr in Hr. destruct Hr as [_ [Hr1 [Hr2 Hr3]]].
  subst q1 q2 q3. simpl in Hr1, Hr3.
  assert (Hv : Transcripts.video_id r = video_key v)
    by (inversion Hr1; reflexivity).
  assert (Hl : Transcripts.language r = first_chars 10 lang)
    by (inversion Hr3; reflexivity).
  rewrite Hv.
  destruct (existsb (fun x => Transcripts.video_id x =? video_key v) tb) eqn:Hex.
  - intros H. injection H as Hd. subst d'. simpl.
    repeat split; try discriminate. exists r. auto 6.
  - destruct (existsb (fun x => (Transcripts.transcript_id x =? _)%Z) tb);
      [discriminate |].
    change (has_video (video_key v)
              (set_transcripts_seq (transcripts_seq d + 1) d))
      with (has_video (video_key v) d).
    destruct (has_video (video_key v) d) eqn:Hhas; [| discriminate].
    intros H. injection H as Hd. subst d'. simpl.
    repeat split; try discriminate. exists r. auto 7.
Qed.

(** What the engine has checked of a statement that it accepted. *)
Lemma insert_transcript_checked (v : string) (t : option string) (lang : string)
    (d d' : Db) :
  insert_transcript (Some v) t (Some lang) d = (inr tt, d') ->
  fits 255 v = true /\ fits 10 lang = true /\
  forall body, t = Some body -> has_nul body = false.
Proof.
  unfold insert_transcript.
  destruct (transcripts d) as [tb |] eqn:Ht; [| discriminate].
  destruct (transcripts_values _ _ _) as [e | [[q1 q2] q3]] eqn:Hval;
    [discriminate |].
  intros _. apply transcripts_values_inr in Hval.
  destruct Hval as [_ [_ [_ [H1 [H2 H3]]]]].
  split; [apply fits_true; apply (H1 v eq_refl) |].
  split; [apply fits_true; apply (H3 lang eq_refl) |]. exact H2.
Qed.

Lemma storeTranscript_Ok (E : Env) (v : string) (t l : option string)
    (w w' : World) :
  storeTranscript E v t l w = (Ok tt, w') ->
  pool w' <> None /\ transcripts (db w') <> None /\
  exists r,
    Transcripts.video_id r = video_key v /\
    t = Some (Transcripts.full_transcript r) /\
    Transcripts.language r = first_chars 10 (language_given l) /\
    (existsb (fun x => Transcripts.video_id x =? video_key v)
       (rows (transcripts (db w))) = true /\
     rows (transcripts (db w')) =
       update_transcript r (rows (transcripts (db w)))
     \/
     existsb (fun x => Transcripts.video_id x =? video_key v)
       (rows (transcripts (db w))) = false /\
     has_video (video_key v) (db w) = true /\
     rows (transcripts (db w')) = (rows (transcripts (db w)) ++ [r])%list).
Proof.
  unfold storeTranscript. intros H.
  apply try_rethrow_Ok with (l := LTranscriptStoreError v) in H.
  apply bind_Ok in H. destruct H as [[] [w1 [H1 H]]].
  apply bind_Ok in H. destruct H as [[] [w2 [H2 H]]].
  pose proof (ensure_pool_keeps_rows E w) as Hk. rewrite H1 in Hk.
  destruct Hk as [Hkv [Hk _]]. simpl in Hk, Hkv.
  apply pool_query_Ok in H2. destruct H2 as [Hp [Hp' [_ H2]]].
  unfold safeLog, emit in H. inversion H; subst w'; simpl. clear H.
  apply insert_transcript_Ok in H2.
  destruct H2 as [_ [_ [Ht [r [Hv [Htext [Hlang Hrows]]]]]]].
  split; [congruence |]. split; [exact Ht |].
  exists r. rewrite Hk. unfold has_video in *. rewrite Hkv. auto 7.
Qed.

Lemma storeTranscript_Ok_checked (E : Env) (v : string) (t l : option string)
    (w w' : World) :
  storeTranscript E v t l w = (Ok tt, w') ->
  fits 255 v = true /\ fits 10 (language_given l) = true /\
  forall body, t = Some body -> has_nul body = false.
Proof.
  unfold storeTranscript. intros H.
  apply try_rethrow_Ok with (l := LTranscriptStoreError v) in H.
  apply bind_Ok in H. destruct H as [[] [w1 [H1 H]]].
  apply bind_Ok in H. destruct H as [[] [w2 [H2 H]]].
  apply pool_query_Ok in H2. destruct H2 as [_ [_ [_ H2]]].
  apply insert_transcript_checked in H2. exact H2.
Qed.

Lemma filter_update_transcript_head (r : Transcripts.row)
    (t : list Transcripts.row) :
  existsb (fun x => Transcripts.video_id x =? Transcripts.video_id r) t = true ->
  exists x rest,
    filter (fun x => Transcripts.video_id x =? Transcripts.video_id r)
      (update_transcript r t) = x :: rest /\
    Transcripts.full_transcript x = Transcripts.full_transcript r /\
    Transcripts.language x = Transcripts.language r.
Proof.
  unfold update_transcript. induction t as [| y t IH]; simpl; [discriminate |].
  destruct (Transcripts.video_id y =? Transcripts.video_id r) eqn:Hy; simpl.
  - intros _. rewrite Hy. eexists. eexists. split; [reflexivity |]. auto.
  - intros Hex. rewrite Hy. apply IH. exact Hex.
Qed.

Lemma filter_transcript_absent (k : string) (t : list Transcripts.row) :
  existsb (fun x => Transcripts.video_id x =? k) t = false ->
  filter (fun x => Transcripts.video_id x =? k) t = [].
Proof.
  induction t as [| y t IH]; simpl; [reflexivity |].
  destruct (Transcripts.video_id y =? k); simpl; [discriminate | exact IH].
Qed.

(** With a pool and the table, [getTranscript] is one statement. *)
Lemma getTranscript_run (E : Env) (v : string) (w : World) :
  pool w <> None -> transcripts (db w) <> None ->
  query_error E (queries w) = None -> has_nul v = false ->
  fst (getTranscript E v w) =
  Ok match filter (fun x => Transcripts.video_id x =? v)
             (rows (transcripts (db w))) with
     | row :: _ =>
         Some (Transcripts.full_transcript row, Transcripts.language row)
     | [] => None
     end.
Proof.
  intros Hp Ht Hq Hn. unfold getTranscript, try_catch. unfold bind at 1.
  rewrite ensure_pool_skip by exact Hp.
  unfold bind, pool_query, select_transcript, ret, text. rewrite Hn.
  destruct (pool w); [| congruence]. rewrite Hq.
  destruct (transcripts (db w)) as [tb |]; [| congruence]. simpl.
  destruct (filter _ tb); reflexivity.
Qed.

(** X5. A transcript that [storeTranscript] has stored is what
    [getTranscript] returns next for the identifier of that video as the
    column keeps it, unless the statement is lost on the way: the text as
    given, and the first ten characters of the language given, or of
    ["en"] when the caller left it out, which are all of it unless it ends
    in spaces that the column drops.  An identifier of at most 255
    characters and a language of at most ten are kept as they are. *)
Theorem stored_transcript_is_read_back (E : Env) (v : string)
    (t l : option string) (w w' : World) :
  storeTranscript E v t l w = (Ok tt, w') ->
  query_error E (queries w') = None ->
  exists body,
    t = Some body /\
    fst (getTranscript E (first_chars 255 v) w')
    = Ok (Some (body, first_chars 10 match l with
                                     | Some language => language
                                     | None => "en"
                                     end)) /\
    all_spaces (after_chars 255 v) = true /\
    all_spaces (after_chars 10 match l with
                               | Some language => language
                               | None => "en"
                               end) = true /\
    ((char_length v <= 255)%nat -> first_chars 255 v = v) /\
    forall language,
      l = Some language -> (char_length language <= 10)%nat ->
      first_chars 10 language = language.
Proof.
  intros Hs Hq. pose proof (storeTranscript_Ok_checked _ _ _ _ _ _ Hs) as Hc.
  destruct Hc as [Hfv [Hfl _]].
  apply fits_true in Hfv. destruct Hfv as [Hnv Hsv].
  apply fits_true in Hfl. destruct Hfl as [_ Hsl].
  apply storeTranscript_Ok in Hs.
  destruct Hs as [Hp [Ht [r [Hv [Htext [Hlang Hrows]]]]]].
  exists (Transcripts.full_transcript r). split; [exact Htext |].
  split; [| split; [exact Hsv | split; [exact Hsl | split]]].
  - fold (video_key v). fold (language_given l).
    rewrite (getTranscript_run E (video_key v) w' Hp Ht Hq
               (has_nul_first_chars 255 v Hnv)).
    destruct Hrows as [[Hex Hrows] | [Hex [_ Hrows]]]; rewrite Hrows.
    + rewrite <- Hv in Hex |- *.
      destruct (filter_update_transcript_head r _ Hex)
        as [x [rest [Hf [Hx1 Hx2]]]].
      rewrite Hf. congruence.
    + rewrite filter_app, (filter_transcript_absent (video_key v) _ Hex). simpl.
      rewrite Hv, String.eqb_refl. simpl. congruence.
  - intros Hlen. apply (first_chars_short 255 v Hlen).
  - intros language _ Hlen. apply (first_chars_short 10 language Hlen).
Qed.

Lemma stored_transcript_is_read_back_witness :
  exists body,
    Some "hello" = Some body /\
    fst (getTranscript calm "a1"
           (snd (storeTranscript calm "a1" (Some "hello") (Some "en         ")
                   (history calm [CallStoreVideo (clip "a1" "First")]
                      initial_world))))
    = Ok (Some (body, "en        ")).
Proof.
  destruct (stored_transcript_is_read_back calm "a1" (Some "hello")
              (Some "en         ")
              (history calm [CallStoreVideo (clip "a1" "First")] initial_world)
              (snd (storeTranscript calm "a1" (Some "hello") (Some "en         ")
                      (history calm [CallStoreVideo (clip "a1" "First")]
                         initial_world))))
    as [body [Hb [Hg _]]].
  - vm_compute. reflexivity.
  - vm_compute. reflexivity.
  - exists body. split; [exact Hb | exact Hg].
Defined.

Lemma in_update_transcript_cases (r x' : Transcripts.row)
    (t : list Transcripts.row) :
  In x' (update_transcript r t) ->
  In x' t \/
  Transcripts.video_id x' = Transcripts.video_id r /\
  Transcripts.full_transcript x' = Transcripts.full_transcript r /\
  Transcripts.language x' = Transcripts.language r.
Proof.
  unfold update_transcript. rewrite in_map_iff. intros [x [Heq Hin]].
  destruct (Transcripts.video_id x =? Transcripts.video_id r) eqn:Hx.
  - right. apply String.eqb_eq in Hx. subst x'. simpl. auto.
  - left. subst x'. exact Hin.
Qed.

Lemma call_transcripts_origin (E : Env) (c : Call) (w : World)
    (r : Transcripts.row) :
  In r (rows (transcripts (db (call E c w)))) ->
  In r (rows (transcripts (db w))) \/ transcript_stored_by [c] r.
Proof.
  assert (Hsame : forall w', keeps_rows w w' ->
            In r (rows (transcripts (db w'))) ->
            In r (rows (transcripts (db w)))).
  { intros w' [_ [H _]]. rewrite <- H. auto. }
  destruct c as [| m0 | v t l | v | v | v a |]; simpl; intros Hin.
  - left. eapply Hsame; [apply initializeDatabase_keeps_rows | exact Hin].
  - pose proof (storeVideo_outcome E m0 w) as H.
    destruct (storeVideo E m0 w) as [[[] | e | c] w']; simpl in *.
    + destruct H as [r0 [_ [_ [Ht _]]]]. rewrite Ht in Hin. auto.
    + left. eapply Hsame; [exact H | exact Hin].
    + contradiction.
  - pose proof (storeTranscript_outcome E v t l w) as H.
    destruct (storeTranscript E v t l w) as [[[] | e | c] w'] eqn:Hs;
      simpl in *.
    + apply storeTranscript_Ok in Hs.
      destruct Hs as [_ [_ [r0 [Hv [Htext [Hlang Hrows]]]]]].
      assert (Hnew : Transcripts.video_id r = Transcripts.video_id r0 /\
                     Transcripts.full_transcript r = Transcripts.full_transcript r0 /\
                     Transcripts.language r = Transcripts.language r0 ->
                     transcript_stored_by [CallStoreTranscript v t l] r).
      { intros [H1 [H2 H3]]. exists v, l.
        split; [left; congruence |]. split; congruence. }
      destruct Hrows as [[_ Hrows] | [_ [_ Hrows]]]; rewrite Hrows in Hin.
      * apply in_update_transcript_cases in Hin. tauto.
      * apply in_app_iff in Hin. destruct Hin as [Hin | [Hin | []]]; [auto |].
        subst r0. right. apply Hnew. auto.
    + left. eapply Hsame; [exact H | exact Hin].
    + contradiction.
  - left. eapply Hsame; [apply getTranscript_keeps_rows | exact Hin].
  - left. eapply Hsame; [apply getVideoMetadata_keeps_rows | exact Hin].
  - pose proof (storeAnalysis_outcome E v a w) as H.
    destruct (storeAnalysis E v a w) as [[[] | e | c] w']; simpl in *.
    + destruct H as [_ [Ht _]]. rewrite Ht in Hin. auto.
    + left. eapply Hsame; [exact H | exact Hin].
    + contradiction.
  - left. eapply Hsame; [apply getAllVideoIds_keeps_rows | exact Hin].
Qed.

Lemma history_transcripts_origin (E : Env) (cs : list Call) (w : World)
    (r : Transcripts.row) :
  In r (rows (transcripts (db (history E cs w)))) ->
  In r (rows (transcripts (db w))) \/ transcript_stored_by cs r.
Proof.
  revert w. induction cs as [| c cs IH]; intros w Hin; simpl in *; [auto |].
  apply IH in Hin. destruct Hin as [Hin | [v [l [Hl Hlang]]]].
  - apply call_transcripts_origin in Hin.
    destruct Hin as [Hin | [v [l [[Hl | []] Hlang]]]]; [auto |].
    right. exists v, l. split; [left; exact Hl | exact Hlang].
  - right. exists v, l. split; [right; exact Hl | exact Hlang].
Qed.

Lemma getTranscript_Ok (E : Env) (v : string) (w w' : World)
    (a : option (string * string)) :
  getTranscript E v w = (Ok a, w') ->
  a = match filter (fun x => Transcripts.video_id x =? v)
              (rows (transcripts (db w))) with
      | row :: _ =>
          Some (Transcripts.full_transcript row, Transcripts.language row)
      | [] => None
      end.
Proof.
  unfold getTranscript. intros H.
  apply try_rethrow_Ok with (l := LTranscriptFetchError v) in H.
  apply bind_Ok in H. destruct H as [[] [w1 [H1 H]]].
  apply bind_Ok in H. destruct H as [result [w2 [H2 H]]].
  pose proof (ensure_pool_keeps_rows E w) as Hk. rewrite H1 in Hk.
  destruct Hk as [_ [Hk _]]. simpl in Hk.
  apply pool_query_Ok in H2. destruct H2 as [_ [_ [_ H2]]].
  unfold select_transcript in H2.
  destruct (transcripts (db w1)) as [tb |] eqn:Ht; [| discriminate].
  destruct (text v) as [e | v'] eqn:Htext; [discriminate |].
  apply text_inr in Htext. destruct Htext as [Hv' _]. subst v'.
  inversion H2; subst result. rewrite Hk. simpl.
  destruct (filter _ tb); unfold ret in H; inversion H; reflexivity.
Qed.

(** X6. [getTranscript] returns nothing of its own: after any calls on a
    fresh database, a transcript it returns for an identifier is the text
    of a [storeTranscript] call whose identifier the column keeps as that
    one, with the first ten characters of the language of that call (of
    ["en"] when the call gave none); when no [storeTranscript] call was
    made for an identifier that the column keeps so, it returns null
    whenever it returns. *)
Theorem read_transcript_was_stored (E : Env) (cs : list Call) (v : string)
    (a : option (string * string)) :
  fst (getTranscript E v (history E cs initial_world)) = Ok a ->
  match a with
  | Some (body, lang) =>
      exists v' l,
        In (CallStoreTranscript v' (Some body) l) cs /\
        first_chars 255 v' = v /\
        lang = first_chars 10 match l with
                              | Some language => language
                              | None => "en"
                              end
  | None => True
  end /\
  ((forall v' t l, In (CallStoreTranscript v' t l) cs ->
                   first_chars 255 v' <> v) ->
   a = None).
Proof.
  intros H.
  destruct (getTranscript E v (history E cs initial_world)) as [o w'] eqn:Hg.
  simpl in H. subst o. apply getTranscript_Ok in Hg.
  assert (Hsome : forall body lang, a = Some (body, lang) ->
            exists v' l, In (CallStoreTranscript v' (Some body) l) cs /\
                         first_chars 255 v' = v /\
                         lang = first_chars 10 (language_given l)).
  { intros body lang Ha. rewrite Ha in Hg.
    destruct (filter _ _) as [| row rest] eqn:Hf; [discriminate |].
    assert (Hin : In row (filter (fun x => Transcripts.video_id x =? v)
                    (rows (transcripts (db (history E cs initial_world)))))).
    { rewrite Hf. left. reflexivity. }
    apply filter_In in Hin. destruct Hin as [Hin Hv].
    apply String.eqb_eq in Hv.
    apply history_transcripts_origin in Hin.
    destruct Hin as [[] | [v' [l [Hl [Hk Hlang]]]]].
    inversion Hg. exists v', l. unfold video_key in Hk.
    split; [congruence |]. split; congruence. }
  split.
  - destruct a as [[body lang] |]; [| exact I]. apply Hsome. reflexivity.
  - intros Hnone. destruct a as [[body lang] |]; [| reflexivity].
    destruct (Hsome body lang eq_refl) as [v' [l [Hl [Hk _]]]].
    exfalso. exact (Hnone _ _ _ Hl Hk).
Qed.

Lemma read_transcript_was_stored_witness :
  match Some ("hello", "en        ") with
  | Some (body, lang) =>
      exists v' l,
        In (CallStoreTranscript v' (Some body) l)
           [CallStoreVideo (clip "a1" "First");
            CallStoreTranscript "a1" (Some "hello") (Some "en         ")] /\
        first_chars 255 v' = "a1" /\
        lang = first_chars 10 match l with
                              | Some language => language
                              | None => "en"
                              end
  | None => True
  end /\
  ((forall v' t l,
       In (CallStoreTranscript v' t l)
          [CallStoreVideo (clip "a1" "First");
           CallStoreTranscript "a1" (Some "hello") (Some "en         ")] ->
       first_chars 255 v' <> "a1") ->
   Some ("hello", "en        ") = None).
Proof.
  apply (read_transcript_was_stored calm
           [CallStoreVideo (clip "a1" "First");
            CallStoreTranscript "a1" (Some "hello") (Some "en         ")]
           "a1" (Some ("hello", "en        "))).
  vm_compute. reflexivity.
Defined.

(* ------------------------------------------------------------------ *)
(** ** Videos *)

Lemma or_else_or_null {A : Type} (truthy : A -> bool) (o : option A) (d : A) :
  or_else truthy (or_null truthy o) d = or_else truthy o d.
Proof.
  unfold or_else, or_null. destruct o as [a |]; [| reflexivity].
  destruct (truthy a) eqn:Ha; [rewrite Ha |]; reflexivity.
Qed.

Lemma filter_upsert_video_head (r : Videos.row) (t : list Videos.row) :
  exists x rest,
    filter (fun x => Videos.video_id x =? Videos.video_id r) (upsert_video r t)
    = x :: rest /\ x = r.
Proof.
  unfold upsert_video.
  destruct (existsb (fun x => Videos.video_id x =? Videos.video_id r) t) eqn:Hex.
  - induction t as [| y t IH]; simpl in *; [discriminate |].
    destruct (Videos.video_id y =? Videos.video_id r) eqn:Hy; simpl.
    + rewrite Hy. eexists. eexists. split; [reflexivity |].
      apply String.eqb_eq in Hy. rewrite Hy. destruct r; reflexivity.
    + rewrite Hy. apply IH. exact Hex.
  - rewrite filter_app. simpl. rewrite String.eqb_refl.
    rewrite filter_video_id_absent.
    + eexists. eexists. split; reflexivity.
    + intros H. apply existsb_video_id in H. congruence.
Qed.

(** With a pool and the table, [getVideoMetadata] is one statement. *)
Lemma getVideoMetadata_run (E : Env) (v : string) (w : World) :
  pool w <> None -> videos (db w) <> None ->
  query_error E (queries w) = None -> has_nul v = false ->
  fst (getVideoMetadata E v w) =
  Ok match filter (fun x => Videos.video_id x =? v) (rows (videos (db w))) with
     | [] => None
     | row :: _ => Some (read_row row)
     end.
Proof.
  intros Hp Hv Hq Hn. unfold getVideoMetadata, try_catch. unfold bind at 1.
  rewrite ensure_pool_skip by exact Hp.
  unfold bind, pool_query, select_video, ret, text. rewrite Hn.
  destruct (pool w); [| congruence]. rewrite Hq.
  destruct (videos (db w)) as [t |]; [| congruence]. simpl.
  destruct (filter _ t) as [| row rest]; [reflexivity |].
  unfold read_row, date_or_empty. rewrite or_else_duration. reflexivity.
Qed.

(** X7. A record that [storeVideo] has stored is read back by
    [getVideoMetadata] under its identifier as the column keeps it, unless
    the statement is lost on the way, with that identifier and the title
    and the description given.  A published date that was given and not
    empty comes back as the date that the driver makes of it, one that was
    missing or empty as the empty string; a duration comes back as given,
    and one that was missing or NaN as zero; the view count comes back as
    zero and the URL as the watch URL of the identifier given, whatever the
    record held.  An identifier of at most 255 characters is kept as it
    is. *)
Theorem stored_video_is_read_back (E : Env) (m : VideoMetadata) (w w' : World) :
  storeVideo E m w = (Ok tt, w') ->
  query_error E (queries w') = None ->
  exists title,
    VideoMetadata.title m = Some title /\
    fst (getVideoMetadata E (first_chars 255 (VideoMetadata.id m)) w') =
    Ok (Some (ReadMetadata.mk
                (first_chars 255 (VideoMetadata.id m))
                title
                (VideoMetadata.description m)
                match VideoMetadata.publishedDate m with
                | Some s => if s =? "" then TextOf "" else DateOf s
                | None => TextOf ""
                end
                match VideoMetadata.durationInSeconds m with
                | Some (Num z) => Num z
                | Some NaN => Num 0
                | Some (Infinity _) => Num 0
                | None => Num 0
                end
                (Num 0)
                ("https://youtube.com/watch?v=" ++ VideoMetadata.id m))) /\
    ((char_length (VideoMetadata.id m) <= 255)%nat ->
     first_chars 255 (VideoMetadata.id m) = VideoMetadata.id m).
Proof.
  intros Hs Hq. pose proof (storeVideo_outcome E m w) as Ho. rewrite Hs in Ho.
  destruct Ho as [r [Hr [Hrows [_ [_ [Hp Hv]]]]]].
  pose proof (metadata_row_checked E m r Hr) as [Hn _].
  apply metadata_row_fields in Hr.
  destruct Hr as [Hid [Ht [Hd [Hpd [Hdu Hu]]]]].
  exists (Videos.title r). split; [exact Ht |].
  split; [| apply (first_chars_short 255)].
  unfold video_key in Hid.
  rewrite (getVideoMetadata_run E _ w' Hp Hv Hq
             (has_nul_first_chars 255 _ Hn)), Hrows.
  rewrite <- Hid.
  destruct (filter_upsert_video_head r (rows (videos (db w))))
    as [x [rest [Hf Hx]]].
  rewrite Hf. subst x. unfold read_row.
  rewrite Hpd, Hd, Hu. rewrite or_null_published_date.
  apply or_null_duration in Hdu. destruct Hdu as [Hdu _]. rewrite Hdu.
  f_equal. f_equal. f_equal.
  - destruct (VideoMetadata.publishedDate m) as [s |]; [| reflexivity].
    destruct (s =? ""); reflexivity.
  - destruct (VideoMetadata.durationInSeconds m) as [[| z | negative] |];
      try reflexivity.
    destruct (z =? 0)%Z eqn:Hz; [| reflexivity].
    apply Z.eqb_eq in Hz. subst z. reflexivity.
Qed.

Lemma stored_video_is_read_back_witness :
  exists title,
    Some "First" = Some title /\
    fst (getVideoMetadata calm "a1"
           (snd (storeVideo calm (clip "a1" "First") initial_world))) =
    Ok (Some (ReadMetadata.mk "a1" title (Some "A patient tells her story.")
                (DateOf "2024-01-15T10:00:00Z") (Num 754) (Num 0)
                "https://youtube.com/watch?v=a1")).
Proof.
  destruct (stored_video_is_read_back calm (clip "a1" "First") initial_world
              (snd (storeVideo calm (clip "a1" "First") initial_world)))
    as [title [Ht [Hg _]]].
  - vm_compute. reflexivity.
  - vm_compute. reflexivity.
  - exists title. split; [exact Ht | exact Hg].
Defined.

(* ------------------------------------------------------------------ *)
(** ** Rows under other keys *)

Lemma filter_upsert_video_other (k : string) (r : Videos.row)
    (t : list Videos.row) :
  Videos.video_id r <> k ->
  filter (fun x => Videos.video_id x =? k) (upsert_video r t)
  = filter (fun x => Videos.video_id x =? k) t.
Proof.
  intros Hne. apply String.eqb_neq in Hne. unfold upsert_video.
  destruct (existsb _ t).
  - induction t as [| y t IH]; simpl; [reflexivity |].
    destruct (Videos.video_id y =? Videos.video_id r) eqn:Hy; simpl.
    + apply String.eqb_eq in Hy. rewrite Hy, Hne. exact IH.
    + rewrite IH. reflexivity.
  - rewrite filter_app. simpl. rewrite Hne. apply app_nil_r.
Qed.

Lemma filter_update_transcript_other (k : string) (r : Transcripts.row)
    (t : list Transcripts.row) :
  Transcripts.video_id r <> k ->
  filter (fun x => Transcripts.video_id x =? k) (update_transcript r t)
  = filter (fun x => Transcripts.video_id x =? k) t.
Proof.
  intros Hne. apply String.eqb_neq in Hne. unfold update_transcript.
  induction t as [| y t IH]; simpl; [reflexivity |].
  destruct (Transcripts.video_id y =? Transcripts.video_id r) eqn:Hy; simpl.
  - apply String.eqb_eq in Hy. rewrite Hy, Hne. exact IH.
  - rewrite IH. reflexivity.
Qed.

Lemma filter_update_analysis_other (k : string) (r : Analysis.row)
    (t : list Analysis.row) :
  Analysis.video_id r <> k ->
  filter (fun x => Analysis.video_id x =? k) (update_analysis r t)
  = filter (fun x => Analysis.video_id x =? k) t.
Proof.
  intros Hne. apply String.eqb_neq in Hne. unfold update_analysis.
  induction t as [| y t IH]; simpl; [reflexivity |].
  destruct (Analysis.video_id y =? Analysis.video_id r) eqn:Hy; simpl.
  - apply String.eqb_eq in Hy. rewrite Hy, Hne. exact IH.
  - rewrite IH. reflexivity.
Qed.

(** X8. A store touches only its own key: whatever its outcome,
    [storeVideo], [storeTranscript] and [storeAnalysis] leave the rows
    found under every other video identifier, in the table they write to,
    exactly as they were.  The key of a store is its identifier as the
    column keeps it, the first 255 characters. *)
Theorem store_leaves_other_keys (E : Env) (w : World) (k : string)
    (m : VideoMetadata) (v : string) (t l : option string)
    (a : AnalysisResult) :
  first_chars 255 (VideoMetadata.id m) <> k -> first_chars 255 v <> k ->
  filter (fun x => Videos.video_id x =? k)
    (rows (videos (db (snd (storeVideo E m w)))))
  = filter (fun x => Videos.video_id x =? k) (rows (videos (db w))) /\
  filter (fun x => Transcripts.video_id x =? k)
    (rows (transcripts (db (snd (storeTranscript E v t l w)))))
  = filter (fun x => Transcripts.video_id x =? k) (rows (transcripts (db w))) /\
  filter (fun x => Analysis.video_id x =? k)
    (rows (analysis (db (snd (storeAnalysis E v a w)))))
  = filter (fun x => Analysis.video_id x =? k) (rows (analysis (db w))).
Proof.
  intros Hm Hv. fold (video_key (VideoMetadata.id m)) in Hm.
  fold (video_key v) in Hv. split; [| split].
  - pose proof (storeVideo_outcome E m w) as H.
    destruct (storeVideo E m w) as [[[] | e | c] w']; simpl.
    + destruct H as [r [Hr [Hrows _]]]. rewrite Hrows.
      apply metadata_row_fields in Hr. destruct Hr as [Hid _].
      apply filter_upsert_video_other. congruence.
    + destruct H as [H _]. rewrite H. reflexivity.
    + contradiction.
  - pose proof (storeTranscript_outcome E v t l w) as H.
    destruct (storeTranscript E v t l w) as [[[] | e | c] w']; simpl.
    + destruct H as [_ [_ [r [Hr [[_ Hrows] | [_ Hrows]]]]]]; rewrite Hrows.
      * apply filter_update_transcript_other. congruence.
      * rewrite filter_app. simpl. rewrite Hr.
        apply String.eqb_neq in Hv. rewrite Hv. apply app_nil_r.
    + destruct H as [_ [H _]]. rewrite H. reflexivity.
    + contradiction.
  - pose proof (storeAnalysis_outcome E v a w) as H.
    destruct (storeAnalysis E v a w) as [[[] | e | c] w']; simpl.
    + destruct H as [_ [_ [r [_ [Hr [[_ Hrows] | [_ Hrows]]]]]]]; rewrite Hrows.
      * apply filter_update_analysis_other. congruence.
      * rewrite filter_app. simpl. rewrite Hr.
        apply String.eqb_neq in Hv. rewrite Hv. apply app_nil_r.
    + destruct H as [_ [_ H]]. rewrite H. reflexivity.
    + contradiction.
Qed.

Lemma store_leaves_other_keys_witness :
  first_chars 255 (VideoMetadata.id (clip "b2" "Second")) <> "a1" /\
  first_chars 255 "b2" <> "a1" /\
  filter (fun x => Videos.video_id x =? "a1")
    (rows (videos (db (snd (storeVideo calm (clip "b2" "Second")
                              (history calm [CallStoreVideo (clip "a1" "First")]
                                 initial_world))))))
  = filter (fun x => Videos.video_id x =? "a1")
      (rows (videos (db (history calm [CallStoreVideo (clip "a1" "First")]
                           initial_world)))).
Proof.
  assert (H : first_chars 255 "b2" <> "a1")
    by (intros H; vm_compute in H; discriminate).
  split; [exact H |]. split; [exact H |].
  apply (store_leaves_other_keys calm
           (history calm [CallStoreVideo (clip "a1" "First")] initial_world)
           "a1" (clip "b2" "Second") "b2" (Some "Hello.") None told);
    exact H.
Defined.

(** The key is the identifier as the column keeps it: a store under an
    identifier of 255 characters and a space replaces the row of the video
    known under the 255 characters. *)
Example store_under_padded_id :
  VideoMetadata.id (clip (long_id ++ " ") "Second") <> long_id /\
  map Videos.title
    (rows (videos (db (history calm [CallStoreVideo (clip long_id "First")]
                         initial_world))))
  = ["First"] /\
  map Videos.title
    (rows (videos (db (history calm
                         [CallStoreVideo (clip long_id "First");
                          CallStoreVideo (clip (long_id ++ " ") "Second")]
                         initial_world))))
  = ["Second"].
Proof.
  split; [intros H; vm_compute in H; discriminate |].
  split; vm_compute; reflexivity.
Qed.

(* ------------------------------------------------------------------ *)
(** ** The connection *)

Lemma attempts_apart_S (ms : Z) (k n : nat) :
  (1 <= k)%nat ->
  attempts_apart ms (S k) n = EvConnect n :: EvSleep ms :: attempts_apart ms k (S n).
Proof. destruct k; [lia | reflexivity]. Qed.

(** The loop of [connectWithRetry] with [fuel] iterations left and at least
    one of them to make. *)
Lemma connectLoop_attempts (E : Env) (retries : nat) (ms : Z) :
  forall (fuel attempt : nat) (w : World),
    (fuel + attempt = retries)%nat -> (0 < fuel)%nat ->
    exists k evs,
      (1 <= k <= fuel)%nat /\
      trace (snd (connectLoop E fuel retries ms attempt w)) = (trace w ++ evs)%list /\
      filter (fun e => negb (is_log e)) evs = attempts_apart ms k (attempts w) /\
      attempts (snd (connectLoop E fuel retries ms attempt w))
      = (attempts w + k)%nat /\
      (forall j, (j < k - 1)%nat -> connect_error E (attempts w + j) <> None) /\
      match connect_error E (attempts w + (k - 1)) with
      | None =>
          fst (connectLoop E fuel retries ms attempt w)
          = Ok (attempts w + (k - 1))%nat
      | Some msg =>
          k = fuel /\
          fst (connectLoop E fuel retries ms attempt w)
          = Throw (ConnectionError msg)
      end.
Proof.
  induction fuel as [| fuel IH]; intros attempt w Hsum Hpos; [lia |].
  cbn [connectLoop].
  assert (Hlt : (attempt <? retries)%nat = true) by (apply Nat.ltb_lt; lia).
  rewrite Hlt.
  destruct (connect_error E (attempts w)) as [msg |] eqn:Hc.
  - set (w3 := mkWorld (pool w) (db w) (S (attempts w)) (queries w) (written w)
                 (trace w ++ [EvLog (LConnecting (attempt + 1) retries);
                              EvConnect (attempts w);
                              EvLog (LConnectFailed (S attempt) retries msg);
                              EvSleep ms])).
    assert (Hrun :
      try_catch
        (safeLog (LConnecting (attempt + 1) retries) ;;
         newPool <- connect E ;; safeLog LConnected ;; ret newPool)
        (fun error =>
           safeLog (LConnectFailed (S attempt) retries (message error)) ;;
           (if (retries <=? S attempt)%nat then throw error
            else sleep ms ;; connectLoop E fuel retries ms (S attempt))) w
      = if (retries <=? S attempt)%nat then
          (Throw (ConnectionError msg),
           mkWorld (pool w) (db w) (S (attempts w)) (queries w) (written w)
             (trace w ++ [EvLog (LConnecting (attempt + 1) retries);
                          EvConnect (attempts w);
                          EvLog (LConnectFailed (S attempt) retries msg)]))
        else connectLoop E fuel retries ms (S attempt) w3).
    { unfold try_catch, bind, safeLog, sleep, emit, connect, throw, ret, w3.
      destruct (retries <=? S attempt)%nat; simpl; rewrite Hc; simpl;
        rewrite <- !app_assoc; reflexivity. }
    rewrite Hrun. clear Hrun.
    destruct (retries <=? S attempt)%nat eqn:Hlast.
    + apply Nat.leb_le in Hlast. exists 1%nat. eexists.
      split; [lia |]. cbn [fst snd trace attempts].
      split; [reflexivity |].
      split; [reflexivity |].
      split; [lia |].
      split; [intros j Hj; lia |].
      rewrite Nat.add_0_r, Hc. split; [lia | reflexivity].
    + apply Nat.leb_gt in Hlast.
      destruct (IH (S attempt) w3) as [k [evs [Hk [Ht [Hf [Ha [Hj Hm]]]]]]];
        [lia | lia |].
      exists (S k).
      exists ([EvLog (LConnecting (attempt + 1) retries);
               EvConnect (attempts w);
               EvLog (LConnectFailed (S attempt) retries msg);
               EvSleep ms] ++ evs)%list.
      simpl attempts in *. simpl trace in Ht.
      split; [lia |].
      split; [rewrite Ht, <- !app_assoc; reflexivity |].
      split.
      { rewrite attempts_apart_S by lia. simpl. rewrite Hf. reflexivity. }
      split; [rewrite Ha; lia |].
      split.
      { intros j Hlt'. destruct j as [| j].
        - rewrite Nat.add_0_r. congruence.
        - replace (attempts w + S j)%nat with (S (attempts w) + j)%nat by lia.
          apply Hj. lia. }
      replace (attempts w + (S k - 1))%nat
        with (S (attempts w) + (k - 1))%nat by lia.
      destruct (connect_error E (S (attempts w) + (k - 1))) as [msg' |].
      * destruct Hm as [Hk' Hm]. split; [lia | exact Hm].
      * exact Hm.
  - exists 1%nat. eexists.
    split; [lia |].
    unfold try_catch, bind, safeLog, sleep, emit, connect, throw, ret.
    cbn [attempts]. rewrite Hc. cbn [fst snd trace attempts].
    split; [rewrite <- !app_assoc; reflexivity |].
    split; [reflexivity |].
    split; [lia |].
    split; [intros j Hj; lia |].
    rewrite Nat.add_0_r, Hc. reflexivity.
Qed.

(** X9. [connectWithRetry] with any budget and any interval.  With no
    attempt allowed it throws its own error at once and does nothing else.
    Otherwise it makes between one attempt and as many as allowed, sleeps
    the interval between one attempt and the next, returns the pool of the
    first attempt that is answered and, when none is, throws the error of
    the last attempt: the error that follows the loop is then never
    thrown. *)
Theorem connectWithRetry_any_budget (E : Env) (retries : nat) (ms : Z)
    (w : World) :
  match retries with
  | O =>
      connectWithRetry E 0 ms w
      = (Throw (JsError "Failed to connect to database after multiple attempts"),
         w)
  | S _ =>
      exists k evs,
        (1 <= k <= retries)%nat /\
        trace (snd (connectWithRetry E retries ms w)) = (trace w ++ evs)%list /\
        filter (fun e => negb (is_log e)) evs
        = attempts_apart ms k (attempts w) /\
        attempts (snd (connectWithRetry E retries ms w)) = (attempts w + k)%nat /\
        (forall j, (j < k - 1)%nat -> connect_error E (attempts w + j) <> None) /\
        match connect_error E (attempts w + (k - 1)) with
        | None =>
            fst (connectWithRetry E retries ms w)
            = Ok (attempts w + (k - 1))%nat
        | Some msg =>
            k = retries /\
            fst (connectWithRetry E retries ms w) = Throw (ConnectionError msg)
        end
  end.
Proof.
  destruct retries as [| n]; [reflexivity |].
  unfold connectWithRetry.
  apply (connectLoop_attempts E (S n) ms (S n) 0 w); lia.
Qed.

(** *** Once there is a pool *)

Lemma connection_kept_refl (w : World) : connection_kept w w.
Proof. split; reflexivity. Qed.

Lemma connection_kept_trans (w1 w2 w3 : World) :
  connection_kept w1 w2 -> connection_kept w2 w3 -> connection_kept w1 w3.
Proof. unfold connection_kept. intros [H1 H2] [H3 H4]. split; congruence. Qed.

Lemma connection_kept_log (m : LogMsg) : steps connection_kept (safeLog m).
Proof. intros w. split; reflexivity. Qed.

Lemma connection_kept_query (E : Env) (A : Type) (q : Sql) (stmt : Statement A) :
  steps connection_kept (pool_query E q stmt).
Proof.
  intros w. unfold pool_query, connection_kept.
  destruct (pool w) eqn:Hp; [| auto].
  destruct (query_error E (queries w)); [auto |].
  destruct (stmt (db w)) as [[e | a] d]; auto.
Qed.

Lemma ensure_pool_skipped (E : Env) {A : Type} (k : M A) (h : Error -> M A)
    (w : World) :
  pool w <> None ->
  try_catch (ensure_pool E ;; k) h w = try_catch k h w.
Proof.
  intros Hp. unfold try_catch, bind.
  rewrite (ensure_pool_skip E w Hp). reflexivity.
Qed.

Lemma initializeDatabase_with_pool (E : Env) (w : World) :
  pool w <> None ->
  initializeDatabase E w
  = try_catch
      (pool_query E CreateVideos create_videos ;;
       pool_query E CreateTranscripts create_transcripts ;;
       pool_query E CreateAnalysis create_analysis ;;
       safeLog LDbInitialized)
      (fun error => safeLog (LDbInitError error) ;; throw error) w.
Proof.
  intros Hp. unfold initializeDatabase, try_catch.
  unfold bind at 1. unfold get_pool at 1.
  destruct (pool w) eqn:Hp'; [| congruence].
  unfold bind at 1. unfold ret at 1. reflexivity.
Qed.

Ltac with_pool E :=
  pose proof connection_kept_refl;
  pose proof connection_kept_trans;
  pose proof connection_kept_log;
  pose proof (connection_kept_query E);
  steps_auto.

Lemma call_connection_kept (E : Env) (c : Call) (w : World) :
  pool w <> None -> connection_kept w (call E c w).
Proof.
  intros Hp. destruct c as [| m | v t l | v | v | v a |]; simpl.
  - rewrite (initializeDatabase_with_pool E w Hp).
    match goal with |- connection_kept w (snd (?m w)) =>
      change (connection_kept w (snd (m w))); cut (steps connection_kept m);
        [intros Hs; apply Hs |] end.
    with_pool E.
  - unfold storeVideo. rewrite (ensure_pool_skipped E _ _ w Hp).
    match goal with |- connection_kept w (snd (?m w)) =>
      cut (steps connection_kept m); [intros Hs; apply Hs |] end.
    with_pool E.
  - unfold storeTranscript. rewrite (ensure_pool_skipped E _ _ w Hp).
    match goal with |- connection_kept w (snd (?m w)) =>
      cut (steps connection_kept m); [intros Hs; apply Hs |] end.
    with_pool E.
  - unfold getTranscript. rewrite (ensure_pool_skipped E _ _ w Hp).
    match goal with |- connection_kept w (snd (?m w)) =>
      cut (steps connection_kept m); [intros Hs; apply Hs |] end.
    with_pool E.
  - unfold getVideoMetadata. rewrite (ensure_pool_skipped E _ _ w Hp).
    match goal with |- connection_kept w (snd (?m w)) =>
      cut (steps connection_kept m); [intros Hs; apply Hs |] end.
    with_pool E.
  - unfold storeAnalysis. rewrite (ensure_pool_skipped E _ _ w Hp).
    match goal with |- connection_kept w (snd (?m w)) =>
      cut (steps connection_kept m); [intros Hs; apply Hs |] end.
    with_pool E.
  - unfold getAllVideoIds. rewrite (ensure_pool_skipped E _ _ w Hp).
    match goal with |- connection_kept w (snd (?m w)) =>
      cut (steps connection_kept m); [intros Hs; apply Hs |] end.
    with_pool E.
Qed.

(** X10. The pool is created once: when the module has a pool, no call of
    an exported function, and no sequence of such calls, replaces or drops
    it or makes another connection attempt, whatever the calls' outcomes. *)
Theorem pool_is_created_once (E : Env) (cs : list Call) (w : World) :
  pool w <> None ->
  pool (history E cs w) = pool w /\
  attempts (history E cs w) = attempts w.
Proof.
  revert w. induction cs as [| c cs IH]; intros w Hp; simpl; [auto |].
  destruct (call_connection_kept E c w Hp) as [Hp1 Ha1].
  destruct (IH (call E c w)) as [Hp2 Ha2]; [congruence |].
  split; congruence.
Qed.

Lemma pool_is_created_once_witness :
  pool (snd (initializeDatabase slow_start initial_world)) <> None /\
  pool (history slow_start
          [CallStoreVideo (clip "a1" "First"); CallGetAllVideoIds;
           CallInitializeDatabase]
          (snd (initializeDatabase slow_start initial_world)))
  = pool (snd (initializeDatabase slow_start initial_world)) /\
  attempts (history slow_start
              [CallStoreVideo (clip "a1" "First"); CallGetAllVideoIds;
               CallInitializeDatabase]
              (snd (initializeDatabase slow_start initial_world)))
  = attempts (snd (initializeDatabase slow_start initial_world)).
Proof.
  assert (Hp : pool (snd (initializeDatabase slow_start initial_world)) <> None).
  { assert (H4 : pool (snd (initializeDatabase slow_start initial_world))
                 = Some 4%nat) by (vm_compute; reflexivity).
    rewrite H4. discriminate. }
  split; [exact Hp |].
  exact (pool_is_created_once slow_start
           [CallStoreVideo (clip "a1" "First"); CallGetAllVideoIds;
            CallInitializeDatabase]
           (snd (initializeDatabase slow_start initial_world)) Hp).
Defined.

(** X11. A table that is missing is not created on the way: when the
    module has a pool but [videos] is not there (the statement that
    creates it was lost while the connection had been made), [storeVideo]
    does not initialise the database again; it throws, with the error of
    the lost statement or with the database's complaint about the table,
    and the table is still missing afterwards. *)
Theorem missing_table_is_not_created (E : Env) (m : VideoMetadata) (w : World) :
  pool w <> None -> videos (db w) = None ->
  fst (storeVideo E m w)
  = Throw match query_error E (queries w) with
          | Some msg => ConnectionError msg
          | None => UndefinedTable "videos"
          end /\
  pool (snd (storeVideo E m w)) = pool w /\
  videos (db (snd (storeVideo E m w))) = None.
Proof.
  intros Hp Hv. unfold storeVideo.
  rewrite (ensure_pool_skipped E _ _ w Hp).
  unfold try_catch, bind, pool_query, insert_video, safeLog, emit, throw.
  destruct (pool w) as [p |]; [| congruence].
  rewrite Hv. destruct (query_error E (queries w)); simpl; auto.
Qed.

Lemma missing_table_is_not_created_witness :
  pool (snd (initializeDatabase first_statement_lost initial_world)) <> None /\
  videos (db (snd (initializeDatabase first_statement_lost initial_world)))
  = None /\
  fst (storeVideo first_statement_lost (clip "a1" "First")
         (snd (initializeDatabase first_statement_lost initial_world)))
  = Throw (UndefinedTable "videos").
Proof.
  assert (Hp : pool (snd (initializeDatabase first_statement_lost initial_world))
               <> None).
  { assert (H0 : pool (snd (initializeDatabase first_statement_lost
                              initial_world)) = Some 0%nat)
      by (vm_compute; reflexivity).
    rewrite H0. discriminate. }
  assert (Hv : videos (db (snd (initializeDatabase first_statement_lost
                                  initial_world))) = None)
    by (vm_compute; reflexivity).
  split; [exact Hp |]. split; [exact Hv |].
  exact (proj1 (missing_table_is_not_created first_statement_lost
                  (clip "a1" "First")
                  (snd (initializeDatabase first_statement_lost initial_world))
                  Hp Hv)).
Defined.

(* ------------------------------------------------------------------ *)
(** ** One row for each video *)

Lemma filter_key_absent {A : Type} (key : A -> string) (k : string) (t : list A) :
  ~ In k (map key t) -> filter (fun y => key y =? k) t = [].
Proof.
  induction t as [| a t IH]; simpl; intros Hnotin; [reflexivity |].
  destruct (key a =? k) eqn:Ha.
  - apply String.eqb_eq in Ha. exfalso. apply Hnotin. left. exact Ha.
  - apply IH. intros H. apply Hnotin. right. exact H.
Qed.

(** Under a unique key, the rows found under the key of a row of the table
    are that row. *)
Lemma filter_key_unique {A : Type} (key : A -> string) (k : string)
    (t : list A) (x : A) :
  NoDup (map key t) -> In x t -> key x = k ->
  filter (fun y => key y =? k) t = [x].
Proof.
  induction t as [| a t IH]; simpl; intros Hnd Hin Hk; [contradiction |].
  apply NoDup_cons_iff in Hnd. destruct Hnd as [Hnotin Hnd].
  destruct Hin as [Hin | Hin].
  - subst a. rewrite Hk, String.eqb_refl.
    rewrite filter_key_absent; [reflexivity | congruence].
  - destruct (key a =? k) eqn:Ha.
    + apply String.eqb_eq in Ha. exfalso. apply Hnotin.
      rewrite Ha, <- Hk. apply in_map. exact Hin.
    + apply IH; assumption.
Qed.

Lemma NoDup_snoc_absent {A : Type} (l : list A) (a : A) :
  NoDup (l ++ [a]) -> ~ In a l.
Proof.
  intros Hnd Hin. apply NoDup_remove_2 in Hnd. apply Hnd.
  rewrite app_nil_r. exact Hin.
Qed.

(** X12. [storeAnalysis] is an upsert keyed on the video: after a call
    that returns, in whatever state earlier calls have left, exactly one
    row of [analysis] is found under the identifier of the video as the
    column keeps it, the first 255 characters, and it holds the values of
    this call, the four JSON columns being null when the field is missing
    or falsy; when the video had an analysis before, no row was added. *)
Theorem storeAnalysis_upsert (E : Env) (cs : list Call) (v : string)
    (a : AnalysisResult) (w' : World) :
  storeAnalysis E v a (history E cs initial_world) = (Ok tt, w') ->
  filter (fun x => Analysis.video_id x =? first_chars 255 v)
         (rows (analysis (db w')))
  = [Analysis.mk (first_chars 255 v)
       (AnalysisResult.video_type a) (AnalysisResult.name a)
       (AnalysisResult.age a) (AnalysisResult.sex a)
       (AnalysisResult.location a)
       (or_null truthy_json (AnalysisResult.symptoms a))
       (or_null truthy_json (AnalysisResult.medicalHistoryOfPatient a))
       (or_null truthy_json (AnalysisResult.familyMedicalHistory a))
       (or_null truthy_json (AnalysisResult.challengesFacedDuringDiagnosis a))
       (AnalysisResult.key_opinion a)] /\
  (In (first_chars 255 v)
      (analysis_video_ids (db (history E cs initial_world))) ->
   analysis_video_ids (db w')
   = analysis_video_ids (db (history E cs initial_world))) /\
  ((char_length v <= 255)%nat -> first_chars 255 v = v).
Proof.
  intros Hs. set (w := history E cs initial_world) in *.
  assert (Hu : keys_unique (db w')).
  { change w' with (snd (Ok tt, w')). rewrite <- Hs.
    apply (call_keys_unique E (CallStoreAnalysis v a) w).
    apply history_keys_unique. apply keys_unique_empty. }
  destruct Hu as [_ [_ Hnd]]. unfold analysis_video_ids in *.
  pose proof (storeAnalysis_outcome E v a w) as Ho. rewrite Hs in Ho.
  destruct Ho as [_ [_ [r [Hr [Hk Hcase]]]]].
  apply analysis_row_fields in Hr. unfold stringify_or_null in Hr.
  fold (video_key v). rewrite <- Hr. split; [| split].
  - apply (filter_key_unique Analysis.video_id (video_key v) _ r Hnd);
      [| exact Hk].
    destruct Hcase as [[[x [Hin Hx]] Hrows] | [_ Hrows]]; rewrite Hrows.
    + apply in_update_analysis_self. exists x. split; [exact Hin | congruence].
    + apply in_app_iff. right. left. reflexivity.
  - intros Hin. destruct Hcase as [[_ Hrows] | [_ Hrows]]; rewrite Hrows in *.
    + apply update_analysis_video_ids.
    + rewrite map_app in Hnd. simpl in Hnd. rewrite Hk in Hnd.
      exfalso. exact (NoDup_snoc_absent _ _ Hnd Hin).
  - apply video_key_short.
Qed.

Lemma storeAnalysis_upsert_witness :
  filter (fun x => Analysis.video_id x =? "a1")
    (rows (analysis (db (snd (storeAnalysis calm "a1" told
      (history calm [CallStoreVideo (clip "a1" "First");
                     CallStoreAnalysis "a1" told] initial_world))))))
  = [Analysis.mk "a1" (Some "patient story") (Some "Maya") (Some "34") None None
       (Some (JArr [JStr "fatigue"; JStr "joint pain"])) (Some (JArr []))
       None None (Some "Ask for a second opinion.")] /\
  (In "a1" (analysis_video_ids
              (db (history calm [CallStoreVideo (clip "a1" "First");
                                 CallStoreAnalysis "a1" told] initial_world))) ->
   analysis_video_ids (db (snd (storeAnalysis calm "a1" told
      (history calm [CallStoreVideo (clip "a1" "First");
                     CallStoreAnalysis "a1" told] initial_world))))
   = analysis_video_ids
       (db (history calm [CallStoreVideo (clip "a1" "First");
                          CallStoreAnalysis "a1" told] initial_world))) /\
  ((char_length "a1" <= 255)%nat -> first_chars 255 "a1" = "a1").
Proof.
  apply (storeAnalysis_upsert calm
           [CallStoreVideo (clip "a1" "First"); CallStoreAnalysis "a1" told]
           "a1" told
           (snd (storeAnalysis calm "a1" told
              (history calm [CallStoreVideo (clip "a1" "First");
                             CallStoreAnalysis "a1" told] initial_world)))).
  vm_compute. reflexivity.
Defined.

Lemma in_update_transcript_of (r y : Transcripts.row) (t : list Transcripts.row) :
  In y t -> Transcripts.video_id y = Transcripts.video_id r ->
  In (Transcripts.mk (Transcripts.transcript_id y) (Transcripts.video_id y)
        (Transcripts.full_transcript r) (Transcripts.language r))
     (update_transcript r t).
Proof.
  intros Hin Hk. unfold update_transcript. apply in_map_iff.
  exists y. split; [| exact Hin].
  apply String.eqb_eq in Hk. rewrite Hk. reflexivity.
Qed.

(** X13. [storeTranscript] is an upsert keyed on the video: after a call
    that returns, in whatever state earlier calls have left, exactly one
    row of [transcripts] is found under the identifier of the video as the
    column keeps it, the first 255 characters, with the text given and the
    first ten characters of the language given, or of ["en"] by default,
    what follows them being spaces; when the video had a transcript before,
    that row has kept its [transcript_id]. *)
Theorem storeTranscript_upsert (E : Env) (cs : list Call) (v : string)
    (t l : option string) (w' : World) :
  storeTranscript E v t l (history E cs initial_world) = (Ok tt, w') ->
  exists x,
    filter (fun y => Transcripts.video_id y =? first_chars 255 v)
           (rows (transcripts (db w')))
    = [x] /\
    t = Some (Transcripts.full_transcript x) /\
    Transcripts.language x
    = first_chars 10 match l with
                     | Some language => language
                     | None => "en"
                     end /\
    all_spaces (after_chars 10 match l with
                               | Some language => language
                               | None => "en"
                               end) = true /\
    (forall y,
        In y (rows (transcripts (db (history E cs initial_world)))) ->
        Transcripts.video_id y = first_chars 255 v ->
        Transcripts.transcript_id x = Transcripts.transcript_id y).
Proof.
  intros Hs. set (w := history E cs initial_world) in *.
  assert (Hu : keys_unique (db w')).
  { change w' with (snd (Ok tt, w')). rewrite <- Hs.
    apply (call_keys_unique E (CallStoreTranscript v t l) w).
    apply history_keys_unique. apply keys_unique_empty. }
  destruct Hu as [Hnd _]. unfold transcript_video_ids in Hnd.
  pose proof (storeTranscript_Ok_checked _ _ _ _ _ _ Hs) as [_ [Hfl _]].
  apply fits_true in Hfl. destruct Hfl as [_ Hsl].
  apply storeTranscript_Ok in Hs.
  destruct Hs as [_ [_ [r [Hv [Htext [Hlang Hrows]]]]]].
  fold (video_key v). fold (language_given l).
  destruct Hrows as [[Hex Hrows] | [Hex [_ Hrows]]]; rewrite Hrows in *.
  - apply existsb_transcript in Hex. destruct Hex as [y0 [Hin0 Hk0]].
    assert (Hk0' : Transcripts.video_id y0 = Transcripts.video_id r) by congruence.
    pose proof (in_update_transcript_of r y0 _ Hin0 Hk0') as Hnew.
    exists (Transcripts.mk (Transcripts.transcript_id y0) (Transcripts.video_id y0)
              (Transcripts.full_transcript r) (Transcripts.language r)).
    split.
    { apply (filter_key_unique Transcripts.video_id (video_key v) _ _ Hnd Hnew).
      exact Hk0. }
    simpl. split; [exact Htext |]. split; [exact Hlang |].
    split; [exact Hsl |].
    intros y Hin Hk.
    assert (Hk' : Transcripts.video_id y = Transcripts.video_id r) by congruence.
    pose proof (in_update_transcript_of r y _ Hin Hk') as Hnew'.
    assert (Hone : filter (fun z => Transcripts.video_id z =? video_key v)
                     (update_transcript r (rows (transcripts (db w))))
                   = [Transcripts.mk (Transcripts.transcript_id y)
                        (Transcripts.video_id y)
                        (Transcripts.full_transcript r) (Transcripts.language r)]).
    { apply (filter_key_unique Transcripts.video_id (video_key v) _ _ Hnd Hnew').
      exact Hk. }
    rewrite (filter_key_unique Transcripts.video_id (video_key v) _ _ Hnd Hnew Hk0)
      in Hone.
    inversion Hone. reflexivity.
  - exists r. split.
    { apply (filter_key_unique Transcripts.video_id (video_key v) _ r Hnd);
        [| exact Hv].
      apply in_app_iff. right. left. reflexivity. }
    split; [exact Htext |]. split; [exact Hlang |]. split; [exact Hsl |].
    intros y Hin Hk. exfalso.
    assert (Htrue : existsb (fun x => Transcripts.video_id x =? video_key v)
                      (rows (transcripts (db w))) = true).
    { apply existsb_exists. exists y. split; [exact Hin |].
      apply String.eqb_eq. exact Hk. }
    congruence.
Qed.

Lemma storeTranscript_upsert_witness :
  exists x,
    filter (fun y => Transcripts.video_id y =? "a1")
      (rows (transcripts (db (snd (storeTranscript calm "a1" (Some "Again.")
        (Some "de         ")
        (history calm [CallStoreVideo (clip "a1" "First");
                       CallStoreTranscript "a1" (Some "Hello.") None]
           initial_world))))))
    = [x] /\
    Some "Again." = Some (Transcripts.full_transcript x) /\
    Transcripts.language x = "de        " /\
    (forall y,
        In y (rows (transcripts
                (db (history calm [CallStoreVideo (clip "a1" "First");
                                   CallStoreTranscript "a1" (Some "Hello.") None]
                       initial_world)))) ->
        Transcripts.video_id y = "a1" ->
        Transcripts.transcript_id x = Transcripts.transcript_id y).
Proof.
  destruct (storeTranscript_upsert calm
           [CallStoreVideo (clip "a1" "First");
            CallStoreTranscript "a1" (Some "Hello.") None]
           "a1" (Some "Again.") (Some "de         ")
           (snd (storeTranscript calm "a1" (Some "Again.") (Some "de         ")
              (history calm [CallStoreVideo (clip "a1" "First");
                             CallStoreTranscript "a1" (Some "Hello.") None]
                 initial_world))))
    as [x [Hf [Ht [Hl [_ Hid]]]]].
  - vm_compute. reflexivity.
  - exists x. split; [exact Hf |]. split; [exact Ht |].
    split; [exact Hl | exact Hid].
Defined.

(* ------------------------------------------------------------------ *)
(** ** The arguments *)

Lemma parseArgs_flag (E : Env) (f : Flag) (value : string) (rest : list string)
    (options : Options) :
  parseArgs E (flag_name f :: value :: rest) options
  = parseArgs E rest (set_option E options (f, value)).
Proof. destruct f; reflexivity. Qed.

Lemma parseArgs_other (E : Env) (arg : string) (rest : list string)
    (options : Options) :
  (forall f, arg <> flag_name f) ->
  parseArgs E (arg :: rest) options = parseArgs E rest options.
Proof.
  intros Hf. destruct rest as [| value rest]; [reflexivity |].
  cbn [parseArgs].
  pose proof (Hf FlagDisease) as H1. apply String.eqb_neq in H1.
  pose proof (Hf FlagMaxResults) as H2. apply String.eqb_neq in H2.
  pose proof (Hf FlagOutputFile) as H3. apply String.eqb_neq in H3.
  pose proof (Hf FlagVideoIdsFile) as H4. apply String.eqb_neq in H4.
  pose proof (Hf FlagVideoId) as H5. apply String.eqb_neq in H5.
  simpl flag_name in *. rewrite H1, H2, H3, H4, H5. reflexivity.
Qed.

(** X14. The argument loop of [main] on a command line made of flags with
    their values: the options are the assignments made from left to right,
    so the last value given for a flag is the one kept, and a value is
    taken as it is even when it spells a flag; one more argument at the
    end, a flag without its value or anything else, changes nothing; and
    an argument in front that is not a flag is passed over. *)
Theorem parseArgs_command_line (E : Env) (pairs : list (Flag * string))
    (options : Options) (last arg : string) :
  (forall f, arg <> flag_name f) ->
  parseArgs E (command_line pairs) options
  = fold_left (set_option E) pairs options /\
  parseArgs E (command_line pairs ++ [last]) options
  = fold_left (set_option E) pairs options /\
  parseArgs E (arg :: command_line pairs) options
  = fold_left (set_option E) pairs options.
Proof.
  intros Hf.
  assert (H1 : forall o, parseArgs E (command_line pairs) o
                         = fold_left (set_option E) pairs o).
  { induction pairs as [| [f v] pairs IH]; intros o; [reflexivity |].
    change (command_line ((f, v) :: pairs))
      with (flag_name f :: v :: command_line pairs).
    rewrite parseArgs_flag. apply IH. }
  split; [apply H1 |]. split.
  - revert options. clear H1.
    induction pairs as [| [f v] pairs IH]; intros o; [reflexivity |].
    change (command_line ((f, v) :: pairs) ++ [last])%list
      with (flag_name f :: v :: (command_line pairs ++ [last]))%list.
    rewrite parseArgs_flag. apply IH.
  - rewrite (parseArgs_other E arg _ _ Hf). apply H1.
Qed.

Lemma parseArgs_command_line_witness :
  (forall f, "fetch" <> flag_name f) /\
  parseArgs calm
    (command_line [(FlagDisease, "lupus"); (FlagMaxResults, "25");
                   (FlagDisease, "--video-id")]) no_options
  = mkOptions (Some "--video-id") (Some (Num 25)) None None None /\
  parseArgs calm
    (command_line [(FlagDisease, "lupus"); (FlagMaxResults, "25")]
     ++ ["--video-id"]) no_options
  = mkOptions (Some "lupus") (Some (Num 25)) None None None.
Proof.
  assert (Hf : forall f, "fetch" <> flag_name f)
    by (intros f; destruct f; discriminate).
  split; [exact Hf |]. split.
  - exact (proj1 (parseArgs_command_line calm
                    [(FlagDisease, "lupus"); (FlagMaxResults, "25");
                     (FlagDisease, "--video-id")]
                    no_options "--video-id" "fetch" Hf)).
  - exact (proj1 (proj2 (parseArgs_command_line calm
                    [(FlagDisease, "lupus"); (FlagMaxResults, "25")]
                    no_options "--video-id" "fetch" Hf))).
Defined.

(* ------------------------------------------------------------------ *)
(** ** The status a run ends with *)

Lemma fst_bind {A B : Type} (m : M A) (k : A -> M B) (w : World) :
  fst (bind m k w)
  = match fst (m w) with
    | Ok a => fst (k a (snd (m w)))
    | Throw e => Throw e
    | Exit c => Exit c
    end.
Proof. unfold bind. destruct (m w) as [[a | e | c] w1]; reflexivity. Qed.

Lemma snd_bind {A B : Type} (m : M A) (k : A -> M B) (w : World) :
  snd (bind m k w)
  = match fst (m w) with
    | Ok a => snd (k a (snd (m w)))
    | _ => snd (m w)
    end.
Proof. unfold bind. destruct (m w) as [[a | e | c] w1]; reflexivity. Qed.

(** A handler that logs and exits. *)
Lemma fst_try_exit {A : Type} (m : M A) (l : Error -> LogMsg) (w : World) :
  fst (try_catch m (fun error => safeLog (l error) ;; exit 1) w)
  = match fst (m w) with
    | Throw _ => Exit 1
    | r => r
    end.
Proof. unfold try_catch. destruct (m w) as [[a | e | c] w1]; reflexivity. Qed.

Lemma youtube_fetcher_status (E : Env) (args : list string) (w : World) :
  fst (youtube_fetcher E args w)
  = match fst (main E args w) with
    | Ok _ =>
        if stream_error E (written w) (written (snd (main E args w)))
        then 1%Z else 0%Z
    | Exit c => c
    | Throw _ => 1%Z
    end.
Proof.
  unfold youtube_fetcher, try_catch.
  destruct (main E args w) as [[a | e | c] w1]; reflexivity.
Qed.

Lemma try_exit_Ok {A : Type} (m : M A) (l : Error -> LogMsg)
    (w w' : World) (a : A) :
  try_catch m (fun error => safeLog (l error) ;; exit 1) w = (Ok a, w') ->
  m w = (Ok a, w').
Proof.
  unfold try_catch. destruct (m w) as [[a' | e | c] w1]; intros H;
    try discriminate; exact H.
Qed.

(** *** The count of the writes to standard output *)

Lemma keeps_written_refl (w : World) : keeps_written w w.
Proof. reflexivity. Qed.

Lemma keeps_written_trans (w1 w2 w3 : World) :
  keeps_written w1 w2 -> keeps_written w2 w3 -> keeps_written w1 w3.
Proof. unfold keeps_written. congruence. Qed.

Lemma keeps_written_emit (e : Event) : steps keeps_written (emit e).
Proof. intros w. reflexivity. Qed.

Lemma keeps_written_log (m : LogMsg) : steps keeps_written (safeLog m).
Proof. intros w. reflexivity. Qed.

Lemma keeps_written_sleep (ms : Z) : steps keeps_written (sleep ms).
Proof. intros w. reflexivity. Qed.

Lemma keeps_written_connect (E : Env) : steps keeps_written (connect E).
Proof.
  intros w. unfold connect. destruct (connect_error E (attempts w)); reflexivity.
Qed.

Lemma keeps_written_set_pool (p : nat) : steps keeps_written (set_pool p).
Proof. intros w. reflexivity. Qed.

Lemma keeps_written_query (E : Env) (A : Type) (q : Sql) (stmt : Statement A) :
  True -> steps keeps_written (pool_query E q stmt).
Proof.
  intros _ w. unfold pool_query, keeps_written.
  destruct (pool w); [| reflexivity].
  destruct (query_error E (queries w)); [reflexivity |].
  destruct (stmt (db w)) as [[e | a] d]; reflexivity.
Qed.

Lemma keeps_written_writeFile (E : Env) (path : string) (content : FileContent) :
  steps keeps_written (writeFile E path content).
Proof.
  intros w. unfold writeFile, bind, emit.
  destruct (writeFile_error E path); reflexivity.
Qed.

Create HintDb written.

#[local] Hint Resolve keeps_written_refl keeps_written_trans keeps_written_emit
  keeps_written_log keeps_written_sleep keeps_written_connect
  keeps_written_set_pool keeps_written_query keeps_written_writeFile : written.

Lemma keeps_written_initializeDatabase (E : Env) :
  steps keeps_written (initializeDatabase E).
Proof.
  apply (@steps_initializeDatabase E keeps_written (fun _ _ => True));
    eauto with written.
Qed.

Lemma keeps_written_storeVideo (E : Env) (m : VideoMetadata) :
  steps keeps_written (storeVideo E m).
Proof.
  apply (@steps_storeVideo E keeps_written (fun _ _ => True));
    eauto with written.
Qed.

Lemma keeps_written_fetch (E : Env) (options : Options) :
  steps keeps_written (fetch E options).
Proof.
  unfold fetch, newYouTubeService, fetchVideoDetails, fetchDiseaseVideos.
  steps_auto; eauto with written.
Qed.

Lemma keeps_written_store (E : Env) (outputData : list VideoMetadata) :
  steps keeps_written (store E outputData).
Proof.
  unfold store. steps_auto; eauto using keeps_written_storeVideo with written.
Qed.

(** Every turn of the last loop of [main] makes one write. *)
Lemma stdout_loop_written (outputData : list VideoMetadata) (w : World) :
  exists w',
    for_of outputData (fun data =>
      try_catch
        (stdout_write data ;;
         safeLog (LWroteStdout (VideoMetadata.id data)
                    (VideoMetadata.title data)))
        (fun error =>
           if code_differs error "EPIPE" then
             safeLog (LStdoutError (message error))
           else safeLog LBrokenPipe)) w = (Ok tt, w') /\
    written w' = (written w + length outputData)%nat.
Proof.
  revert w. induction outputData as [| data rest IH]; intros w.
  - exists w. split; [reflexivity | simpl; lia].
  - cbn [for_of]. unfold bind at 1.
    unfold try_catch at 1. unfold bind at 1. unfold stdout_write at 1.
    unfold safeLog at 1. unfold emit at 1. cbn [fst snd].
    match goal with
    | |- context [for_of rest ?body ?w1] =>
        destruct (IH w1) as [w' [H Hw]]
    end.
    exists w'. split; [exact H |]. rewrite Hw. simpl. lia.
Qed.

Lemma output_written (E : Env) (options : Options)
    (outputData : list VideoMetadata) (w w' : World) :
  output E options outputData w = (Ok tt, w') ->
  written w'
  = (written w
     + if negb (given (outputFile options))
          && negb (given (videoIdsFile options))
       then length outputData else 0)%nat.
Proof.
  unfold output. intros H.
  apply bind_Ok in H. destruct H as [[] [w1 [H1 H]]].
  apply bind_Ok in H. destruct H as [[] [w2 [H2 H]]].
  assert (K1 : keeps_written w w1).
  { change w1 with (snd (Ok tt, w1)). rewrite <- H1.
    match goal with
    | |- keeps_written w (snd (?m w)) =>
        cut (steps keeps_written m); [intros Hs; apply Hs |]
    end.
    steps_auto; eauto with written. }
  assert (K2 : keeps_written w1 w2).
  { change w2 with (snd (Ok tt, w2)). rewrite <- H2.
    match goal with
    | |- keeps_written w1 (snd (?m w1)) =>
        cut (steps keeps_written m); [intros Hs; apply Hs |]
    end.
    steps_auto; eauto with written. }
  unfold keeps_written in K1, K2.
  destruct (negb (given (outputFile options))
            && negb (given (videoIdsFile options))).
  - cbn [when] in H.
    destruct (stdout_loop_written outputData w2) as [w3 [H3 Hw]].
    rewrite H3 in H. inversion H; subst w3. rewrite Hw. congruence.
  - cbn [when] in H. unfold ret in H. inversion H; subst w2.
    rewrite Nat.add_0_r. congruence.
Qed.

Lemma fetch_outcome (E : Env) (options : Options) (w : World) :
  match fetched E options with
  | inl e => fst (fetch E options w) = Throw e
  | inr [] => fst (fetch E options w) = Ok [] \/ fst (fetch E options w) = Exit 1
  | inr videos => fst (fetch E options w) = Ok videos
  end.
Proof.
  unfold fetched, fetch.
  assert (Hsearch :
    match searchDiseaseVideos E (disease options)
            (or_else truthy_number (maxResults options) (Num 1000)) with
    | inl e =>
        fst ((videos <- fetchDiseaseVideos E (disease options)
                          (or_else truthy_number (maxResults options) (Num 1000)) ;;
              safeLog (LFound (length videos) (disease options)) ;;
              ret videos) w) = Throw e
    | inr [] =>
        fst ((videos <- fetchDiseaseVideos E (disease options)
                          (or_else truthy_number (maxResults options) (Num 1000)) ;;
              safeLog (LFound (length videos) (disease options)) ;;
              ret videos) w) = Ok [] \/
        fst ((videos <- fetchDiseaseVideos E (disease options)
                          (or_else truthy_number (maxResults options) (Num 1000)) ;;
              safeLog (LFound (length videos) (disease options)) ;;
              ret videos) w) = Exit 1
    | inr videos =>
        fst ((videos <- fetchDiseaseVideos E (disease options)
                          (or_else truthy_number (maxResults options) (Num 1000)) ;;
              safeLog (LFound (length videos) (disease options)) ;;
              ret videos) w) = Ok videos
    end).
  { unfold bind, fetchDiseaseVideos, bind, emit, safeLog, emit, ret, throw.
    destruct (searchDiseaseVideos E _ _) as [e | [| v vs]]; simpl; auto. }
  destruct (videoId options) as [vid |]; [| exact Hsearch].
  destruct (truthy_string vid); [| exact Hsearch].
  unfold newYouTubeService.
  destruct (youtubeService_error E) as [e0 |]; [reflexivity |].
  unfold bind, fetchVideoDetails, bind, emit, safeLog, emit, ret, throw, exit.
  destruct (getVideoDetails E vid) as [e | [video |]]; simpl; auto.
Qed.

(** The store loop returns, whatever the stores do. *)
Lemma store_returns (E : Env) (outputData : list VideoMetadata) (w : World) :
  fst (store E outputData w) = Ok tt.
Proof.
  unfold store. revert w.
  induction outputData as [| video rest IH]; intros w; [reflexivity |].
  cbn [for_of]. rewrite fst_bind.
  assert (Hturn : fst (try_catch
                         (storeVideo E video ;;
                          safeLog (LStoredInDatabase (VideoMetadata.id video)))
                         (fun error =>
                            safeLog (LStoreInDatabaseError
                                       (VideoMetadata.id video) error)) w)
                  = Ok tt).
  { unfold try_catch, bind.
    pose proof (returns_or_throws_storeVideo E video w) as Hx.
    destruct (storeVideo E video w) as [[[] | e | c] w1]; simpl in *.
    - reflexivity.
    - reflexivity.
    - exfalso. apply (Hx c). reflexivity. }
  rewrite Hturn. apply IH.
Qed.

Lemma output_outcome (E : Env) (options : Options)
    (outputData : list VideoMetadata) (w : World) :
  match fst (output E options outputData w) with
  | Ok _ =>
      file_written E (outputFile options)
      && file_written E (videoIdsFile options) = true
  | Throw _ =>
      file_written E (outputFile options)
      && file_written E (videoIdsFile options) = false
  | Exit _ => False
  end.
Proof.
  assert (Hfile : forall o (body : string -> FileContent) (l : string -> LogMsg) w0,
    match fst (if_given o (fun path =>
                 writeFile E path (body path) ;; safeLog (l path)) w0) with
    | Ok _ => file_written E o = true
    | Throw _ => file_written E o = false
    | Exit _ => False
    end).
  { intros o body l w0. unfold if_given, file_written.
    destruct o as [path |]; [| reflexivity].
    destruct (truthy_string path); [| reflexivity].
    unfold bind, writeFile, bind, emit, safeLog, emit, throw, ret.
    destruct (writeFile_error E path); reflexivity. }
  unfold output. rewrite fst_bind.
  pose proof (Hfile (outputFile options)
                (fun _ => MetadataArray outputData) LWroteMetadata w) as H1.
  cbv beta in H1.
  destruct (fst (if_given (outputFile options) _ w)) as [[] | e | c];
    [| rewrite H1; reflexivity | contradiction].
  rewrite H1. rewrite fst_bind.
  match goal with
  | |- context [if_given (videoIdsFile options) ?b ?w1] =>
      pose proof (Hfile (videoIdsFile options)
                    (fun _ => IdArray (map VideoMetadata.id outputData))
                    (LWroteIds (length (map VideoMetadata.id outputData))) w1)
        as H2
  end.
  cbv beta in H2.
  destruct (fst (if_given (videoIdsFile options) _ _)) as [[] | e | c];
    [| rewrite H2; reflexivity | contradiction].
  rewrite H2.
  match goal with
  | |- context [when ?c ?m ?w2] =>
      destruct (completes_when c m
                  (completes_for_of outputData _ completes_stdout) w2)
        as [w3 [evs [H3 _]]]; rewrite H3
  end.
  reflexivity.
Qed.

(** How [main] ends. *)
Lemma main_outcome (E : Env) (args : list string) (w : World) :
  fst (main E args w)
  = if negb (given (disease (parseArgs E args no_options)))
       && negb (given (videoId (parseArgs E args no_options)))
    then Exit 1%Z
    else
      match fst (initializeDatabase E w) with
      | Ok _ =>
          match fetched E (parseArgs E args no_options) with
          | inr (_ :: _) =>
              if file_written E (outputFile (parseArgs E args no_options))
                 && file_written E (videoIdsFile (parseArgs E args no_options))
              then Ok tt
              else Exit 1%Z
          | _ => Exit 1%Z
          end
      | _ => Exit 1%Z
      end.
Proof.
  unfold main.
  change (mkOptions None None None None None) with no_options.
  set (options := parseArgs E args no_options).
  rewrite fst_bind.
  destruct (negb (given (disease options)) && negb (given (videoId options)));
    [reflexivity |].
  cbn [when ret fst snd]. rewrite fst_try_exit, fst_bind.
  pose proof (returns_or_throws_initializeDatabase E w) as Hx.
  destruct (fst (initializeDatabase E w)) as [[] | e | c];
    [| reflexivity | exfalso; apply (Hx c); reflexivity].
  rewrite fst_bind.
  pose proof (fetch_outcome E options (snd (initializeDatabase E w))) as Hf.
  destruct (fetched E options) as [e | [| v vs]].
  - rewrite Hf. reflexivity.
  - destruct Hf as [Hf | Hf]; rewrite Hf; [| reflexivity].
    rewrite fst_bind, collect_all. reflexivity.
  - rewrite Hf. rewrite fst_bind, collect_all. cbn [fst snd app].
    rewrite fst_bind. cbn [when length Nat.eqb ret fst snd].
    rewrite fst_bind, store_returns.
    match goal with
    | |- context [output E options ?d ?w1] =>
        pose proof (output_outcome E options d w1) as Ho;
          destruct (fst (output E options d w1)) as [[] | e | c]
    end.
    + rewrite Ho. reflexivity.
    + rewrite Ho. reflexivity.
    + contradiction.
Qed.

(** The writes to standard output of a run that [main] returns from: one
    for each record when no output file was asked for, and none
    otherwise. *)
Lemma main_written (E : Env) (args : list string) (w : World)
    (videos : list VideoMetadata) :
  fst (main E args w) = Ok tt ->
  fetched E (parseArgs E args no_options) = inr videos ->
  written (snd (main E args w))
  = (written w
     + if negb (given (outputFile (parseArgs E args no_options)))
          && negb (given (videoIdsFile (parseArgs E args no_options)))
       then length videos else 0)%nat.
Proof.
  intros Hok Hfetched.
  destruct (main E args w) as [o w'] eqn:Hm. simpl in Hok. subst o.
  cbn [snd]. unfold main in Hm.
  change (mkOptions None None None None None) with no_options in Hm.
  set (options := parseArgs E args no_options) in *.
  apply bind_Ok in Hm. destruct Hm as [[] [w0 [Hwhen Hm]]].
  assert (Hw0 : w0 = w).
  { destruct (negb (given (disease options)) && negb (given (videoId options)));
      cbn [when] in Hwhen.
    - unfold bind, safeLog, emit, exit in Hwhen. discriminate.
    - unfold ret in Hwhen. inversion Hwhen. reflexivity. }
  subst w0. clear Hwhen.
  apply try_exit_Ok in Hm.
  apply bind_Ok in Hm. destruct Hm as [[] [w1 [Hinit Hm]]].
  apply bind_Ok in Hm. destruct Hm as [vs [w2 [Hfetch Hm]]].
  apply bind_Ok in Hm. destruct Hm as [outputData [w3 [Hcollect Hm]]].
  apply bind_Ok in Hm. destruct Hm as [[] [w4 [Hnone Hm]]].
  apply bind_Ok in Hm. destruct Hm as [[] [w5 [Hstore Hout]]].
  pose proof (keeps_written_initializeDatabase E w) as K1.
  rewrite Hinit in K1.
  pose proof (keeps_written_fetch E options w1) as K2. rewrite Hfetch in K2.
  rewrite collect_all in Hcollect. inversion Hcollect; subst outputData w3.
  clear Hcollect.
  assert (K4 : written w4 = written w2).
  { match type of Hnone with
    | when ?c _ _ = _ => destruct c
    end; cbn [when] in Hnone.
    - unfold bind, safeLog, emit, exit in Hnone. simpl in Hnone. discriminate.
    - unfold ret in Hnone. inversion Hnone. reflexivity. }
  pose proof (keeps_written_store E vs w4) as K5.
  rewrite Hstore in K5.
  apply output_written in Hout. fold options in Hout.
  unfold keeps_written in K1, K2, K5. cbn [snd] in K1, K2, K5.
  assert (Hvs : vs = videos).
  { pose proof (fetch_outcome E options w1) as Hf. rewrite Hfetched in Hf.
    rewrite Hfetch in Hf. cbn [fst] in Hf.
    destruct videos as [| v videos].
    - destruct Hf as [Hf | Hf]; [inversion Hf; reflexivity | discriminate].
    - inversion Hf. reflexivity. }
  subst vs. rewrite Hout. simpl app. congruence.
Qed.

(** X15. The status of a run.  It is 1 when neither a disease nor a video
    identifier was given, when the database cannot be initialised, when
    the fetch throws or obtains no record, and when an output file that was
    asked for cannot be written.  It is 1 as well when no output file was
    asked for, so that the records went to standard output, and one of
    these writes, one for each record, failed: the calls do not throw, but
    the error that the stream reports afterwards ends the process.  It is 0
    in every other case.  What the stores do has no part in it. *)
Theorem exit_status (E : Env) (args : list string) (w : World) :
  fst (youtube_fetcher E args w)
  = if negb (given (disease (parseArgs E args no_options)))
       && negb (given (videoId (parseArgs E args no_options)))
    then 1%Z
    else
      match fst (initializeDatabase E w) with
      | Ok _ =>
          match fetched E (parseArgs E args no_options) with
          | inr (video :: videos) =>
              if file_written E (outputFile (parseArgs E args no_options))
                 && file_written E (videoIdsFile (parseArgs E args no_options))
              then
                if negb (given (outputFile (parseArgs E args no_options)))
                   && negb (given (videoIdsFile (parseArgs E args no_options)))
                   && existsb (fun i => match stdout_error E i with
                                        | Some _ => true
                                        | None => false
                                        end)
                              (seq (written w) (S (length videos)))
                then 1%Z
                else 0%Z
              else 1%Z
          | _ => 1%Z
          end
      | _ => 1%Z
      end.
Proof.
  rewrite youtube_fetcher_status.
  pose proof (main_written E args w) as Hw.
  rewrite main_outcome in Hw |- *.
  set (options := parseArgs E args no_options) in *.
  destruct (negb (given (disease options)) && negb (given (videoId options)));
    [reflexivity |].
  destruct (fst (initializeDatabase E w)) as [[] | e | c]; try reflexivity.
  destruct (fetched E options) as [e | [| video videos]]; try reflexivity.
  destruct (file_written E (outputFile options)
            && file_written E (videoIdsFile options)); [| reflexivity].
  rewrite (Hw (video :: videos) eq_refl eq_refl). unfold stream_error.
  destruct (negb (given (outputFile options))
            && negb (given (videoIdsFile options))).
  - replace (written w + length (video :: videos) - written w)%nat
      with (S (length videos)) by (simpl; lia).
    reflexivity.
  - replace (written w + 0 - written w)%nat with 0%nat by lia.
    reflexivity.
Qed.

(** Three records go to standard output, which is closed: the run stores
    them, makes the three writes and ends with status 1. *)
Example closed_stdout_run :
  fst (youtube_fetcher stdout_closed ["--disease"; "lupus"] initial_world)
  = 1%Z /\
  video_ids (db (snd (youtube_fetcher stdout_closed ["--disease"; "lupus"]
                        initial_world)))
  = ["a1"; "b2"; "c3"] /\
  length (filter is_stdout
            (trace (snd (youtube_fetcher stdout_closed ["--disease"; "lupus"]
                           initial_world))))
  = 3%nat.
Proof. split; [| split]; vm_compute; reflexivity. Qed.

(* ------------------------------------------------------------------ *)
(** ** What a run does to the database *)

Lemma same_connection_refl (w : World) : same_connection w w.
Proof. repeat split; reflexivity. Qed.

Lemma same_connection_sym (w w' : World) :
  same_connection w w' -> same_connection w' w.
Proof. intros [H1 [H2 [H3 H4]]]. repeat split; congruence. Qed.

Lemma same_connection_trans (w1 w2 w3 : World) :
  same_connection w1 w2 -> same_connection w2 w3 -> same_connection w1 w3.
Proof.
  intros [H1 [H2 [H3 H4]]] [H5 [H6 [H7 H8]]]. repeat split; congruence.
Qed.

Lemma blind_ret {A : Type} (a : A) : blind (ret a).
Proof. intros w w' H. split; [reflexivity | exact H]. Qed.

Lemma blind_throw {A : Type} (e : Error) : blind (@throw A e).
Proof. intros w w' H. split; [reflexivity | exact H]. Qed.

Lemma blind_get_pool : blind get_pool.
Proof.
  intros w w' H. unfold get_pool. simpl. split; [| exact H].
  destruct H as [Hp _]. rewrite Hp. reflexivity.
Qed.

Lemma blind_set_pool (p : nat) : blind (set_pool p).
Proof.
  intros w w' [H1 [H2 [H3 H4]]]. unfold set_pool. simpl.
  repeat split; simpl; congruence.
Qed.

Lemma blind_emit (e : Event) : blind (emit e).
Proof.
  intros w w' [H1 [H2 [H3 H4]]]. unfold emit. simpl.
  repeat split; simpl; congruence.
Qed.

Lemma blind_connect (E : Env) : blind (connect E).
Proof.
  intros w w' [H1 [H2 [H3 H4]]]. unfold connect. rewrite <- H3.
  destruct (connect_error E (attempts w)); simpl;
    repeat split; simpl; congruence.
Qed.

Lemma blind_query (E : Env) {A : Type} (q : Sql) (stmt : Statement A) :
  blind (pool_query E q stmt).
Proof.
  intros w w' [H1 [H2 [H3 H4]]]. unfold pool_query.
  rewrite <- H1, <- H2, <- H4.
  destruct (pool w) as [p |] eqn:Hp; [| simpl; repeat split; congruence].
  destruct (query_error E (queries w));
    [simpl; repeat split; simpl; congruence |].
  destruct (stmt (db w)) as [[e | a] d]; simpl;
    repeat split; simpl; congruence.
Qed.

Lemma blind_bind {A B : Type} (m : M A) (k : A -> M B) :
  blind m -> (forall a, blind (k a)) -> blind (bind m k).
Proof.
  intros Hm Hk w w' Hs. unfold bind.
  destruct (Hm w w' Hs) as [Hf Hs'].
  destruct (m w) as [[a | e | c] w1]; destruct (m w') as [[a' | e' | c'] w1'];
    simpl in Hf, Hs'; try discriminate; inversion Hf; subst.
  - apply Hk. exact Hs'.
  - split; [reflexivity | exact Hs'].
  - split; [reflexivity | exact Hs'].
Qed.

Lemma blind_try_catch {A : Type} (m : M A) (h : Error -> M A) :
  blind m -> (forall e, blind (h e)) -> blind (try_catch m h).
Proof.
  intros Hm Hh w w' Hs. unfold try_catch.
  destruct (Hm w w' Hs) as [Hf Hs'].
  destruct (m w) as [[a | e | c] w1]; destruct (m w') as [[a' | e' | c'] w1'];
    simpl in Hf, Hs'; try discriminate; inversion Hf; subst.
  - split; [reflexivity | exact Hs'].
  - apply Hh. exact Hs'.
  - split; [reflexivity | exact Hs'].
Qed.

Ltac blind_step :=
  first
    [ assumption
    | apply blind_ret
    | apply blind_throw
    | apply blind_get_pool
    | apply blind_set_pool
    | apply blind_emit
    | apply blind_connect
    | apply blind_query
    | apply blind_bind
    | apply blind_try_catch
    | match goal with
      | H : _ |- blind _ => apply H
      | |- blind (match ?x with _ => _ end) => destruct x
      | |- blind (if ?x then _ else _) => destruct x
      | |- forall _ : _, blind _ => intro
      end ].

Lemma blind_connectLoop (E : Env) (fuel retries : nat) (ms : Z) (attempt : nat) :
  blind (connectLoop E fuel retries ms attempt).
Proof.
  revert attempt. induction fuel as [| fuel IH]; intros attempt; simpl;
    unfold safeLog, sleep; repeat blind_step.
Qed.

Lemma blind_initializeDatabase (E : Env) : blind (initializeDatabase E).
Proof.
  unfold initializeDatabase, connectWithRetry, safeLog.
  repeat blind_step; apply blind_connectLoop.
Qed.

Lemma blind_storeVideo (E : Env) (m : VideoMetadata) : blind (storeVideo E m).
Proof.
  unfold storeVideo, ensure_pool, safeLog.
  repeat blind_step; apply blind_initializeDatabase.
Qed.

(** *** The parts of a run that leave the connection alone *)

Lemma same_connection_emit (e : Event) : steps same_connection (emit e).
Proof. intros w. repeat split; reflexivity. Qed.

Lemma same_connection_stdout (data : VideoMetadata) :
  steps same_connection (stdout_write data).
Proof. intros w. unfold stdout_write. repeat split; reflexivity. Qed.

Ltac connection_auto E :=
  pose proof same_connection_refl;
  pose proof same_connection_trans;
  pose proof same_connection_emit;
  pose proof same_connection_stdout;
  unfold safeLog;
  steps_auto.

Lemma same_connection_fetch (E : Env) (options : Options) :
  steps same_connection (fetch E options).
Proof.
  unfold fetch, newYouTubeService, fetchVideoDetails, fetchDiseaseVideos.
  connection_auto E.
Qed.

Lemma same_connection_collect (E : Env) (videos outputData : list VideoMetadata) :
  steps same_connection (collect videos outputData).
Proof.
  revert outputData. induction videos as [| video rest IH]; intros outputData;
    simpl; connection_auto E.
Qed.

Lemma same_connection_output (E : Env) (options : Options)
    (outputData : list VideoMetadata) :
  steps same_connection (output E options outputData).
Proof. unfold output, writeFile. connection_auto E. Qed.

Lemma store_turn_returns (E : Env) (video : VideoMetadata) (w : World) :
  fst (try_catch
         (storeVideo E video ;;
          safeLog (LStoredInDatabase (VideoMetadata.id video)))
         (fun error =>
            safeLog (LStoreInDatabaseError (VideoMetadata.id video) error)) w)
  = Ok tt /\
  same_connection
    (snd (try_catch
            (storeVideo E video ;;
             safeLog (LStoredInDatabase (VideoMetadata.id video)))
            (fun error =>
               safeLog (LStoreInDatabaseError (VideoMetadata.id video) error)) w))
    (snd (storeVideo E video w)).
Proof.
  unfold try_catch, bind, safeLog, emit.
  pose proof (returns_or_throws_storeVideo E video w) as Hx.
  destruct (storeVideo E video w) as [[[] | e | c] w1]; simpl in *.
  - split; [reflexivity |]. repeat split; reflexivity.
  - split; [reflexivity |]. repeat split; reflexivity.
  - exfalso. apply (Hx c). reflexivity.
Qed.

(** As far as the database can tell, the store loop is [storeVideo] for
    each record in turn. *)
Lemma store_effect (E : Env) (outputData : list VideoMetadata) (w w' : World) :
  same_connection w w' ->
  same_connection (snd (store E outputData w))
    (history E (map CallStoreVideo outputData) w').
Proof.
  unfold store. revert w w'.
  induction outputData as [| video rest IH]; intros w w' Hs; [exact Hs |].
  cbn [for_of map]. rewrite snd_bind.
  destruct (store_turn_returns E video w) as [Hf Hturn]. rewrite Hf.
  simpl history. apply IH.
  eapply same_connection_trans; [exact Hturn |].
  apply (blind_storeVideo E video w w' Hs).
Qed.

Lemma snd_try_exit {A : Type} (m : M A) (l : Error -> LogMsg) (w : World) :
  same_connection
    (snd (try_catch m (fun error => safeLog (l error) ;; exit 1) w))
    (snd (m w)).
Proof.
  unfold try_catch, bind, safeLog, emit, exit.
  destruct (m w) as [[a | e | c] w1]; simpl; repeat split; reflexivity.
Qed.

(** X16. As far as the database can tell, a run is a client of
    [lib/database.ts] that calls [initializeDatabase] and then
    [storeVideo] for each fetched record, in the order fetched: the pool,
    the tables and the counts of connection attempts and statements at the
    end of the run are those that these calls leave.  A run that was given
    neither a disease nor a video identifier makes no call, and a run
    whose fetch throws or finds nothing makes none after
    [initializeDatabase]. *)
Theorem run_is_initialize_then_store (E : Env) (args : list string) (w : World) :
  same_connection (snd (youtube_fetcher E args w))
    (history E (database_calls E args w) w).
Proof.
  assert (Hsnd :
    snd (youtube_fetcher E args w)
    = snd (try_catch (main E args)
             (fun error => safeLog (LUnhandled error) ;; exit 1) w)).
  { unfold youtube_fetcher.
    destruct (try_catch _ _ w) as [[[] | e | c] w']; reflexivity. }
  rewrite Hsnd. clear Hsnd.
  eapply same_connection_trans; [apply snd_try_exit |].
  unfold main, database_calls.
  change (mkOptions None None None None None) with no_options.
  set (options := parseArgs E args no_options).
  rewrite snd_bind.
  destruct (negb (given (disease options)) && negb (given (videoId options))).
  { unfold when, bind, safeLog, emit, exit. simpl. repeat split; reflexivity. }
  cbn [when ret fst snd].
  eapply same_connection_trans; [apply snd_try_exit |].
  rewrite snd_bind. unfold history. cbn [fold_left call].
  pose proof (returns_or_throws_initializeDatabase E w) as Hx.
  destruct (fst (initializeDatabase E w)) as [[] | e | c];
    [| apply same_connection_refl | apply same_connection_refl].
  remember (snd (initializeDatabase E w)) as w0 eqn:Hw0.
  rewrite snd_bind.
  pose proof (fetch_outcome E options w0) as Hf.
  pose proof (same_connection_fetch E options w0) as Hfetch.
  destruct (fetched E options) as [e | [| v vs]]; cbn [fold_left map].
  - rewrite Hf. apply same_connection_sym. exact Hfetch.
  - destruct Hf as [Hf | Hf]; rewrite Hf;
      [| apply same_connection_sym; exact Hfetch].
    rewrite snd_bind, collect_all. cbn [fst snd app].
    unfold when, bind, safeLog, emit, exit. simpl.
    destruct Hfetch as [H1 [H2 [H3 H4]]]. repeat split; simpl; congruence.
  - rewrite Hf. rewrite snd_bind, collect_all. cbn [fst snd app].
    rewrite snd_bind. cbn [when length Nat.eqb ret fst snd].
    rewrite snd_bind, store_returns.
    match goal with
    | |- same_connection (snd (output E options ?d (snd (store E ?d ?w1)))) _ =>
        eapply same_connection_trans;
          [apply same_connection_sym;
           apply (same_connection_output E options d (snd (store E d w1))) |];
          apply (store_effect E d w1 w0)
    end.
    apply same_connection_sym.
    destruct Hfetch as [H1 [H2 [H3 H4]]]. repeat split; simpl; congruence.
Qed.

(* ------------------------------------------------------------------ *)
(** ** The output phase *)

Lemma file_written_not_given (E : Env) (o : option string) :
  given o = false -> file_written E o = true /\ forall c, file_events o c = [].
Proof.
  unfold given, truthy_opt, file_written, file_events.
  destruct o as [path |]; [| auto]. intros H. rewrite H. auto.
Qed.

Lemma file_not_written_given (E : Env) (o : option string) :
  file_written E o = false -> given o = true.
Proof.
  intros H. destruct (given o) eqn:Hg; [reflexivity |].
  apply (file_written_not_given E) in Hg. destruct Hg as [Hg _]. congruence.
Qed.

(** One of the two writes to a file. *)
Lemma if_given_file (E : Env) (o : option string) (content : FileContent)
    (l : string -> LogMsg) (w : World) :
  exists evs,
    trace (snd (if_given o (fun path =>
                  writeFile E path content ;; safeLog (l path)) w))
    = (trace w ++ evs)%list /\
    filter is_write evs = file_events o content /\
    filter is_stdout evs = [] /\
    match fst (if_given o (fun path =>
                 writeFile E path content ;; safeLog (l path)) w) with
    | Ok _ => file_written E o = true
    | Throw _ => file_written E o = false
    | Exit _ => False
    end.
Proof.
  unfold if_given, file_written, file_events.
  destruct o as [path |];
    [| exists []; simpl; rewrite app_nil_r; auto].
  destruct (truthy_string path);
    [| exists []; simpl; rewrite app_nil_r; auto].
  unfold bind, writeFile, bind, emit, safeLog, emit, throw, ret.
  destruct (writeFile_error E path); simpl.
  - exists [EvWriteFile path content]. auto.
  - exists [EvWriteFile path content; EvLog (l path)].
    rewrite <- app_assoc. auto.
Qed.

(** The loop that writes the records to standard output. *)
Lemma stdout_loop (outputData : list VideoMetadata) (w : World) :
  exists evs,
    fst (for_of outputData (fun data =>
           try_catch
             (stdout_write data ;;
              safeLog (LWroteStdout (VideoMetadata.id data)
                         (VideoMetadata.title data)))
             (fun error =>
                if code_differs error "EPIPE" then
                  safeLog (LStdoutError (message error))
                else safeLog LBrokenPipe)) w) = Ok tt /\
    trace (snd (for_of outputData (fun data =>
           try_catch
             (stdout_write data ;;
              safeLog (LWroteStdout (VideoMetadata.id data)
                         (VideoMetadata.title data)))
             (fun error =>
                if code_differs error "EPIPE" then
                  safeLog (LStdoutError (message error))
                else safeLog LBrokenPipe)) w))
    = (trace w ++ evs)%list /\
    filter is_write evs = [] /\
    filter is_stdout evs = map EvStdout outputData.
Proof.
  revert w. induction outputData as [| data rest IH]; intros w.
  - exists []. simpl. rewrite app_nil_r. auto.
  - cbn [for_of]. rewrite fst_bind, snd_bind.
    assert (Hturn : exists l,
      try_catch
        (stdout_write data ;;
         safeLog (LWroteStdout (VideoMetadata.id data)
                    (VideoMetadata.title data)))
        (fun error =>
           if code_differs error "EPIPE" then
             safeLog (LStdoutError (message error))
           else safeLog LBrokenPipe) w
      = (Ok tt,
         mkWorld (pool w) (db w) (attempts w) (queries w) (S (written w))
           (trace w ++ [EvStdout data; EvLog l]))).
    { unfold try_catch, bind, stdout_write, safeLog, emit. simpl.
      eexists. rewrite <- app_assoc. reflexivity. }
    destruct Hturn as [l Hturn]. rewrite Hturn. cbn [fst snd].
    match goal with
    | |- context [for_of rest ?b ?w1] =>
        destruct (IH w1) as [evs [Hf [Ht [Hw Hs]]]]
    end.
    exists ([EvStdout data; EvLog l] ++ evs)%list.
    split; [exact Hf |].
    split; [rewrite Ht; simpl; rewrite <- app_assoc; reflexivity |].
    split; [simpl; exact Hw |].
    simpl. rewrite Hs. reflexivity.
Qed.

(** X17. What the output phase writes.  The file named by
    [--output-file] is written once, with all the records; then, unless
    that write failed, the file named by [--video-ids-file] is written
    once, with their identifiers in the same order; a record goes to
    standard output only when neither file was asked for, and then every
    record does, in order, whether or not the writes before it failed. *)
Theorem output_events (E : Env) (options : Options)
    (outputData : list VideoMetadata) (w : World) :
  exists evs,
    trace (snd (output E options outputData w)) = (trace w ++ evs)%list /\
    filter is_write evs
    = (file_events (outputFile options) (MetadataArray outputData)
       ++ (if file_written E (outputFile options) then
             file_events (videoIdsFile options)
               (IdArray (map VideoMetadata.id outputData))
           else []))%list /\
    filter is_stdout evs
    = if negb (given (outputFile options))
         && negb (given (videoIdsFile options))
      then map EvStdout outputData
      else [].
Proof.
  unfold output. rewrite snd_bind.
  destruct (if_given_file E (outputFile options) (MetadataArray outputData)
              LWroteMetadata w) as [evs1 [T1 [W1 [S1 F1]]]].
  destruct (fst (if_given (outputFile options) _ w)) as [[] | e | c];
    [| | contradiction].
  2: { exists evs1. split; [exact T1 |]. rewrite F1, app_nil_r.
       split; [exact W1 |].
       rewrite (file_not_written_given E _ F1). exact S1. }
  rewrite F1. rewrite snd_bind.
  match goal with
  | |- context [if_given (videoIdsFile options) _ ?w1] =>
      destruct (if_given_file E (videoIdsFile options)
                  (IdArray (map VideoMetadata.id outputData))
                  (LWroteIds (length (map VideoMetadata.id outputData))) w1)
        as [evs2 [T2 [W2 [S2 F2]]]]
  end.
  destruct (fst (if_given (videoIdsFile options) _ _)) as [[] | e | c];
    [| | contradiction].
  2: { exists (evs1 ++ evs2)%list.
       split; [rewrite T2, T1; symmetry; apply app_assoc |].
       rewrite !filter_app, W1, W2, S1, S2.
       split; [reflexivity |].
       rewrite (file_not_written_given E _ F2), andb_false_r. reflexivity. }
  destruct (negb (given (outputFile options))
            && negb (given (videoIdsFile options))) eqn:Hc; cbn [when].
  - match goal with
    | |- context [for_of outputData _ ?w2] =>
        destruct (stdout_loop outputData w2) as [evs3 [_ [T3 [W3 S3]]]]
    end.
    exists (evs1 ++ evs2 ++ evs3)%list.
    split; [rewrite T3, T2, T1, <- !app_assoc; reflexivity |].
    rewrite !filter_app, W1, W2, W3, S1, S2, S3, app_nil_r.
    split; reflexivity.
  - exists (evs1 ++ evs2)%list.
    split; [unfold ret; simpl; rewrite T2, T1; symmetry; apply app_assoc |].
    rewrite !filter_app, W1, W2, S1, S2. split; reflexivity.
Qed.

(* ------------------------------------------------------------------ *)
(** ** The search *)

Lemma fetch_without_video_id (E : Env) (options : Options) :
  given (videoId options) = false ->
  fetch E options
  = (videos <- fetchDiseaseVideos E (disease options)
                 (or_else truthy_number (maxResults options) (Num 1000)) ;;
     safeLog (LFound (length videos) (disease options)) ;;
     ret videos).
Proof.
  unfold given, truthy_opt, fetch. intros H.
  destruct (videoId options) as [vid |]; [| reflexivity].
  rewrite H. reflexivity.
Qed.

(** After the pool is there, a run that was given no video identifier
    searches, once, and asks for no single video. *)
Lemma fetch_search_once (E : Env) (options : Options)
    (tail : list VideoMetadata -> M unit) (h : Error -> M unit) (w : World) :
  given (videoId options) = false ->
  (forall videos, steps (adds no_fetch) (tail videos)) ->
  (forall e, steps (adds no_fetch) (h e)) ->
  exists evs,
    trace (snd (try_catch
                  (initializeDatabase E ;;
                   videos <- fetch E options ;;
                   tail videos) h w)) = (trace w ++ evs)%list /\
    filter is_details evs = [] /\
    filter is_search evs
    = match fst (initializeDatabase E w) with
      | Ok _ =>
          [EvSearch (disease options)
             (or_else truthy_number (maxResults options) (Num 1000))]
      | _ => []
      end.
Proof.
  intros Hvid Htail Hh.
  rewrite (fetch_without_video_id E options Hvid).
  set (d := disease options).
  set (n := or_else truthy_number (maxResults options) (Num 1000)).
  unfold try_catch. unfold bind at 1.
  pose proof (no_fetch_initializeDatabase E w) as H0.
  destruct (initializeDatabase E w) as [[[] | e | c] w0]; simpl in H0.
  - apply adds_filters in H0. destruct H0 as [evs0 [Ht0 [Hs0 Hd0]]].
    unfold bind at 1. unfold fetchDiseaseVideos. unfold bind at 1.
    unfold bind at 1. unfold emit at 1.
    set (w1 := mkWorld (pool w0) (db w0) (attempts w0) (queries w0) (written w0)
                       (trace w0 ++ [EvSearch d n])).
    assert (Hfin : forall w',
               adds no_fetch w1 w' ->
               exists evs,
                 trace w' = (trace w ++ evs)%list /\
                 filter is_details evs = [] /\
                 filter is_search evs = [EvSearch d n]).
    { intros w' Ha. apply adds_filters in Ha.
      destruct Ha as [evs1 [Ht1 [Hs1 Hd1]]].
      exists (evs0 ++ [EvSearch d n] ++ evs1)%list.
      split; [| split].
      - rewrite Ht1. unfold w1. simpl. rewrite Ht0.
        rewrite <- !app_assoc. reflexivity.
      - rewrite !filter_app, Hd0, Hd1. reflexivity.
      - rewrite !filter_app, Hs0, Hs1. reflexivity. }
    simpl.
    destruct (searchDiseaseVideos E d n) as [e | videos]; simpl.
    + apply (Hfin (snd (h e w1))). apply (Hh e w1).
    + set (w2 := mkWorld (pool w0) (db w0) (attempts w0) (queries w0)
                         (written w0)
                         ((trace w0 ++ [EvSearch d n])
                          ++ [EvLog (LFound (length videos) d)])).
      assert (H12 : adds no_fetch w1 w2).
      { exists [EvLog (LFound (length videos) d)]. split; reflexivity. }
      pose proof (Htail videos w2) as Ht.
      destruct (tail videos w2) as [[[] | e | c] w3]; simpl in Ht |- *.
      * apply (Hfin w3). eapply adds_trans; [exact H12 | exact Ht].
      * apply (Hfin (snd (h e w3))).
        eapply adds_trans; [exact H12 |].
        eapply adds_trans; [exact Ht | apply (Hh e w3)].
      * apply (Hfin w3). eapply adds_trans; [exact H12 | exact Ht].
  - simpl. pose proof (Hh e w0) as He.
    assert (Ha : adds no_fetch w (snd (h e w0)))
      by (eapply adds_trans; [exact H0 | exact He]).
    apply adds_filters in Ha. destruct Ha as [evs [Ht [Hs Hd]]].
    exists evs. auto.
  - simpl. apply adds_filters in H0. destruct H0 as [evs [Ht [Hs Hd]]].
    exists evs. auto.
Qed.

(** X18. Invoked with a disease and without a video identifier, the command
    never asks the service for a single video, and once the database is
    initialised it searches exactly once, for that disease, with the
    number given by [--max-results], or 1000 when that option is missing,
    zero or not a number; when the initialisation fails the run ends
    before any search. *)
Theorem search_without_video_id (E : Env) (args : list string) (w : World) :
  given (videoId (parseArgs E args no_options)) = false ->
  given (disease (parseArgs E args no_options)) = true ->
  exists evs,
    trace (snd (youtube_fetcher E args w)) = (trace w ++ evs)%list /\
    filter is_details evs = [] /\
    filter is_search evs
    = match fst (initializeDatabase E w) with
      | Ok _ =>
          [EvSearch (disease (parseArgs E args no_options))
             (or_else truthy_number
                (maxResults (parseArgs E args no_options)) (Num 1000))]
      | _ => []
      end.
Proof.
  intros Hvid Hdis.
  set (options := parseArgs E args no_options) in *.
  assert (Hsnd :
    snd (youtube_fetcher E args w)
    = snd (try_catch (main E args)
             (fun error => safeLog (LUnhandled error) ;; exit 1) w)).
  { unfold youtube_fetcher.
    destruct (try_catch _ _ w) as [[[] | e | c] w']; reflexivity. }
  rewrite Hsnd. clear Hsnd.
  unfold main. change (mkOptions None None None None None) with no_options.
  fold options. rewrite Hdis. cbn [negb andb].
  unfold when. unfold try_catch at 1. unfold bind at 1. unfold ret at 1.
  match goal with
  | |- context [try_catch
                  (initializeDatabase E ;;
                   videos <- fetch E options ;; @?tl videos) ?h w] =>
      destruct (fetch_search_once E options tl h w Hvid)
        as [evs [Ht [Hd Hs]]]
  end.
  - intros videos. steps_auto;
      eauto using no_fetch_collect, no_fetch_store, no_fetch_output with fetch.
  - intros e. steps_auto; eauto with fetch.
  - destruct (try_catch _ _ w) as [[[] | e | c] w'] eqn:Hrun; simpl in Ht |- *.
    + exists evs. auto.
    + exists (evs ++ [EvLog (LUnhandled e)])%list. split; [| split].
      * unfold bind, safeLog, emit, exit. simpl. rewrite Ht.
        rewrite <- app_assoc. reflexivity.
      * rewrite filter_app, Hd. reflexivity.
      * rewrite filter_app, Hs. simpl. apply app_nil_r.
    + exists evs. auto.
Qed.

Lemma search_without_video_id_witness :
  exists evs,
    trace (snd (youtube_fetcher calm ["--disease"; "lupus"; "--max-results"; "0"]
                  initial_world))
    = (trace initial_world ++ evs)%list /\
    filter is_details evs = [] /\
    filter is_search evs = [EvSearch (Some "lupus") (Num 1000)].
Proof.
  exact (search_without_video_id calm
           ["--disease"; "lupus"; "--max-results"; "0"] initial_world
           eq_refl eq_refl).
Defined.

(* ------------------------------------------------------------------ *)
(** ** When a store returns *)

Lemma storeVideo_with_pool (E : Env) (m : VideoMetadata) (w : World) :
  established w ->
  fst (storeVideo E m w)
  = match query_error E (queries w) with
    | Some msg => Throw (ConnectionError msg)
    | None =>
        match metadata_row E m with
        | inl e => Throw e
        | inr _ => Ok tt
        end
    end.
Proof.
  intros [Hp [Hv _]].
  destruct (pool w) as [p |] eqn:Hp'; [| congruence].
  destruct (videos (db w)) as [t |] eqn:Hv'; [| congruence].
  rewrite (storeVideo_established E m w p t Hp' Hv'). cbv zeta.
  destruct (query_error E (queries w)); [reflexivity |].
  destruct (metadata_row E m); reflexivity.
Qed.

Lemma storeTranscript_with_pool (E : Env) (v : string) (t l : option string)
    (w : World) :
  pool w <> None ->
  fst (storeTranscript E v t l w)
  = match query_error E (queries w) with
    | Some msg => Throw (ConnectionError msg)
    | None =>
        match fst (insert_transcript (Some v) t (Some (language_given l))
                     (db w)) with
        | inl e => Throw e
        | inr _ => Ok tt
        end
    end.
Proof.
  intros Hp. destruct (query_error E (queries w)) as [msg |] eqn:Hq.
  - unfold storeTranscript. rewrite (ensure_pool_skipped E _ _ w Hp).
    unfold try_catch, bind, pool_query, safeLog, emit, throw.
    destruct (pool w); [| congruence]. rewrite Hq. reflexivity.
  - apply storeTranscript_established; assumption.
Qed.

Lemma storeAnalysis_with_pool (E : Env) (v : string) (a : AnalysisResult)
    (w : World) :
  pool w <> None ->
  fst (storeAnalysis E v a w)
  = match query_error E (queries w) with
    | Some msg => Throw (ConnectionError msg)
    | None =>
        match fst (insert_analysis
                     (Some v)
                     (AnalysisResult.video_type a) (AnalysisResult.name a)
                     (AnalysisResult.age a) (AnalysisResult.sex a)
                     (AnalysisResult.location a)
                     (stringify_or_null (AnalysisResult.symptoms a))
                     (stringify_or_null (AnalysisResult.medicalHistoryOfPatient a))
                     (stringify_or_null (AnalysisResult.familyMedicalHistory a))
                     (stringify_or_null
                        (AnalysisResult.challengesFacedDuringDiagnosis a))
                     (AnalysisResult.key_opinion a) (db w)) with
        | inl e => Throw e
        | inr _ => Ok tt
        end
    end.
Proof.
  intros Hp. destruct (query_error E (queries w)) as [msg |] eqn:Hq.
  - unfold storeAnalysis. rewrite (ensure_pool_skipped E _ _ w Hp).
    unfold try_catch, bind, pool_query, safeLog, emit, throw.
    destruct (pool w); [| congruence]. rewrite Hq. reflexivity.
  - apply storeAnalysis_established; assumption.
Qed.

(** The table takes a record exactly when its values fit. *)
Lemma video_fits_row (E : Env) (m : VideoMetadata) :
  video_fits E m = true -> exists r, metadata_row E m = inr r.
Proof.
  unfold video_fits, metadata_row, videos_row.
  destruct m as [i ti de pu du vc ur].
  cbn [VideoMetadata.id VideoMetadata.title VideoMetadata.description
       VideoMetadata.publishedDate VideoMetadata.durationInSeconds].
  intros H.
  apply andb_true_iff in H. destruct H as [H Vdu].
  apply andb_true_iff in H. destruct H as [H Vpu].
  apply andb_true_iff in H. destruct H as [H Vde].
  apply andb_true_iff in H. destruct H as [Vid Vti].
  pose proof Vid as Vfits. apply fits_true in Vid. destruct Vid as [Vid Vsp].
  destruct ti as [ti |]; [| discriminate]. apply negb_true_iff in Vti.
  assert (Q1 : nullable text (Some i) = inr (Some i))
    by (unfold nullable, text; rewrite Vid; reflexivity).
  assert (Q2 : nullable text (Some ti) = inr (Some ti))
    by (unfold nullable, text; rewrite Vti; reflexivity).
  assert (Q3 : nullable text de = inr de) by (apply text_fits_nullable; exact Vde).
  assert (Q4 : nullable (timestamp E) (or_null truthy_string pu)
               = inr (or_null truthy_string pu)).
  { unfold or_null, truthy_string. destruct pu as [s |]; [| reflexivity].
    destruct (s =? ""); [reflexivity |]. simpl in Vpu |- *.
    apply andb_true_iff in Vpu. destruct Vpu as [Hn Ht].
    apply negb_true_iff in Hn.
    unfold timestamp. rewrite Hn, Ht. reflexivity. }
  assert (Q5 : exists q, nullable int4 (or_null truthy_number du) = inr q).
  { unfold or_null. destruct du as [[| z | neg] |]; simpl;
      try (eexists; reflexivity); [| discriminate].
    destruct (z =? 0)%Z; simpl in *; [eexists; reflexivity |].
    rewrite Vdu. eexists. reflexivity. }
  destruct Q5 as [q Q5].
  assert (Q6 : nullable text (Some (watch_url i)) = inr (Some (watch_url i))).
  { unfold nullable, text, watch_url. rewrite has_nul_app, Vid. reflexivity. }
  assert (Q7 : nullable (varchar 255) (Some i) = inr (Some (first_chars 255 i))).
  { unfold nullable. rewrite (varchar_fits _ _ Vfits). reflexivity. }
  rewrite Q1. cbn [andThen]. rewrite Q2. cbn [andThen].
  rewrite Q3. cbn [andThen]. rewrite Q4. cbn [andThen].
  rewrite Q5. cbn [andThen]. rewrite Q6. cbn [andThen].
  rewrite Q7. cbn [andThen not_null].
  eexists. reflexivity.
Qed.

Lemma text_fits_checked (p : option string) :
  (forall s, p = Some s -> has_nul s = false) -> text_fits p = true.
Proof.
  intros H. destruct p as [s |]; [| reflexivity]. simpl.
  rewrite (H s eq_refl). reflexivity.
Qed.

Lemma json_fits_checked (p : option Json) :
  (forall j, stringify_or_null p = Some j -> json_has_nul j = false) ->
  json_fits p = true.
Proof.
  intros H. unfold json_fits. destruct (stringify_or_null p) as [j |];
    [| reflexivity].
  rewrite (H j eq_refl). reflexivity.
Qed.

Lemma row_video_fits (E : Env) (m : VideoMetadata) (r : Videos.row) :
  metadata_row E m = inr r -> video_fits E m = true.
Proof.
  unfold metadata_row. intros H. apply videos_row_inr in H.
  destruct H as [_ [Hti [_ [Hpu [Hdu [_ [Hid [Hnt [Hde [Hts [Hrg _]]]]]]]]]]].
  unfold video_fits.
  destruct (Hid _ eq_refl) as [Hn Hs].
  assert (F1 : fits 255 (VideoMetadata.id m) = true) by (apply fits_true; auto).
  rewrite F1, Hti, Hnt, (text_fits_checked _ Hde). cbn [negb andb].
  assert (F4 : match VideoMetadata.publishedDate m with
               | Some s => (s =? "") || (negb (has_nul s) && timestamp_ok E s)
               | None => true
               end = true).
  { destruct (VideoMetadata.publishedDate m) as [s |]; [| reflexivity].
    destruct (s =? "") eqn:Hse; [reflexivity |].
    destruct (Hts s) as [H1 H2].
    { unfold or_null, truthy_string. rewrite Hse. reflexivity. }
    rewrite H1, H2. reflexivity. }
  rewrite F4. cbn [andb].
  destruct (VideoMetadata.durationInSeconds m) as [[| z | negative] |];
    try reflexivity.
  - destruct (z =? 0)%Z eqn:Hz.
    + apply Z.eqb_eq in Hz. subst z. reflexivity.
    + apply Hrg. unfold or_null, truthy_number in Hdu. rewrite Hz in Hdu.
      simpl in Hdu. destruct (Videos.duration_seconds r); inversion Hdu.
      reflexivity.
  - unfold or_null in Hdu. simpl in Hdu.
    destruct (Videos.duration_seconds r); discriminate.
Qed.

(** The table takes a transcript exactly when the values fit their columns
    and the video is there. *)
Lemma insert_transcript_accepts (v : string) (t : option string) (lang : string)
    (d : Db) :
  transcripts d <> None -> wf_db d -> seq_bound d ->
  fst (insert_transcript (Some v) t (Some lang) d) = inr tt <->
  fits 255 v = true /\
  (exists body, t = Some body /\ has_nul body = false) /\
  fits 10 lang = true /\ has_video (video_key v) d = true.
Proof.
  intros Ht Hwf Hb. split.
  - intros H.
    destruct (insert_transcript (Some v) t (Some lang) d) as [o d'] eqn:Hi.
    simpl in H. subst o.
    pose proof (insert_transcript_checked _ _ _ _ _ Hi) as [Hv [Hl Hbody]].
    apply insert_transcript_Ok in Hi.
    destruct Hi as [_ [_ [_ [r [Hr [Htext [_ Hcase]]]]]]].
    split; [exact Hv |]. split; [eauto |]. split; [exact Hl |].
    destruct Hcase as [[Hex _] | [_ [Hhas _]]]; [| exact Hhas].
    apply existsb_transcript in Hex. destruct Hex as [x [Hin Hk]].
    destruct Hwf as [_ [Hfk _]]. rewrite <- Hk. apply Hfk. exact Hin.
  - intros [Hv [[body [Htext Hbody]] [Hl Hhas]]]. subst t.
    unfold insert_transcript.
    destruct (transcripts d) as [tb |] eqn:Htd; [| congruence].
    rewrite (transcripts_values_fits v body lang Hv Hbody Hl).
    cbn [transcripts_row andThen not_null Transcripts.video_id].
    destruct (existsb (fun x => Transcripts.video_id x =? video_key v) tb);
      [reflexivity |].
    rewrite existsb_transcript_id_fresh.
    + change (has_video (video_key v)
                (set_transcripts_seq (transcripts_seq d + 1) d))
        with (has_video (video_key v) d).
      rewrite Hhas. reflexivity.
    + intros x Hin. unfold seq_bound in Hb. rewrite Htd in Hb.
      specialize (Hb x Hin). lia.
Qed.

Lemma insert_analysis_accepts (v : string) (a : AnalysisResult) (d : Db) :
  analysis d <> None -> wf_db d ->
  fst (insert_analysis
         (Some v)
         (AnalysisResult.video_type a) (AnalysisResult.name a)
         (AnalysisResult.age a) (AnalysisResult.sex a)
         (AnalysisResult.location a)
         (stringify_or_null (AnalysisResult.symptoms a))
         (stringify_or_null (AnalysisResult.medicalHistoryOfPatient a))
         (stringify_or_null (AnalysisResult.familyMedicalHistory a))
         (stringify_or_null (AnalysisResult.challengesFacedDuringDiagnosis a))
         (AnalysisResult.key_opinion a) d) = inr tt <->
  fits 255 v = true /\ analysis_fits a = true /\
  has_video (video_key v) d = true.
Proof.
  intros Ha [_ [_ Hfk]]. unfold insert_analysis.
  destruct (analysis d) as [tb |] eqn:Had; [| congruence].
  simpl in Hfk. split.
  - destruct (analysis_row _ _ _ _ _ _ _ _ _ _ _) as [e | r] eqn:Hr;
      [discriminate |].
    pose proof (analysis_row_video_id _ _ _ _ _ _ _ _ _ _ _ _ Hr) as Hk.
    apply analysis_row_inr in Hr. destruct Hr as [_ [_ [Hid [Htx Hjs]]]].
    rewrite Hk. intros H.
    split; [apply fits_true; apply (Hid v eq_refl) |]. split.
    + unfold analysis_fits.
      rewrite !text_fits_checked, !json_fits_checked; [reflexivity | | | | | | | | | |];
        intros x Hx; first [apply Htx | apply Hjs]; rewrite <- Hx; simpl; tauto.
    + destruct (existsb (fun x => Analysis.video_id x =? video_key v) tb) eqn:Hex.
      * apply existsb_analysis in Hex. destruct Hex as [x [Hin Hx]].
        rewrite <- Hx. apply Hfk. exact Hin.
      * destruct (has_video (video_key v) d); [reflexivity | discriminate].
  - intros [Hv [Hfits Hhas]]. rewrite (analysis_row_fits v a Hv Hfits).
    cbn [Analysis.video_id].
    destruct (existsb (fun x => Analysis.video_id x =? video_key v) tb);
      [reflexivity |].
    rewrite Hhas. reflexivity.
Qed.

(** X19. When a store returns.  With a pool and the tables, in whatever
    state earlier calls have left: [storeVideo] returns exactly when the
    statement is not lost and the values of the record fit their columns;
    [storeTranscript] exactly when the statement is not lost, the
    identifier fits VARCHAR(255), there is a text without the character
    U+0000, the language (["en"] by default) fits VARCHAR(10) and the
    video is in [videos] under the first 255 characters of the identifier;
    [storeAnalysis] exactly when the statement is not lost, the identifier
    and the values of the analysis fit their columns and the video is in
    [videos].  A text fits VARCHAR(n) when it holds no character U+0000
    and nothing but spaces after its first [n] characters. *)
Theorem stores_return_exactly_when (E : Env) (cs : list Call) :
  established (history E cs initial_world) ->
  (forall m,
      fst (storeVideo E m (history E cs initial_world)) = Ok tt <->
      query_error E (queries (history E cs initial_world)) = None /\
      video_fits E m = true) /\
  (forall v t l,
      fst (storeTranscript E v t l (history E cs initial_world)) = Ok tt <->
      query_error E (queries (history E cs initial_world)) = None /\
      fits 255 v = true /\
      (exists body, t = Some body /\ has_nul body = false) /\
      fits 10 match l with Some language => language | None => "en" end = true /\
      In (first_chars 255 v) (video_ids (db (history E cs initial_world)))) /\
  (forall v a,
      fst (storeAnalysis E v a (history E cs initial_world)) = Ok tt <->
      query_error E (queries (history E cs initial_world)) = None /\
      fits 255 v = true /\ analysis_fits a = true /\
      In (first_chars 255 v) (video_ids (db (history E cs initial_world)))).
Proof.
  set (w := history E cs initial_world). intros Hest.
  assert (Hwf : wf_db (db w)) by (apply history_wf; apply wf_initial_world).
  assert (Hb : seq_bound (db w))
    by (apply history_seq_bound; apply seq_bound_empty).
  pose proof Hest as [Hp [_ [Ht Ha]]].
  split; [| split].
  - intros m. rewrite (storeVideo_with_pool E m w Hest).
    destruct (query_error E (queries w)) as [msg |].
    { split; [discriminate | intros [H _]; discriminate]. }
    destruct (metadata_row E m) as [e | r] eqn:Hr.
    + split; [discriminate |]. intros [_ Hv].
      apply video_fits_row in Hv. destruct Hv as [r Hr']. congruence.
    + split; [| reflexivity]. intros _. split; [reflexivity |].
      apply (row_video_fits E m r Hr).
  - intros v t l. rewrite (storeTranscript_with_pool E v t l w Hp).
    fold (language_given l). fold (video_key v).
    rewrite <- has_video_spec.
    destruct (query_error E (queries w)) as [msg |].
    { split; [discriminate | intros [H _]; discriminate]. }
    pose proof (insert_transcript_accepts v t (language_given l) (db w)
                  Ht Hwf Hb) as Hacc.
    destruct (fst (insert_transcript _ _ _ (db w))) as [e | []].
    + split; [discriminate |]. intros [_ H]. apply Hacc in H. discriminate.
    + split; [| reflexivity]. intros _. split; [reflexivity |].
      apply Hacc. reflexivity.
  - intros v a. rewrite (storeAnalysis_with_pool E v a w Hp).
    fold (video_key v). rewrite <- has_video_spec.
    destruct (query_error E (queries w)) as [msg |].
    { split; [discriminate | intros [H _]; discriminate]. }
    pose proof (insert_analysis_accepts v a (db w) Ha Hwf) as Hacc.
    destruct (fst (insert_analysis _ _ _ _ _ _ _ _ _ _ _ (db w))) as [e | []].
    + split; [discriminate |]. intros [_ H]. apply Hacc in H. discriminate.
    + split; [| reflexivity]. intros _. split; [reflexivity |].
      apply Hacc. reflexivity.
Qed.

Lemma stores_return_exactly_when_witness :
  established (history calm [CallStoreVideo (clip "a1" "First")] initial_world) /\
  fst (storeTranscript calm "a1" (Some "Hello.") None
         (history calm [CallStoreVideo (clip "a1" "First")] initial_world))
  = Ok tt /\
  (fst (storeTranscript calm "a1" (Some "Hello.") None
          (history calm [CallStoreVideo (clip "a1" "First")] initial_world))
   = Ok tt <->
   query_error calm (queries (history calm [CallStoreVideo (clip "a1" "First")]
                                initial_world)) = None /\
   fits 255 "a1" = true /\
   (exists body, Some "Hello." = Some body /\ has_nul body = false) /\
   fits 10 "en" = true /\
   In "a1" (video_ids (db (history calm [CallStoreVideo (clip "a1" "First")]
                             initial_world)))).
Proof.
  assert (Hest : established (history calm [CallStoreVideo (clip "a1" "First")]
                                initial_world)).
  { exact (call_established calm (CallStoreVideo (clip "a1" "First"))
             initial_world reliable_calm ready_initial_world). }
  split; [exact Hest |].
  split; [vm_compute; reflexivity |].
  exact (proj1 (proj2 (stores_return_exactly_when calm
                         [CallStoreVideo (clip "a1" "First")] Hest))
           "a1" (Some "Hello.") None).
Defined.

(* ------------------------------------------------------------------ *)
(** ** The last handler *)

(** X20. [main] never rejects: whatever happens it returns or ends the
    process itself, so the handler attached by [main().catch] never runs;
    the run ends in the world that [main] leaves, and nothing is ever
    logged as an unhandled error. *)
Theorem main_never_rejects (E : Env) (args : list string) (w : World) :
  (forall e, fst (main E args w) <> Throw e) /\
  snd (youtube_fetcher E args w) = snd (main E args w).
Proof.
  assert (Hmain : forall e, fst (main E args w) <> Throw e).
  { intros e. unfold main. rewrite fst_bind.
    destruct (negb _ && negb _); cbn [when].
    - unfold bind, safeLog, emit, exit. simpl. discriminate.
    - cbn [ret fst snd]. rewrite fst_try_exit.
      match goal with
      | |- match ?o with _ => _ end <> _ =>
          destruct o as [[] | e' | c]; discriminate
      end. }
  split; [exact Hmain |].
  unfold youtube_fetcher, try_catch.
  destruct (main E args w) as [[[] | e | c] w1] eqn:Hm; try reflexivity.
  exfalso. apply (Hmain e). reflexivity.
Qed.

(* ------------------------------------------------------------------ *)
(** ** Doing it again *)





(** X22. Initialising again creates nothing: with a pool and the three
    tables, [initializeDatabase] leaves the database exactly as it was,
    whether its statements are answered or lost, and makes no connection
    attempt. *)
Theorem initializeDatabase_again (E : Env) (w : World) :
  established w ->
  db (snd (initializeDatabase E w)) = db w /\
  pool (snd (initializeDatabase E w)) = pool w /\
  attempts (snd (initializeDatabase E w)) = attempts w.
Proof.
  intros [Hp [Hv [Ht Ha]]].
  rewrite (initializeDatabase_with_pool E w Hp).
  unfold try_catch, bind, pool_query, create_videos, create_transcripts,
    create_analysis, safeLog, emit, throw.
  destruct (pool w) as [p |]; [| congruence].
  destruct (videos (db w)) as [tv |] eqn:Hv'; [| congruence].
  destruct (transcripts (db w)) as [tt' |] eqn:Ht'; [| congruence].
  destruct (analysis (db w)) as [ta |] eqn:Ha'; [| congruence].
  repeat first
    [ rewrite Hv' | rewrite Ht' | rewrite Ha'
    | match goal with
      | |- context [match query_error E ?n with _ => _ end] =>
          destruct (query_error E n)
      end
    | progress simpl ];
    auto.
Qed.

Lemma initializeDatabase_again_witness :
  established (history calm [CallStoreVideo (clip "a1" "First")] initial_world) /\
  db (snd (initializeDatabase calm
             (history calm [CallStoreVideo (clip "a1" "First")] initial_world)))
  = db (history calm [CallStoreVideo (clip "a1" "First")] initial_world).
Proof.
  assert (Hest : established (history calm [CallStoreVideo (clip "a1" "First")]
                                initial_world)).
  { exact (call_established calm (CallStoreVideo (clip "a1" "First"))
             initial_world reliable_calm ready_initial_world). }
  split; [exact Hest |].
  exact (proj1 (initializeDatabase_again calm _ Hest)).
Defined.

(* ------------------------------------------------------------------ *)
(** ** The two readers of [videos] *)

Lemma getAllVideoIds_Ok_world (E : Env) (w w' : World) (ids : list string) :
  getAllVideoIds E w = (Ok ids, w') ->
  ids = video_ids (db w') /\ pool w' <> None /\ videos (db w') <> None.
Proof.
  unfold getAllVideoIds. intros H.
  apply try_rethrow_Ok with (l := LVideoIdsFetchError) in H.
  apply bind_Ok in H. destruct H as [[] [w1 [H1 H]]].
  apply bind_Ok in H. destruct H as [result [w2 [H2 H]]].
  apply pool_query_Ok in H2. destruct H2 as [Hp [Hp' [_ H2]]].
  unfold select_video_ids in H2.
  unfold ret in H. inversion H; subst. unfold video_ids.
  destruct (videos (db w1)) as [t |] eqn:Hv; inversion H2; subst.
  rewrite Hv. simpl. repeat split; congruence.
Qed.

(** X23. Every identifier that [getAllVideoIds] returns can be read:
    after any calls on a fresh database, [getVideoMetadata], called next
    with one of them, returns a record with that identifier, unless its
    statement is lost. *)
Theorem listed_video_can_be_read (E : Env) (cs : list Call) (w' : World)
    (ids : list string) (v : string) :
  getAllVideoIds E (history E cs initial_world) = (Ok ids, w') ->
  In v ids ->
  query_error E (queries w') = None ->
  exists m,
    fst (getVideoMetadata E v w') = Ok (Some m) /\ ReadMetadata.id m = v.
Proof.
  intros Hall Hin Hq.
  assert (Hn : has_nul v = false).
  { pose proof (getAllVideoIds_Ok E _ _ _ Hall) as Hids. subst ids.
    apply history_video_ids_returned in Hin.
    destruct Hin as [cs1 [m [cs2 [_ [Hok Hk]]]]].
    destruct (storeVideo E m (history E cs1 initial_world)) as [o w2] eqn:Hs.
    simpl in Hok. subst o. apply storeVideo_Ok_checked in Hs.
    rewrite <- Hk. apply has_nul_first_chars. apply Hs. }
  apply getAllVideoIds_Ok_world in Hall.
  destruct Hall as [Hids [Hp Hv]]. subst ids.
  rewrite (getVideoMetadata_run E v w' Hp Hv Hq Hn).
  apply filter_video_id_present in Hin.
  destruct Hin as [row [rest [Hf [_ Hk]]]]. rewrite Hf.
  eexists. split; [reflexivity |]. exact Hk.
Qed.

Lemma listed_video_can_be_read_witness :
  In "b2" (video_ids (db (history calm [CallStoreVideo (clip "a1" "First");
                                        CallStoreVideo (clip "b2" "Second")]
                            initial_world))) /\
  exists m,
    fst (getVideoMetadata calm "b2"
           (snd (getAllVideoIds calm
                   (history calm [CallStoreVideo (clip "a1" "First");
                                  CallStoreVideo (clip "b2" "Second")]
                      initial_world))))
    = Ok (Some m) /\ ReadMetadata.id m = "b2".
Proof.
  assert (Hin : In "b2" (video_ids
                           (db (history calm [CallStoreVideo (clip "a1" "First");
                                              CallStoreVideo (clip "b2" "Second")]
                                  initial_world)))).
  { vm_compute. right. left. reflexivity. }
  split; [exact Hin |].
  apply (listed_video_can_be_read calm
           [CallStoreVideo (clip "a1" "First");
            CallStoreVideo (clip "b2" "Second")]
           (snd (getAllVideoIds calm
                   (history calm [CallStoreVideo (clip "a1" "First");
                                  CallStoreVideo (clip "b2" "Second")]
                      initial_world)))
           (video_ids (db (history calm [CallStoreVideo (clip "a1" "First");
                                         CallStoreVideo (clip "b2" "Second")]
                             initial_world)))
           "b2").
  - vm_compute. reflexivity.
  - exact Hin.
  - vm_compute. reflexivity.
Defined.
